(** * RISA / GLADOS streaming pipeline: a shallow embedding

    The development follows the C++ sources of the repository:
    - [glados/Image.h] (the owning Image handle),
    - [glados/Volume.h] (slice access),
    - [risa/Copy/H2D.cu], [risa/Copy/D2H.cu],
      [risa/Attenuation/Attenuation.cu], [risa/template/Template.cu]
      (the stages: [process], [processor], [readConfig], constructors),
    - [risa/Receiver/Receiver.cpp] (sinogram assembly).

    Machine integers are integers of [Z] with the wrap-around written out,
    buffers live in an explicit memory of address-indexed cells, queues are
    FIFO lists, [std::map<int, _>] members are finite maps keyed by [Z].
    The first part holds the embedding, the second part its properties. *)

From Stdlib Require Import ZArith Lia.
From stdpp Require Import gmap strings list.

Local Open Scope Z_scope.

(** ** Machine integers *)

Module Int.

(** Modelled from the spec: [size_type] of the memory managers is not
    among the sources; the frame index is a 64-bit index, and so is
    [std::size_t] on the LP64 targets of the CUDA tool chain. *)
Definition size_t_bits : Z := 64.
(** [int] and [unsigned int]. *)
Definition int_bits : Z := 32.

Definition to_size_t (z : Z) : Z := z mod 2 ^ size_t_bits.
Definition to_uint (z : Z) : Z := z mod 2 ^ int_bits.
Definition to_int (z : Z) : Z :=
  (z + 2 ^ (int_bits - 1)) mod 2 ^ int_bits - 2 ^ (int_bits - 1).

(** The value [-1] converted to [std::size_t]. *)
Definition SIZE_MAX : Z := 2 ^ size_t_bits - 1.

End Int.

(** ** Memory: the buffers behind [pointer_type] *)

Definition addr := nat.

(** A [pointer_type] is an owning smart pointer; [None] is [nullptr]. *)
Definition pointer_type := option addr.

Record Memory := mkMemory {
  next_free : addr;
  cells : gmap addr (list Z)
}.

Definition empty_memory : Memory := mkMemory 0%nat ∅.

(** [MemoryManager::make_ptr(size)]: a fresh buffer of [size] elements.
    Its content is indeterminate in C++; the model fills it with zeros. *)
Definition make_ptr (size : Z) (m : Memory) : addr * Memory :=
  (next_free m,
   mkMemory (S (next_free m))
            (<[next_free m := replicate (Z.to_nat size) 0]> (cells m))).

(** The elements behind a pointer; a dangling pointer reads as empty. *)
Definition deref (m : Memory) (p : addr) : list Z :=
  default [] (cells m !! p).

(** [MemoryManager::copy(dst, src, size)] and [std::copy] into the start of a
    buffer: the first [size] elements of the destination are overwritten. *)
Definition overwrite (dst src : list Z) : list Z :=
  src ++ drop (length src) dst.

Definition copy (dst src : addr) (size : Z) (m : Memory) : Memory :=
  mkMemory (next_free m)
           (<[dst := overwrite (deref m dst) (take (Z.to_nat size) (deref m src))]>
              (cells m)).

(** The elements [first, first + n) of a buffer, when they all exist. *)
Definition read_range (v : list Z) (first n : Z) : option (list Z) :=
  if decide (0 <= first /\ 0 <= n /\ first + n <= Z.of_nat (length v))
  then Some (take (Z.to_nat n) (drop (Z.to_nat first) v))
  else None.

(** [std::copy] of [src] to the elements of [dst] from [off] on, when the
    destination has them. *)
Definition write_range (dst : list Z) (off : Z) (src : list Z)
    : option (list Z) :=
  if decide (0 <= off /\ off + Z.of_nat (length src) <= Z.of_nat (length dst))
  then Some (take (Z.to_nat off) dst ++ src
             ++ drop (Z.to_nat off + length src) dst)
  else None.

(** Addresses handed out so far are below [next_free]. *)
Definition allocated (m : Memory) (p : addr) : Prop := (p < next_free m)%nat.

(** ** glados::Image *)

Record Image := mkImage {
  size_ : Z;
  index_ : Z;
  plane_ : Z;
  data_ : pointer_type;
  memoryPoolIndex_ : Z;
  start_ : Z;           (* time_point of the high resolution clock *)
  valid_ : bool;
  device_ : Z           (* state of the MemoryManager base: setDevice/device *)
}.

Module Img.

(** [Image() noexcept].  [start_] is default-initialised (the epoch). *)
Definition Image_default : Image :=
  mkImage 0 0 0 None 0 0 false 0.

(** [Image(size, idx, planeID, img_data)]. *)
Definition Image_new (size idx planeID : Z) (img_data : pointer_type)
    (m : Memory) : Image * Memory :=
  match img_data with
  | Some p => (mkImage size idx planeID (Some p) 0 0 true 0, m)
  | None =>
      let '(p, m') := make_ptr size m in
      (mkImage size idx planeID (Some p) 0 0 true 0, m')
  end.

(** [Image(const Image& other)].  [start_] is not in the initialiser list. *)
Definition Image_copy (other : Image) (m : Memory) : Image * Memory :=
  match data_ other with
  | None =>
      (mkImage (size_ other) (index_ other) (plane_ other) None
               (memoryPoolIndex_ other) 0 (valid_ other) (device_ other), m)
  | Some src =>
      let '(p, m1) := make_ptr (size_ other) m in
      let m2 := copy p src (size_ other) m1 in
      (mkImage (size_ other) (index_ other) (plane_ other) (Some p)
               (memoryPoolIndex_ other) 0 (valid_ other) (device_ other), m2)
  end.

(** [other.valid_ = false] after [std::move(other.data_)]. *)
Definition moved_from (other : Image) : Image :=
  mkImage (size_ other) (index_ other) (plane_ other) None
          (memoryPoolIndex_ other) (start_ other) false (device_ other).

(** [Image(Image&& other) noexcept]: the new object and what is left of
    [other]. *)
Definition Image_move (other : Image) : Image * Image :=
  (mkImage (size_ other) (index_ other) (plane_ other) (data_ other)
           (memoryPoolIndex_ other) (start_ other) (valid_ other)
           (device_ other),
   moved_from other).

(** [operator=(Image&& rhs) noexcept]: every member of [this] is
    overwritten, so the previous value of [this] does not matter. *)
Definition Image_move_assign (this rhs : Image) : Image * Image :=
  (mkImage (size_ rhs) (index_ rhs) (plane_ rhs) (data_ rhs)
           (memoryPoolIndex_ rhs) (start_ rhs) (valid_ rhs) (device_ rhs),
   moved_from rhs).

(** Mutators.  [setIdx] and [setMemPoolIdx] take [unsigned int]. *)
Definition setIdx (i : Image) (idx : Z) : Image :=
  mkImage (size_ i) (Int.to_uint idx) (plane_ i) (data_ i)
          (memoryPoolIndex_ i) (start_ i) (valid_ i) (device_ i).

Definition setPlane (i : Image) (plane : Z) : Image :=
  mkImage (size_ i) (index_ i) plane (data_ i)
          (memoryPoolIndex_ i) (start_ i) (valid_ i) (device_ i).

Definition setMemPoolIdx (i : Image) (idx : Z) : Image :=
  mkImage (size_ i) (index_ i) (plane_ i) (data_ i)
          (Int.to_uint idx) (start_ i) (valid_ i) (device_ i).

Definition setStart (i : Image) (start : Z) : Image :=
  mkImage (size_ i) (index_ i) (plane_ i) (data_ i)
          (memoryPoolIndex_ i) start (valid_ i) (device_ i).

Definition setDevice (i : Image) (dev : Z) : Image :=
  mkImage (size_ i) (index_ i) (plane_ i) (data_ i)
          (memoryPoolIndex_ i) (start_ i) (valid_ i) dev.

Definition invalid (i : Image) : Image :=
  mkImage (size_ i) (index_ i) (plane_ i) (data_ i)
          (memoryPoolIndex_ i) (start_ i) false (device_ i).

(** [operator=(const Image<U>& rhs)]: size, index, validity, plane and start
    are taken from [rhs]; the pool index and the memory manager base of
    [this] are not assigned.  The buffer [this] held is released by
    [data_.reset()], which the memory model does not trace. *)
Definition Image_copy_assign (this rhs : Image) (m : Memory) : Image * Memory :=
  match data_ rhs with
  | None =>
      (mkImage (size_ rhs) (index_ rhs) (plane_ rhs) None
               (memoryPoolIndex_ this) (start_ rhs) (valid_ rhs) (device_ this),
       m)
  | Some src =>
      let '(p, m1) := make_ptr (size_ rhs) m in
      let m2 := copy p src (size_ rhs) m1 in
      (mkImage (size_ rhs) (index_ rhs) (plane_ rhs) (Some p)
               (memoryPoolIndex_ this) (start_ rhs) (valid_ rhs) (device_ this),
       m2)
  end.

(** Accessors, named as in the class. *)
Definition size (i : Image) : Z := size_ i.
Definition index (i : Image) : Z := index_ i.
Definition plane (i : Image) : Z := plane_ i.
Definition valid (i : Image) : bool := valid_ i.
Definition memoryPoolIndex (i : Image) : Z := memoryPoolIndex_ i.
Definition start (i : Image) : Z := start_ i.
Definition container (i : Image) : pointer_type := data_ i.
Definition device (i : Image) : Z := device_ i.

End Img.


(** ** Outcomes of fallible code *)

Inductive exception :=
| runtime_error (what : string)
| out_of_range (what : string).

(** What a call does: it returns, throws, blocks for ever on a queue or on
    the pool, or leaves defined behaviour (an access outside a buffer, a
    division by zero). *)
Inductive outcome (A : Type) :=
| Returns (a : A)
| Throws (e : exception)
| Blocks
| Undefined.

Arguments Returns {A} a.
Arguments Throws {A} e.
Arguments Blocks {A}.
Arguments Undefined {A}.

#[global] Instance outcome_ret : MRet outcome := fun A a => Returns a.

#[global] Instance outcome_bind : MBind outcome := fun A B f x =>
  match x with
  | Returns a => f a
  | Throws e => Throws e
  | Blocks => Blocks
  | Undefined => Undefined
  end.

(** ** glados::MemoryPool *)

Module MemoryPool.

(** A pooled buffer: the region, its element count and the device owning it. *)
Record Buffer := mkBuffer {
  buf_ptr : pointer_type;
  buf_elements : Z;
  buf_device : Z
}.

(** Modelled from the spec: glados/MemoryPool.h is not among the sources.
    The pool is one free list of buffers per registration index; the list
    position is the registration index, which is stable. *)
Abbreviation MemoryPool := (list (list Buffer)).

Definition free_count (idx : Z) (pool : MemoryPool) : nat :=
  length (default [] (pool !! Z.to_nat idx)).

(** [count] fresh buffers of [elements] elements each. *)
Fixpoint preallocate (count : nat) (elements device : Z) (m : Memory)
    : list Buffer * Memory :=
  match count with
  | O => ([], m)
  | S n =>
      let '(p, m1) := make_ptr elements m in
      let '(bs, m2) := preallocate n elements device m1 in
      (mkBuffer (Some p) elements device :: bs, m2)
  end.

(** Modelled from the spec: [registerStage(count, elements) -> index] reserves
    [count] buffers of [elements] elements and returns the registration
    index.  [device] is the accelerator selected at the time of the call. *)
Definition registerStage (count elements device : Z) (pool : MemoryPool)
    (m : Memory) : Z * MemoryPool * Memory :=
  let '(bs, m') := preallocate (Z.to_nat count) elements device m in
  (Z.of_nat (length pool), pool ++ [bs], m').

(** Modelled from the spec: [requestMemory(index) -> Image] blocks until a
    buffer is available for the registration and wraps it in a valid Image. *)
Definition requestMemory (idx : Z) (pool : MemoryPool)
    : outcome (Image * MemoryPool) :=
  match pool !! Z.to_nat idx with
  | Some (b :: free) =>
      Returns (mkImage (buf_elements b) 0 0 (buf_ptr b) idx 0 true (buf_device b),
               <[Z.to_nat idx := free]> pool)
  | _ => Blocks
  end.

(** Modelled from the spec: [returnMemory(image)] places the buffer back on
    the free list of the registration the image names. *)
Definition returnMemory (img : Image) (pool : MemoryPool) : MemoryPool :=
  alter (cons (mkBuffer (data_ img) (size_ img) (device_ img)))
        (Z.to_nat (memoryPoolIndex_ img)) pool.


End MemoryPool.

(** [~Image()]: a valid image that goes out of scope is returned to the
    pool of its memory manager. *)
Definition Image_dtor (this : Image) (pool : MemoryPool.MemoryPool)
    : MemoryPool.MemoryPool :=
  if valid_ this then MemoryPool.returnMemory this pool else pool.

(** ** glados::Volume *)

Record Volume := mkVolume {
  width_ : Z;
  height_ : Z;
  depth_ : Z;
  vdata_ : pointer_type;
  vvalid_ : bool
}.

Module Vol.

(** [make_ptr(width, height)]: a two-dimensional buffer, [width * height]
    elements. *)
Definition make_ptr_2D (w h : Z) (m : Memory) : addr * Memory :=
  make_ptr (w * h) m.

(** The elements [data_.get()] points to; the null pointer has none, so
    that only the empty range at offset 0 can be formed from it. *)
Definition elements (v : Volume) (m : Memory) : list Z :=
  match vdata_ v with
  | Some base => deref m base
  | None => []
  end.

(** [Volume::operator[](i)].  The last line passes [width_, height_, i, ptr]
    to [Image(size, idx, planeID, img_data)]. *)
Definition operator_idx (v : Volume) (i : Z) (m : Memory)
    : outcome (Image * Memory) :=
  if decide (i >= depth_ v) then
    Throws (out_of_range "Volume: invalid slice index")
  else
    let sliceIdx := Int.to_size_t (i * width_ v * height_ v) in
    match read_range (elements v m) sliceIdx
            (Int.to_size_t (width_ v * height_ v)) with
    | None => Undefined
    | Some slice =>
        let '(p, m1) := make_ptr_2D (width_ v) (height_ v) m in
        let m2 := mkMemory (next_free m1)
                    (<[p := overwrite (deref m1 p) slice]> (cells m1)) in
        Returns (Img.Image_new (width_ v) (height_ v) i (Some p) m2)
    end.

(** [Volume() noexcept]. *)
Definition Volume_default : Volume := mkVolume 0 0 0 None false.

(** [MemoryManager::copy(dst, src, w, h, d)]: [w * h * d] elements. *)
Definition copy_3D (dst src : addr) (w h d : Z) (m : Memory) : Memory :=
  copy dst src (w * h * d) m.

(** [Volume(const Volume& other)]. *)
Definition Volume_copy (other : Volume) (m : Memory) : Volume * Memory :=
  match vdata_ other with
  | None =>
      (mkVolume (width_ other) (height_ other) (depth_ other) None
                (vvalid_ other), m)
  | Some src =>
      let '(p, m1) :=
        make_ptr (width_ other * height_ other * depth_ other) m in
      (mkVolume (width_ other) (height_ other) (depth_ other) (Some p)
                (vvalid_ other),
       copy_3D p src (width_ other) (height_ other) (depth_ other) m1)
  end.

(** [operator=(const Volume<U>& rhs)]: [valid_] is not assigned. *)
Definition Volume_copy_assign (this rhs : Volume) (m : Memory)
    : Volume * Memory :=
  match vdata_ rhs with
  | None =>
      (mkVolume (width_ rhs) (height_ rhs) (depth_ rhs) None (vvalid_ this), m)
  | Some src =>
      let '(p, m1) := make_ptr (width_ rhs * height_ rhs * depth_ rhs) m in
      (mkVolume (width_ rhs) (height_ rhs) (depth_ rhs) (Some p)
                (vvalid_ this),
       copy_3D p src (width_ rhs) (height_ rhs) (depth_ rhs) m1)
  end.

(** [Volume(Volume&& other) noexcept]: the new object and what is left of
    [other], whose [valid_] the constructor does not touch. *)
Definition Volume_move (other : Volume) : Volume * Volume :=
  (mkVolume (width_ other) (height_ other) (depth_ other) (vdata_ other)
            (vvalid_ other),
   mkVolume (width_ other) (height_ other) (depth_ other) None
            (vvalid_ other)).

(** [operator=(Volume&& rhs) noexcept]: ends in [rhs.valid_ = false]. *)
Definition Volume_move_assign (this rhs : Volume) : Volume * Volume :=
  (mkVolume (width_ rhs) (height_ rhs) (depth_ rhs) (vdata_ rhs)
            (vvalid_ rhs),
   mkVolume (width_ rhs) (height_ rhs) (depth_ rhs) None false).

(** [Volume(w, h, d, ptr)] with the default [ptr = nullptr]. *)
Definition Volume_new (w h d : Z) (m : Memory) : Volume * Memory :=
  let '(p, m') := make_ptr (w * h * d) m in
  (mkVolume w h d (Some p) true, m').

End Vol.


(** ** Stage skeleton: queues, worker threads, events

    A stage owns one input queue and one worker thread per device and a
    single output queue.  What [process] does to these shared objects is
    recorded as the sequence of its blocking operations; the members it
    updates on the way are passed as state. *)

Inductive event :=
| Push (queue : Z) (img : Image)     (* sinograms_[queue].push(img) *)
| Join (thread : Z)                  (* processorThreads_[thread].join() *)
| Output (img : Image).              (* results_.push(img) *)

(** [for (auto i = 0; i < numberOfDevices_; i++) body(i);] *)
Definition for_each_device (numberOfDevices : Z) (body : Z -> event)
    : list event :=
  body <$> seqZ 0 numberOfDevices.

(** The [else] branch every [process] shares: a sentinel to each worker
    queue, a join of each worker thread, a sentinel to the output queue. *)
Definition finish (numberOfDevices : Z) : list event :=
  for_each_device numberOfDevices (fun i => Push i Img.Image_default)
  ++ for_each_device numberOfDevices Join
  ++ [Output Img.Image_default].

(** Images pushed to one worker queue, in order. *)
Fixpoint pushed_to (q : Z) (evs : list event) : list Image :=
  match evs with
  | [] => []
  | Push q' img :: evs' =>
      if decide (q' = q) then img :: pushed_to q evs' else pushed_to q evs'
  | _ :: evs' => pushed_to q evs'
  end.

(** Threads joined, in order. *)
Fixpoint joined (evs : list event) : list Z :=
  match evs with
  | [] => []
  | Join t :: evs' => t :: joined evs'
  | _ :: evs' => joined evs'
  end.

(** Images pushed to the output queue, in order. *)
Fixpoint outputs (evs : list event) : list Image :=
  match evs with
  | [] => []
  | Output img :: evs' => img :: outputs evs'
  | _ :: evs' => outputs evs'
  end.

(** The effect of the pushes on the worker queues ([std::map::operator[]]
    creates a queue that does not exist yet). *)
Fixpoint enqueue (evs : list event) (queues : gmap Z (list Image))
    : gmap Z (list Image) :=
  match evs with
  | [] => queues
  | Push q img :: evs' =>
      enqueue evs' (<[q := default [] (queues !! q) ++ [img]]> queues)
  | _ :: evs' => enqueue evs' queues
  end.

(** How a worker loop stands when its queue has no more elements for it. *)
Inductive worker_status :=
| Exited               (* left the loop by [break] *)
| WaitingForInput      (* blocked in [take()] on an empty queue *)
| WaitingForMemory.    (* blocked in [requestMemory] on an empty free list *)

Record worker_result := mkWorker {
  status : worker_status;
  queue_left : list Image;
  in_pool : MemoryPool.MemoryPool;    (* pool the consumed inputs return to *)
  out_pool : MemoryPool.MemoryPool;   (* pool the outputs are requested from *)
  published : list Image              (* pushed to [results_], in order *)
}.

(** The worker loop:
    [while (true) { auto in = queue.take(); if (!in.valid()) break;
       auto out = requestMemory(poolIdx); ...stamp...; results_.push(out); }]
    At the end of an iteration [in] goes out of scope. *)
Fixpoint worker_loop (stamp : Image -> Image -> Image) (poolIdx : Z)
    (queue : list Image) (pin pout : MemoryPool.MemoryPool) : worker_result :=
  match queue with
  | [] => mkWorker WaitingForInput [] pin pout []
  | input :: rest =>
      if negb (Img.valid input) then mkWorker Exited rest pin pout []
      else
        match MemoryPool.requestMemory poolIdx pout with
        | Returns (out, pout') =>
            let r := worker_loop stamp poolIdx rest
                       (Image_dtor input pin) pout' in
            mkWorker (status r) (queue_left r) (in_pool r) (out_pool r)
                     (stamp input out :: published r)
        | _ => mkWorker WaitingForMemory rest pin pout []
        end
  end.


(** *** One schedule of a stage

    The worker threads run beside [process].  The schedule below lets every
    worker wait until it is joined and then run its loop to the end; it
    serves to replay event sequences on concrete queues. *)

Record stage_run := mkRun {
  queues : gmap Z (list Image);
  results : list Image;
  run_in_pool : MemoryPool.MemoryPool;
  run_out_pool : MemoryPool.MemoryPool
}.

Definition run_event
    (processor : Z -> list Image -> MemoryPool.MemoryPool ->
                 MemoryPool.MemoryPool -> worker_result)
    (ev : event) (s : stage_run) : outcome stage_run :=
  match ev with
  | Push q img =>
      Returns (mkRun (enqueue [ev] (queues s)) (results s)
                     (run_in_pool s) (run_out_pool s))
  | Join t =>
      let r := processor t (default [] (queues s !! t))
                 (run_in_pool s) (run_out_pool s) in
      match status r with
      | Exited =>
          Returns (mkRun (<[t := queue_left r]> (queues s))
                         (results s ++ published r) (in_pool r) (out_pool r))
      | _ => Blocks
      end
  | Output img =>
      Returns (mkRun (queues s) (results s ++ [img])
                     (run_in_pool s) (run_out_pool s))
  end.

Fixpoint run_events
    (processor : Z -> list Image -> MemoryPool.MemoryPool ->
                 MemoryPool.MemoryPool -> worker_result)
    (evs : list event) (s : stage_run) : outcome stage_run :=
  match evs with
  | [] => Returns s
  | ev :: evs' => s' ← run_event processor ev s; run_events processor evs' s'
  end.

(** ** risa::cuda::H2D *)

Module H2D.

(** The members [process] and [processor] use.  The timer and the best and
    worst case times are wall-clock statistics and are left out.

    Modelled from the spec: H2D.h, which declares the members, is not among
    the sources.  The last index and the counter of lost frames hold frame
    indices, 64-bit unsigned values, and the constructor initialises both
    with [0u]. *)
Record H2D := mkH2D {
  numberOfDevices_ : Z;          (* int *)
  lastDevice_ : Z;               (* int *)
  lastIndex_ : Z;                (* std::size_t, initialised with 0u *)
  lostSinos_ : Z;                (* std::size_t, initialised with 0u *)
  count_ : Z;                    (* std::size_t, as in D2H.h *)
  memoryPoolIdxs_ : gmap Z Z     (* std::map<int, unsigned int> *)
}.

(** The member initialisers of the constructor:
    [lastDevice_{0}, lastIndex_{0u}, lostSinos_{0u}], and [count_{0}]. *)
Definition init (numberOfDevices : Z) (idxs : gmap Z Z) : H2D :=
  mkH2D numberOfDevices 0 0 0 0 idxs.

(** [H2D::process(input_type&& sinogram)].  The image is moved into the
    queue first; [sinogram.index()] is read from what the move left. *)
Definition process (sinogram : Image) (st : H2D) : outcome (H2D * list event) :=
  if Img.valid sinogram then
    let '(queued, sinogram) := Img.Image_move sinogram in
    let ev := Push (lastDevice_ st) queued in
    if decide (numberOfDevices_ st = 0) then Undefined
    else
      let lastDevice := Z.rem (lastDevice_ st + 1) (numberOfDevices_ st) in
      let diff :=
        Int.to_int (Int.to_size_t (Img.index sinogram - lastIndex_ st - 1)) in
      let lostSinos := Int.to_size_t (lostSinos_ st + diff) in
      let count := Int.to_size_t (count_ st + 1) in
      let lastIndex := Img.index sinogram in
      Returns (mkH2D (numberOfDevices_ st) lastDevice lastIndex lostSinos count
                     (memoryPoolIdxs_ st),
               [ev])
  else
    Returns (st, finish (numberOfDevices_ st)).

(** [process] called once for each image of a stream, in order. *)
Fixpoint process_all (stream : list Image) (st : H2D)
    : outcome (H2D * list event) :=
  match stream with
  | [] => Returns (st, [])
  | sinogram :: stream' =>
      '(st1, evs1) ← process sinogram st;
      '(st2, evs2) ← process_all stream' st1;
      mret (st2, evs1 ++ evs2)
  end.

(** What one loop iteration of [processor] sets on the pooled image. *)
Definition stamp (deviceID : Z) (sinogram img : Image) : Image :=
  let img := Img.setIdx img (Img.index sinogram) in
  let img := Img.setDevice img deviceID in
  let img := Img.setPlane img (Img.plane sinogram) in
  Img.setStart img (Img.start sinogram).

(** [H2D::processor(int deviceID)], from the first [take()] on. *)
Definition processor (st : H2D) (deviceID : Z) (queue : list Image)
    (pin pout : MemoryPool.MemoryPool) : worker_result :=
  worker_loop (stamp deviceID) (default 0 (memoryPoolIdxs_ st !! deviceID))
              queue pin pout.

End H2D.

(** ** risa::cuda::D2H *)

Module D2H.

Record D2H := mkD2H {
  numberOfDevices_ : Z;          (* int *)
  count_ : Z;                    (* std::size_t *)
  memoryPoolIdx_ : Z             (* unsigned int *)
}.

(** [D2H::process(input_type&& img)]; the reconstruction rate it logs every
    10000 images is a wall-clock statistic and is left out. *)
Definition process (img : Image) (st : D2H) : outcome (D2H * list event) :=
  if Img.valid img then
    let count := Int.to_size_t (count_ st + 1) in
    let queue := Img.device img in
    let '(queued, img) := Img.Image_move img in
    Returns (mkD2H (numberOfDevices_ st) count (memoryPoolIdx_ st),
             [Push queue queued])
  else
    Returns (st, finish (numberOfDevices_ st)).

(** The loop body does not call [setDevice]. *)
Definition stamp (img ret : Image) : Image :=
  let ret := Img.setIdx ret (Img.index img) in
  let ret := Img.setPlane ret (Img.plane img) in
  Img.setStart ret (Img.start img).

Definition processor (st : D2H) (deviceID : Z) (queue : list Image)
    (pin pout : MemoryPool.MemoryPool) : worker_result :=
  worker_loop stamp (memoryPoolIdx_ st) queue pin pout.

End D2H.

(** ** risa::cuda::Attenuation *)

Module Attenuation.

Record Attenuation := mkAttenuation {
  numberOfDevices_ : Z;          (* int *)
  memoryPoolIdxs_ : gmap Z Z     (* std::map<int, unsigned int> *)
}.

Definition process (sinogram : Image) (st : Attenuation)
    : outcome (Attenuation * list event) :=
  if Img.valid sinogram then
    let queue := Img.device sinogram in
    let '(queued, sinogram) := Img.Image_move sinogram in
    Returns (st, [Push queue queued])
  else
    Returns (st, finish (numberOfDevices_ st)).

Definition stamp (deviceID : Z) (sinogram sino : Image) : Image :=
  let sino := Img.setIdx sino (Img.index sinogram) in
  let sino := Img.setDevice sino deviceID in
  let sino := Img.setPlane sino (Img.plane sinogram) in
  Img.setStart sino (Img.start sinogram).

Definition processor (st : Attenuation) (deviceID : Z) (queue : list Image)
    (pin pout : MemoryPool.MemoryPool) : worker_result :=
  worker_loop (stamp deviceID) (default 0 (memoryPoolIdxs_ st !! deviceID))
              queue pin pout.

End Attenuation.

(** ** risa::cuda::Template, the skeleton new stages start from *)

Module Template.

Record Template := mkTemplate {
  numberOfDevices_ : Z;          (* int *)
  memoryPoolIdx_ : Z             (* unsigned int *)
}.

Definition process (img : Image) (st : Template)
    : outcome (Template * list event) :=
  if Img.valid img then
    let queue := Img.device img in
    let '(queued, img) := Img.Image_move img in
    Returns (st, [Push queue queued])
  else
    Returns (st, finish (numberOfDevices_ st)).

(** The body between [requestMemory] and [results_.push] is left to the
    stage that is written from the template. *)
Definition stamp (img ret : Image) : Image := ret.

Definition processor (st : Template) (deviceID : Z) (queue : list Image)
    (pin pout : MemoryPool.MemoryPool) : worker_result :=
  worker_loop stamp (memoryPoolIdx_ st) queue pin pout.

End Template.


(** ** risa::Receiver *)

Module Receiver.

Record Receiver := mkReceiver {
  numberOfDetectors_ : Z;
  numberOfDetectorModules_ : Z;
  bufferSize_ : Z;
  numberOfProjections_ : Z;
  buffers_ : gmap Z (list Z);    (* one ring buffer per detector module *)
  memoryPoolIndex_ : Z
}.

(** The local [int numberOfDetectorsPerModule = 16;] of [loadImage]. *)
Definition numberOfDetectorsPerModule : Z := 16.

(** One iteration of the loop over the detector modules: the [std::copy]
    from the ring buffer of module [detModInd] into the sinogram [sino].
    [index % bufferSize_] is computed in [std::size_t]. *)
Definition stitch_module (r : Receiver) (index detModInd : Z) (sino : list Z)
    : option (list Z) :=
  if decide (Int.to_size_t (bufferSize_ r) = 0) then None
  else
    let startIndex :=
      Int.to_size_t ((index mod Int.to_size_t (bufferSize_ r))
                     * numberOfDetectorsPerModule * numberOfProjections_ r) in
    stripe ← read_range (default [] (buffers_ r !! detModInd)) startIndex
               (numberOfDetectorsPerModule * numberOfProjections_ r);
    write_range sino
      (detModInd * numberOfDetectorsPerModule * numberOfProjections_ r) stripe.

(** [for (auto detModInd = 0; detModInd < numberOfDetectorModules_; ...)] *)
Fixpoint stitch (r : Receiver) (index : Z) (modules : list Z) (sino : list Z)
    : option (list Z) :=
  match modules with
  | [] => Some sino
  | detModInd :: modules' =>
      sino' ← stitch_module r index detModInd sino;
      stitch r index modules' sino'
  end.

(** [Receiver::loadImage()].  [fetched] is what [notification_.fetch()]
    returned, [now] the reading of the high resolution clock. *)
Definition loadImage (r : Receiver) (fetched now : Z)
    (pool : MemoryPool.MemoryPool) (m : Memory)
    : outcome (Image * MemoryPool.MemoryPool * Memory) :=
  let index := fetched in
  if decide (index = Int.SIZE_MAX) then Returns (Img.Image_default, pool, m)
  else
    '(sino, pool) ← MemoryPool.requestMemory (memoryPoolIndex_ r) pool;
    match Img.container sino with
    | None => Undefined
    | Some p =>
        match stitch r index (seqZ 0 (numberOfDetectorModules_ r))
                (deref m p) with
        | None => Undefined
        | Some content =>
            let m := mkMemory (next_free m) (<[p := content]> (cells m)) in
            let sino := Img.setIdx sino index in
            let sino := Img.setPlane sino (index mod 2) in
            let sino := Img.setStart sino now in
            let '(ret, sino) := Img.Image_move sino in
            Returns (ret, Image_dtor sino pool, m)
        end
    end.

End Receiver.


(** ** Configuration and the stage constructors *)

Module Config.

(** A value of the JSON configuration document. *)
Inductive json :=
| JInt (z : Z)
| JReal (mantissa exponent : Z)
| JString (s : string)
| JList (entries : list (list (string * string))).

(** Modelled from the spec: the configuration accessor is an external
    collaborator, a keyed lookup over a JSON document read at startup. *)
Definition read_json := gmap string json.

(** Modelled from the spec: [get_value<int>(key)]; [None] stands for the
    [ptree_error] thrown on a missing key or a value of another type. *)
Definition get_int (cfg : read_json) (key : string) : option Z :=
  match cfg !! key with
  | Some (JInt z) =>
      if decide (- 2 ^ 31 <= z < 2 ^ 31) then Some z else None
  | _ => None
  end.

(** Modelled from the spec: [get_value<unsigned int>(key)]. *)
Definition get_uint (cfg : read_json) (key : string) : option Z :=
  match cfg !! key with
  | Some (JInt z) => if decide (0 <= z < 2 ^ 32) then Some z else None
  | _ => None
  end.

(** Modelled from the spec: [get_value<float>(key)], [get_value<double>(key)]. *)
Definition get_real (cfg : read_json) (key : string) : option (Z * Z) :=
  match cfg !! key with
  | Some (JInt z) => Some (z, 0)
  | Some (JReal m e) => Some (m, e)
  | _ => None
  end.

(** Modelled from the spec: [get_element_in_list(list, field, (key, value))],
    the [field] of the first entry of [list] whose [key] is [value]. *)
Definition get_element_in_list (cfg : read_json) (list_key field : string)
    (sel : string * string) : option string :=
  match cfg !! list_key with
  | Some (JList entries) =>
      entry ← List.find (fun e =>
                 bool_decide (list_to_map (M := gmap string string) e !! sel.1
                              = Some sel.2)) entries;
      list_to_map (M := gmap string string) entry !! field
  | _ => None
  end.

(** [<cstdlib>] *)
Definition EXIT_SUCCESS : Z := 0.
Definition EXIT_FAILURE : Z := 1.

(** The conversion of the returned [int] to the [bool] return type. *)
Definition to_bool (z : Z) : bool := negb (z =? 0).

(** [sampling_rate * 1000000 / scan_rate] in [int]. *)
Definition projections (sampling_rate scan_rate : Z) : outcome Z :=
  if decide (scan_rate = 0) then Undefined
  else if decide (- 2 ^ 31 <= sampling_rate * 1000000 < 2 ^ 31)
  then Returns (Z.quot (sampling_rate * 1000000) scan_rate)
  else Undefined.

(** How a block of reads ends: [Done a] when every statement ran, with the
    value [a] of the block; [Caught this] when a read threw [ptree_error]
    (or a lookup was not found), with the members as the statements before
    it left them. *)
Inductive tried (A B : Type) :=
| Done (a : A)
| Caught (this : B).
Arguments Done {A B} a.
Arguments Caught {A B} this.

(** The statement [member_ = get(key);] followed by the statements [rest]:
    the member is assigned as soon as its key is read; [None] is the
    [ptree_error], which leaves the block. *)
Definition assign {A B R} (v : option A) (set : A -> B -> B) (this : B)
    (rest : B -> tried R B) : tried R B :=
  match v with
  | Some a => rest (set a this)
  | None => Caught this
  end.

(** The statement [local = get(key);] followed by the statements [rest]. *)
Definition read_local {A B R} (v : option A) (this : B)
    (rest : A -> tried R B) : tried R B :=
  match v with
  | Some a => rest a
  | None => Caught this
  end.

(** What a constructor does with the value of [readConfig], up to the
    first statement after the configuration check. *)
Definition throw_if {A} (cond : bool) (what : string) (members : A)
    : outcome A :=
  if cond then Throws (runtime_error what) else Returns members.

End Config.

Module H2DConfig.
Import Config.

Record members := mkMembers {
  numberOfDetectors_ : Z;
  memPoolSize_ : Z;
  numberOfProjections_ : Z
}.

Definition set_numberOfDetectors (v : Z) (this : members) : members :=
  mkMembers v (memPoolSize_ this) (numberOfProjections_ this).
Definition set_memPoolSize (v : Z) (this : members) : members :=
  mkMembers (numberOfDetectors_ this) v (numberOfProjections_ this).
Definition set_numberOfProjections (v : Z) (this : members) : members :=
  mkMembers (numberOfDetectors_ this) (memPoolSize_ this) v.

(** The [try] block of [H2D::readConfig]: the members and the locals
    [sampling_rate] and [scan_rate] at its end, or the members at the
    throw. *)
Definition read_keys (cfg : read_json) (this : members)
    : tried (members * Z * Z) members :=
  assign (get_int cfg "number_of_fan_detectors") set_numberOfDetectors this
    (fun this =>
  assign (get_int cfg "mempoolsize_h2d") set_memPoolSize this (fun this =>
  read_local (get_int cfg "sampling_rate") this (fun sampling_rate =>
  read_local (get_int cfg "scan_rate") this (fun scan_rate =>
  Done (this, sampling_rate, scan_rate))))).

(** [H2D::readConfig]: the handler returns [EXIT_FAILURE]; after the block
    [numberOfProjections_ = sampling_rate * 1000000 / scan_rate]. *)
Definition readConfig (cfg : read_json) (this : members)
    : outcome (bool * members) :=
  match read_keys cfg this with
  | Caught this => Returns (to_bool EXIT_FAILURE, this)
  | Done (this, sampling_rate, scan_rate) =>
      numberOfProjections ← projections sampling_rate scan_rate;
      Returns (to_bool EXIT_SUCCESS,
               set_numberOfProjections numberOfProjections this)
  end.

(** [H2D::H2D(config_file)], the configuration check. *)
Definition constructor (cfg : read_json) (this : members) : outcome members :=
  '(r, this) ← readConfig cfg this;
  throw_if r "Configuration file could not be read. Please check!" this.

End H2DConfig.

Module D2HConfig.
Import Config.

Record members := mkMembers {
  numberOfPixels_ : Z;
  memPoolSize_ : Z
}.

Definition set_numberOfPixels (v : Z) (this : members) : members :=
  mkMembers v (memPoolSize_ this).
Definition set_memPoolSize (v : Z) (this : members) : members :=
  mkMembers (numberOfPixels_ this) v.

(** The [try] block of [D2H::readConfig]. *)
Definition read_keys (cfg : read_json) (this : members)
    : tried members members :=
  assign (get_int cfg "number_of_pixels") set_numberOfPixels this (fun this =>
  assign (get_int cfg "mempoolsize_d2h") set_memPoolSize this (fun this =>
  Done this)).

(** [D2H::readConfig]. *)
Definition readConfig (cfg : read_json) (this : members)
    : outcome (bool * members) :=
  match read_keys cfg this with
  | Caught this => Returns (to_bool EXIT_FAILURE, this)
  | Done this => Returns (to_bool EXIT_SUCCESS, this)
  end.

(** [D2H::D2H(config_file)], the configuration check. *)
Definition constructor (cfg : read_json) (this : members) : outcome members :=
  '(r, this) ← readConfig cfg this;
  throw_if r "recoLib::cuda::D2H: unable to read config file. Please check!"
           this.

End D2HConfig.

Module TemplateConfig.
Import Config.

Record members := mkMembers {
  numberOfPixels_ : Z
}.

Definition set_numberOfPixels (v : Z) (this : members) : members :=
  mkMembers v.

(** The [try] block of [Template::readConfig]. *)
Definition read_keys (cfg : read_json) (this : members)
    : tried members members :=
  assign (get_int cfg "number_of_pixels") set_numberOfPixels this (fun this =>
  Done this).

(** [Template::readConfig]. *)
Definition readConfig (cfg : read_json) (this : members)
    : outcome (bool * members) :=
  match read_keys cfg this with
  | Caught this => Returns (to_bool EXIT_FAILURE, this)
  | Done this => Returns (to_bool EXIT_SUCCESS, this)
  end.

(** [Template::Template(configFile)], the configuration check:
    [if (!readConfig(config_reader)) throw ...]. *)
Definition constructor (cfg : read_json) (this : members) : outcome members :=
  '(r, this) ← readConfig cfg this;
  throw_if (negb r)
    "recoLib::cuda::Template: unable to read config file. Please check!" this.

End TemplateConfig.

Module AttenuationConfig.
Import Config.

Record members := mkMembers {
  numberOfDetectors_ : Z;
  numberOfDetectorModules_ : Z;
  numberOfRefFrames_ : Z;
  pathDark_ : string;
  pathReference_ : string;
  numberOfPlanes_ : Z;
  sourceOffset_ : Z * Z;
  xa_ : Z; xb_ : Z; xc_ : Z; xd_ : Z; xe_ : Z; xf_ : Z;
  lowerLimOffset_ : Z * Z;
  upperLimOffset_ : Z * Z;
  blockSize2D_ : Z;
  memPoolSize_ : Z;
  threshMin_ : Z * Z;
  threshMax_ : Z * Z;
  numberOfProjections_ : Z
}.

Definition set_numberOfDetectors (v : Z) (this : members) : members :=
  mkMembers v (numberOfDetectorModules_ this) (numberOfRefFrames_ this)
  (pathDark_ this) (pathReference_ this) (numberOfPlanes_ this)
  (sourceOffset_ this) (xa_ this) (xb_ this) (xc_ this) (xd_ this) (xe_ this)
  (xf_ this) (lowerLimOffset_ this) (upperLimOffset_ this)
  (blockSize2D_ this) (memPoolSize_ this) (threshMin_ this) (threshMax_ this)
  (numberOfProjections_ this).
Definition set_numberOfDetectorModules (v : Z) (this : members) : members :=
  mkMembers (numberOfDetectors_ this) v (numberOfRefFrames_ this)
  (pathDark_ this) (pathReference_ this) (numberOfPlanes_ this)
  (sourceOffset_ this) (xa_ this) (xb_ this) (xc_ this) (xd_ this) (xe_ this)
  (xf_ this) (lowerLimOffset_ this) (upperLimOffset_ this)
  (blockSize2D_ this) (memPoolSize_ this) (threshMin_ this) (threshMax_ this)
  (numberOfProjections_ this).
Definition set_numberOfRefFrames (v : Z) (this : members) : members :=
  mkMembers (numberOfDetectors_ this) (numberOfDetectorModules_ this) v
  (pathDark_ this) (pathReference_ this) (numberOfPlanes_ this)
  (sourceOffset_ this) (xa_ this) (xb_ this) (xc_ this) (xd_ this) (xe_ this)
  (xf_ this) (lowerLimOffset_ this) (upperLimOffset_ this)
  (blockSize2D_ this) (memPoolSize_ this) (threshMin_ this) (threshMax_ this)
  (numberOfProjections_ this).
Definition set_pathDark (v : string) (this : members) : members :=
  mkMembers (numberOfDetectors_ this) (numberOfDetectorModules_ this)
  (numberOfRefFrames_ this) v (pathReference_ this) (numberOfPlanes_ this)
  (sourceOffset_ this) (xa_ this) (xb_ this) (xc_ this) (xd_ this) (xe_ this)
  (xf_ this) (lowerLimOffset_ this) (upperLimOffset_ this)
  (blockSize2D_ this) (memPoolSize_ this) (threshMin_ this) (threshMax_ this)
  (numberOfProjections_ this).
Definition set_pathReference (v : string) (this : members) : members :=
  mkMembers (numberOfDetectors_ this) (numberOfDetectorModules_ this)
  (numberOfRefFrames_ this) (pathDark_ this) v (numberOfPlanes_ this)
  (sourceOffset_ this) (xa_ this) (xb_ this) (xc_ this) (xd_ this) (xe_ this)
  (xf_ this) (lowerLimOffset_ this) (upperLimOffset_ this)
  (blockSize2D_ this) (memPoolSize_ this) (threshMin_ this) (threshMax_ this)
  (numberOfProjections_ this).
Definition set_numberOfPlanes (v : Z) (this : members) : members :=
  mkMembers (numberOfDetectors_ this) (numberOfDetectorModules_ this)
  (numberOfRefFrames_ this) (pathDark_ this) (pathReference_ this) v
  (sourceOffset_ this) (xa_ this) (xb_ this) (xc_ this) (xd_ this) (xe_ this)
  (xf_ this) (lowerLimOffset_ this) (upperLimOffset_ this)
  (blockSize2D_ this) (memPoolSize_ this) (threshMin_ this) (threshMax_ this)
  (numberOfProjections_ this).
Definition set_sourceOffset (v : Z * Z) (this : members) : members :=
  mkMembers (numberOfDetectors_ this) (numberOfDetectorModules_ this)
  (numberOfRefFrames_ this) (pathDark_ this) (pathReference_ this)
  (numberOfPlanes_ this) v (xa_ this) (xb_ this) (xc_ this) (xd_ this)
  (xe_ this) (xf_ this) (lowerLimOffset_ this) (upperLimOffset_ this)
  (blockSize2D_ this) (memPoolSize_ this) (threshMin_ this) (threshMax_ this)
  (numberOfProjections_ this).
Definition set_xa (v : Z) (this : members) : members :=
  mkMembers (numberOfDetectors_ this) (numberOfDetectorModules_ this)
  (numberOfRefFrames_ this) (pathDark_ this) (pathReference_ this)
  (numberOfPlanes_ this) (sourceOffset_ this) v (xb_ this) (xc_ this)
  (xd_ this) (xe_ this) (xf_ this) (lowerLimOffset_ this)
  (upperLimOffset_ this) (blockSize2D_ this) (memPoolSize_ this)
  (threshMin_ this) (threshMax_ this) (numberOfProjections_ this).
Definition set_xb (v : Z) (this : members) : members :=
  mkMembers (numberOfDetectors_ this) (numberOfDetectorModules_ this)
  (numberOfRefFrames_ this) (pathDark_ this) (pathReference_ this)
  (numberOfPlanes_ this) (sourceOffset_ this) (xa_ this) v (xc_ this)
  (xd_ this) (xe_ this) (xf_ this) (lowerLimOffset_ this)
  (upperLimOffset_ this) (blockSize2D_ this) (memPoolSize_ this)
  (threshMin_ this) (threshMax_ this) (numberOfProjections_ this).
Definition set_xc (v : Z) (this : members) : members :=
  mkMembers (numberOfDetectors_ this) (numberOfDetectorModules_ this)
  (numberOfRefFrames_ this) (pathDark_ this) (pathReference_ this)
  (numberOfPlanes_ this) (sourceOffset_ this) (xa_ this) (xb_ this) v
  (xd_ this) (xe_ this) (xf_ this) (lowerLimOffset_ this)
  (upperLimOffset_ this) (blockSize2D_ this) (memPoolSize_ this)
  (threshMin_ this) (threshMax_ this) (numberOfProjections_ this).
Definition set_xd (v : Z) (this : members) : members :=
  mkMembers (numberOfDetectors_ this) (numberOfDetectorModules_ this)
  (numberOfRefFrames_ this) (pathDark_ this) (pathReference_ this)
  (numberOfPlanes_ this) (sourceOffset_ this) (xa_ this) (xb_ this)
  (xc_ this) v (xe_ this) (xf_ this) (lowerLimOffset_ this)
  (upperLimOffset_ this) (blockSize2D_ this) (memPoolSize_ this)
  (threshMin_ this) (threshMax_ this) (numberOfProjections_ this).
Definition set_xe (v : Z) (this : members) : members :=
  mkMembers (numberOfDetectors_ this) (numberOfDetectorModules_ this)
  (numberOfRefFrames_ this) (pathDark_ this) (pathReference_ this)
  (numberOfPlanes_ this) (sourceOffset_ this) (xa_ this) (xb_ this)
  (xc_ this) (xd_ this) v (xf_ this) (lowerLimOffset_ this)
  (upperLimOffset_ this) (blockSize2D_ this) (memPoolSize_ this)
  (threshMin_ this) (threshMax_ this) (numberOfProjections_ this).
Definition set_xf (v : Z) (this : members) : members :=
  mkMembers (numberOfDetectors_ this) (numberOfDetectorModules_ this)
  (numberOfRefFrames_ this) (pathDark_ this) (pathReference_ this)
  (numberOfPlanes_ this) (sourceOffset_ this) (xa_ this) (xb_ this)
  (xc_ this) (xd_ this) (xe_ this) v (lowerLimOffset_ this)
  (upperLimOffset_ this) (blockSize2D_ this) (memPoolSize_ this)
  (threshMin_ this) (threshMax_ this) (numberOfProjections_ this).
Definition set_lowerLimOffset (v : Z * Z) (this : members) : members :=
  mkMembers (numberOfDetectors_ this) (numberOfDetectorModules_ this)
  (numberOfRefFrames_ this) (pathDark_ this) (pathReference_ this)
  (numberOfPlanes_ this) (sourceOffset_ this) (xa_ this) (xb_ this)
  (xc_ this) (xd_ this) (xe_ this) (xf_ this) v (upperLimOffset_ this)
  (blockSize2D_ this) (memPoolSize_ this) (threshMin_ this) (threshMax_ this)
  (numberOfProjections_ this).
Definition set_upperLimOffset (v : Z * Z) (this : members) : members :=
  mkMembers (numberOfDetectors_ this) (numberOfDetectorModules_ this)
  (numberOfRefFrames_ this) (pathDark_ this) (pathReference_ this)
  (numberOfPlanes_ this) (sourceOffset_ this) (xa_ this) (xb_ this)
  (xc_ this) (xd_ this) (xe_ this) (xf_ this) (lowerLimOffset_ this) v
  (blockSize2D_ this) (memPoolSize_ this) (threshMin_ this) (threshMax_ this)
  (numberOfProjections_ this).
Definition set_blockSize2D (v : Z) (this : members) : members :=
  mkMembers (numberOfDetectors_ this) (numberOfDetectorModules_ this)
  (numberOfRefFrames_ this) (pathDark_ this) (pathReference_ this)
  (numberOfPlanes_ this) (sourceOffset_ this) (xa_ this) (xb_ this)
  (xc_ this) (xd_ this) (xe_ this) (xf_ this) (lowerLimOffset_ this)
  (upperLimOffset_ this) v (memPoolSize_ this) (threshMin_ this)
  (threshMax_ this) (numberOfProjections_ this).
Definition set_memPoolSize (v : Z) (this : members) : members :=
  mkMembers (numberOfDetectors_ this) (numberOfDetectorModules_ this)
  (numberOfRefFrames_ this) (pathDark_ this) (pathReference_ this)
  (numberOfPlanes_ this) (sourceOffset_ this) (xa_ this) (xb_ this)
  (xc_ this) (xd_ this) (xe_ this) (xf_ this) (lowerLimOffset_ this)
  (upperLimOffset_ this) (blockSize2D_ this) v (threshMin_ this)
  (threshMax_ this) (numberOfProjections_ this).
Definition set_threshMin (v : Z * Z) (this : members) : members :=
  mkMembers (numberOfDetectors_ this) (numberOfDetectorModules_ this)
  (numberOfRefFrames_ this) (pathDark_ this) (pathReference_ this)
  (numberOfPlanes_ this) (sourceOffset_ this) (xa_ this) (xb_ this)
  (xc_ this) (xd_ this) (xe_ this) (xf_ this) (lowerLimOffset_ this)
  (upperLimOffset_ this) (blockSize2D_ this) (memPoolSize_ this) v
  (threshMax_ this) (numberOfProjections_ this).
Definition set_threshMax (v : Z * Z) (this : members) : members :=
  mkMembers (numberOfDetectors_ this) (numberOfDetectorModules_ this)
  (numberOfRefFrames_ this) (pathDark_ this) (pathReference_ this)
  (numberOfPlanes_ this) (sourceOffset_ this) (xa_ this) (xb_ this)
  (xc_ this) (xd_ this) (xe_ this) (xf_ this) (lowerLimOffset_ this)
  (upperLimOffset_ this) (blockSize2D_ this) (memPoolSize_ this)
  (threshMin_ this) v (numberOfProjections_ this).

Definition set_projections (this : members) (n : Z) : members :=
  mkMembers (numberOfDetectors_ this) (numberOfDetectorModules_ this)
    (numberOfRefFrames_ this) (pathDark_ this) (pathReference_ this)
    (numberOfPlanes_ this) (sourceOffset_ this)
    (xa_ this) (xb_ this) (xc_ this) (xd_ this) (xe_ this) (xf_ this)
    (lowerLimOffset_ this) (upperLimOffset_ this) (blockSize2D_ this)
    (memPoolSize_ this) (threshMin_ this) (threshMax_ this) n.

(** The [try] block of [Attenuation::readConfig], its statements in order:
    the members and the locals [sampling_rate] and [scan_rate] at its end,
    or the members at the throw. *)
Definition read_keys (cfg : read_json) (this : members)
    : tried (members * Z * Z) members :=
  assign (get_int cfg "number_of_fan_detectors") set_numberOfDetectors this
    (fun this =>
  assign (get_int cfg "number_of_det_modules") set_numberOfDetectorModules this
    (fun this =>
  assign (get_int cfg "number_of_reference_frames") set_numberOfRefFrames this
    (fun this =>
  assign (get_element_in_list cfg "inputs" "inputpath"
            ("inputtype", "dark")) set_pathDark this
    (fun this =>
  assign (get_element_in_list cfg "inputs" "inputpath"
            ("inputtype", "reference")) set_pathReference this
    (fun this =>
  assign (get_int cfg "number_of_planes") set_numberOfPlanes this
    (fun this =>
  read_local (get_int cfg "sampling_rate") this
    (fun sampling_rate =>
  read_local (get_int cfg "scan_rate") this
    (fun scan_rate =>
  assign (get_real cfg "source_offset") set_sourceOffset this
    (fun this =>
  assign (get_uint cfg "xa") set_xa this
    (fun this =>
  assign (get_uint cfg "xb") set_xb this
    (fun this =>
  assign (get_uint cfg "xc") set_xc this
    (fun this =>
  assign (get_uint cfg "xd") set_xd this
    (fun this =>
  assign (get_uint cfg "xe") set_xe this
    (fun this =>
  assign (get_uint cfg "xf") set_xf this
    (fun this =>
  assign (get_real cfg "lower_lim_offset") set_lowerLimOffset this
    (fun this =>
  assign (get_real cfg "upper_lim_offset") set_upperLimOffset this
    (fun this =>
  assign (get_int cfg "blocksize_2d_attenutation") set_blockSize2D this
    (fun this =>
  assign (get_int cfg "mempoolsize_attenuation") set_memPoolSize this
    (fun this =>
  assign (get_real cfg "thresh_min") set_threshMin this
    (fun this =>
  assign (get_real cfg "thresh_max") set_threshMax this
    (fun this =>
  Done (this, sampling_rate, scan_rate)))))))))))))))))))))).

(** [Attenuation::readConfig]: the handler returns [EXIT_FAILURE]; after
    the block [numberOfProjections_ = sampling_rate * 1000000 / scan_rate]. *)
Definition readConfig (cfg : read_json) (this : members)
    : outcome (bool * members) :=
  match read_keys cfg this with
  | Caught this => Returns (to_bool EXIT_FAILURE, this)
  | Done (this, sampling_rate, scan_rate) =>
      numberOfProjections ← projections sampling_rate scan_rate;
      Returns (to_bool EXIT_SUCCESS, set_projections this numberOfProjections)
  end.

(** [Attenuation::Attenuation(config_file)], the configuration check. *)
Definition constructor (cfg : read_json) (this : members) : outcome members :=
  '(r, this) ← readConfig cfg this;
  throw_if r
    "recoLib::cuda::Attenuation: Configuration file could not be loaded successfully. Please check!"
    this.

End AttenuationConfig.

Module ReceiverConfig.
Import Config.

Record members := mkMembers {
  numberOfDetectors_ : Z;
  bufferSize_ : Z;
  numberOfDetectorModules_ : Z;
  numberOfProjections_ : Z
}.

(** Modelled from the spec: [ConfigReader::lookupValue(key, out)], the keyed
    lookup of the Receiver; it answers whether the value was found. *)
Definition lookupValue (cfg : read_json) (key : string) : option Z :=
  get_int cfg key.

Definition set_numberOfDetectors (v : Z) (this : members) : members :=
  mkMembers v (bufferSize_ this) (numberOfDetectorModules_ this)
    (numberOfProjections_ this).
Definition set_bufferSize (v : Z) (this : members) : members :=
  mkMembers (numberOfDetectors_ this) v (numberOfDetectorModules_ this)
    (numberOfProjections_ this).
Definition set_numberOfDetectorModules (v : Z) (this : members) : members :=
  mkMembers (numberOfDetectors_ this) (bufferSize_ this) v
    (numberOfProjections_ this).
Definition set_numberOfProjections (v : Z) (this : members) : members :=
  mkMembers (numberOfDetectors_ this) (bufferSize_ this)
    (numberOfDetectorModules_ this) v.

(** The condition of [Receiver::readConfig], a conjunction of lookups
    evaluated from the left up to the first that finds nothing; a lookup
    that finds its key writes the member (or local) it was given. *)
Definition read_keys (cfg : read_json) (this : members)
    : tried (members * Z * Z) members :=
  read_local (lookupValue cfg "samplingRate") this (fun samplingRate =>
  assign (lookupValue cfg "numberOfFanDetectors") set_numberOfDetectors this
    (fun this =>
  read_local (lookupValue cfg "scanRate") this (fun scanRate =>
  assign (lookupValue cfg "inputBufferSize") set_bufferSize this
    (fun this =>
  assign (lookupValue cfg "numberOfDetectorModules")
    set_numberOfDetectorModules this
    (fun this =>
  Done (this, samplingRate, scanRate)))))).

(** [Receiver::readConfig]: with every lookup found,
    [numberOfProjections_ = samplingRate * 1000000 / scanRate] and
    [EXIT_SUCCESS]; else [EXIT_FAILURE]. *)
Definition readConfig (cfg : read_json) (this : members)
    : outcome (bool * members) :=
  match read_keys cfg this with
  | Caught this => Returns (to_bool EXIT_FAILURE, this)
  | Done (this, samplingRate, scanRate) =>
      numberOfProjections ← projections samplingRate scanRate;
      Returns (to_bool EXIT_SUCCESS,
               set_numberOfProjections numberOfProjections this)
  end.

(** [Receiver::Receiver(address, configPath)], the configuration check. *)
Definition constructor (cfg : read_json) (this : members) : outcome members :=
  '(r, this) ← readConfig cfg this;
  throw_if r
    "Receiver: Configuration file could not be loaded successfully. Please check!"
    this.

End ReceiverConfig.

(** The stage classes with a constructor that takes a configuration file. *)
Inductive stage_class :=
| StageH2D | StageD2H | StageAttenuation | StageTemplate | StageReceiver.

(** Whether [readConfig] of a stage returns a value that converts to [true]
    (a failure code) on a configuration; [None] when it does not return. *)
Definition readConfig_failed (s : stage_class) (cfg : Config.read_json)
    : option bool :=
  let code {A} (o : outcome (bool * A)) : option bool :=
    match o with Returns (r, _) => Some r | _ => None end in
  match s with
  | StageH2D =>
      code (H2DConfig.readConfig cfg (H2DConfig.mkMembers 0 0 0))
  | StageD2H =>
      code (D2HConfig.readConfig cfg (D2HConfig.mkMembers 0 0))
  | StageAttenuation =>
      code (AttenuationConfig.readConfig cfg
              (AttenuationConfig.mkMembers 0 0 0 "" "" 0 (0, 0) 0 0 0 0 0 0
                 (0, 0) (0, 0) 0 0 (0, 0) (0, 0) 0))
  | StageTemplate =>
      code (TemplateConfig.readConfig cfg (TemplateConfig.mkMembers 0))
  | StageReceiver =>
      code (ReceiverConfig.readConfig cfg (ReceiverConfig.mkMembers 0 0 0 0))
  end.

(** Whether the constructor of a stage throws on a configuration; [None]
    when the configuration check itself does not return. *)
Definition constructor_throws (s : stage_class) (cfg : Config.read_json)
    : option bool :=
  let thrown {A} (o : outcome A) : option bool :=
    match o with
    | Returns _ => Some false
    | Throws _ => Some true
    | _ => None
    end in
  match s with
  | StageH2D =>
      thrown (H2DConfig.constructor cfg (H2DConfig.mkMembers 0 0 0))
  | StageD2H =>
      thrown (D2HConfig.constructor cfg (D2HConfig.mkMembers 0 0))
  | StageAttenuation =>
      thrown (AttenuationConfig.constructor cfg
                (AttenuationConfig.mkMembers 0 0 0 "" "" 0 (0, 0) 0 0 0 0 0 0
                   (0, 0) (0, 0) 0 0 (0, 0) (0, 0) 0))
  | StageTemplate =>
      thrown (TemplateConfig.constructor cfg (TemplateConfig.mkMembers 0))
  | StageReceiver =>
      thrown (ReceiverConfig.constructor cfg (ReceiverConfig.mkMembers 0 0 0 0))
  end.

(** ** Specification predicates and sample data *)

(** Every member the move operations hand over. *)
Definition transferred (src dst : Image) : Prop :=
  data_ dst = data_ src /\ size_ dst = size_ src /\ index_ dst = index_ src
  /\ plane_ dst = plane_ src /\ start_ dst = start_ src
  /\ memoryPoolIndex_ dst = memoryPoolIndex_ src.

(** What the copy constructor is to achieve on [other] in memory [m]: a
    buffer that was not allocated before holds the content of the source
    buffer, which keeps its content, and the source is a valid image. *)
Definition copied_to_fresh_buffer (other : Image) (m : Memory) : Prop :=
  let '(new, m') := Img.Image_copy other m in
  exists src p,
    data_ other = Some src /\ data_ new = Some p
    /\ ~ allocated m p /\ allocated m' p
    /\ deref m' p = deref m src
    /\ deref m' src = deref m src
    /\ Img.valid other = true.

(** An image of three elements in a memory holding its buffer. *)
Definition image_of_three : Image * Memory :=
  let '(p, m) := make_ptr 3 empty_memory in
  (mkImage 3 7 1 (Some p) 0 5 true 0, m).

(** A pool with one registration of two buffers of four elements. *)
Definition pool_of_two : MemoryPool.MemoryPool * Memory :=
  let '(_, pool, m) := MemoryPool.registerStage 2 4 0 [] empty_memory in
  (pool, m).

(** The first buffer of [pool_of_two], as [requestMemory] wraps it. *)
Definition first_of_two : Image := mkImage 4 0 0 (Some 0%nat) 0 0 true 0.

(** A volume of four slices of width two and height three whose elements
    are 0, 1, ..., 23. *)
Definition volume_2_3_4 : Volume * Memory :=
  (mkVolume 2 3 4 (Some 0%nat) true,
   mkMemory 1%nat {[0%nat := seqZ 0 24]}).

(** A configuration with the key the Template stage needs, and one without. *)
Definition config_with_pixels : Config.read_json :=
  {["number_of_pixels" := Config.JInt 256]}.

Definition config_without_pixels : Config.read_json :=
  {["mempoolsize_d2h" := Config.JInt 10]}.

(** A configuration where the key has a value of another type. *)
Definition config_pixels_as_text : Config.read_json :=
  {["number_of_pixels" := Config.JString "many"]}.

(** A valid host image with frame index [idx], as it reaches [H2D::process]. *)
Definition frame (idx : Z) : Image :=
  mkImage 4 idx (idx mod 2) (Some 0%nat) 0 0 true 0.

(** The highest frame index of a stream (0 for the empty stream). *)
Definition highest_index (stream : list Image) : Z :=
  foldr Z.max 0 (Img.index <$> stream).

(** No index is skipped between two images that follow each other. *)
Fixpoint gap_free (stream : list Image) : Prop :=
  match stream with
  | a :: (b :: _) as stream' =>
      Img.index b = Img.index a + 1 /\ gap_free stream'
  | _ => True
  end.

(** The loss accounting as claimed, for the members [st] of H2D after a
    stream that gave the events [evs]. *)
Definition loss_accounted (stream : list Image) (st : H2D.H2D)
    (evs : list event) : Prop :=
  H2D.lostSinos_ st = highest_index stream - Z.of_nat (length evs)
  /\ (gap_free stream -> H2D.lostSinos_ st = 0).

(** Valid images whose indices rise strictly from [last] on, no step
    wider than [2 ^ 31]. *)
Fixpoint ascending_from (last : Z) (stream : list Image) : Prop :=
  match stream with
  | [] => True
  | i :: stream' =>
      Img.valid i = true
      /\ last < Img.index i < 2 ^ 64 /\ Img.index i - last <= 2 ^ 31
      /\ ascending_from (Img.index i) stream'
  end.

(** A valid image with frame index [idx] that device [dev] owns. *)
Definition frame_on_device (dev idx : Z) : Image :=
  Img.setDevice (frame idx) dev.

(** The routing as claimed: the one event of the call is the push of the
    image to the queue of the image's own device. *)
Definition routed_by_device (img : Image) (evs : list event) : Prop :=
  evs = [Push (Img.device img) img].

(** The sentinel protocol on [K] workers: one invalid image to each of the
    queues 0, ..., K-1 and to no other, then the join of each of the K
    threads, then one invalid image to the output queue. *)
Definition sentinel_protocol (K : Z) (evs : list event) : Prop :=
  Img.valid Img.Image_default = false
  /\ evs = ((fun i => Push i Img.Image_default) <$> seqZ 0 K)
           ++ (Join <$> seqZ 0 K) ++ [Output Img.Image_default]
  /\ (forall q, pushed_to q evs
                = if decide (0 <= q < K) then [Img.Image_default] else [])
  /\ joined evs = seqZ 0 K
  /\ outputs evs = [Img.Image_default]
  /\ (forall (queues : gmap Z (list Image)) q,
        enqueue evs queues !! q
        = if decide (0 <= q < K)
          then Some (default [] (queues !! q) ++ [Img.Image_default])
          else queues !! q).

(** The frame a worker output belongs to is the frame of its input: index,
    plane and acquisition start are the same. *)
Definition same_frame (input output : Image) : Prop :=
  Img.index output = Img.index input
  /\ Img.plane output = Img.plane input
  /\ Img.start output = Img.start input.

(** The same but for the index, which [setIdx] narrows to [unsigned int]. *)
Definition same_frame_narrowed (input output : Image) : Prop :=
  Img.index output = Int.to_uint (Img.index input)
  /\ Img.plane output = Img.plane input
  /\ Img.start output = Img.start input.

(** The sinogram [sino] holds, for every detector module, the stripe of
    [width] detectors times the projections of a frame that the ring
    buffer of the module has at slot [k mod bufferSize_]. *)
Definition stitched (width : Z) (r : Receiver.Receiver) (k : Z)
    (sino : list Z) : Prop :=
  forall m, 0 <= m < Receiver.numberOfDetectorModules_ r ->
    exists stripe,
      read_range (default [] (Receiver.buffers_ r !! m))
        (k mod Receiver.bufferSize_ r * width * Receiver.numberOfProjections_ r)
        (width * Receiver.numberOfProjections_ r) = Some stripe
      /\ read_range sino (m * width * Receiver.numberOfProjections_ r)
           (width * Receiver.numberOfProjections_ r) = Some stripe.

(** [numberOfDetectors_ / numberOfDetectorModules_], the width the
    constructor sizes the ring buffers with. *)
Definition detectors_per_module (r : Receiver.Receiver) : Z :=
  Z.quot (Receiver.numberOfDetectors_ r) (Receiver.numberOfDetectorModules_ r).

(** [loadImage] as claimed, for what [fetch()] returned: the sentinel on
    shutdown, else a valid image of frame [k], started now, stitched by
    the configured stripe width. *)
Definition loadImage_as_claimed (r : Receiver.Receiver) (k now : Z)
    (pool : MemoryPool.MemoryPool) (m : Memory) : Prop :=
  match Receiver.loadImage r k now pool m with
  | Returns (img, _, m') =>
      if decide (k = Int.SIZE_MAX) then Img.valid img = false
      else
        Img.valid img = true /\ Img.index img = k /\ Img.start img = now
        /\ exists p, Img.container img = Some p
                     /\ stitched (detectors_per_module r) r k (deref m' p)
  | _ => False
  end.

(** The plane as claimed for a configured number of planes. *)
Definition plane_as_configured (number_of_planes : Z) (img : Image) : Prop :=
  Img.plane img = Img.index img mod number_of_planes.

(** A Receiver of 64 detectors in 2 modules (32 detectors each), one
    projection per frame, a ring of one slot; the ring buffers have the
    size the constructor gives them. *)
Definition receiver_64_2 : Receiver.Receiver :=
  Receiver.mkReceiver 64 2 1 1 {[0 := seqZ 0 32; 1 := seqZ 100 32]} 0.

(** Its pool: buffers of [numberOfDetectors_ * numberOfProjections_]
    elements. *)
Definition receiver_64_2_pool : MemoryPool.MemoryPool * Memory :=
  let '(_, pool, m) := MemoryPool.registerStage 2 64 0 [] empty_memory in
  (pool, m).

(** A Receiver of 32 detectors in 2 modules (16 detectors each), two
    projections per frame, a ring of three slots. *)
Definition receiver_32_2 : Receiver.Receiver :=
  Receiver.mkReceiver 32 2 3 2 {[0 := seqZ 0 96; 1 := seqZ 1000 96]} 0.

Definition receiver_32_2_pool : MemoryPool.MemoryPool * Memory :=
  let '(_, pool, m) := MemoryPool.registerStage 2 64 0 [] empty_memory in
  (pool, m).

(** The first buffer of the Receiver pools above, as [requestMemory] wraps
    it, and the pool it leaves. *)
Definition receiver_sino : Image := mkImage 64 0 0 (Some 0%nat) 0 0 true 0.

Definition receiver_pool_left : MemoryPool.MemoryPool :=
  [[MemoryPool.mkBuffer (Some 1%nat) 64 0]].

(** An image as it leaves the stages H2D, Attenuation and D2H in turn on
    device [deviceID]; [b1], [b2], [b3] are the pooled images the three
    workers were given. *)
Definition pipeline_output (deviceID : Z) (img b1 b2 b3 : Image) : Image :=
  D2H.stamp (Attenuation.stamp deviceID (H2D.stamp deviceID img b1) b2) b3.

(** A device pool with one registration of three buffers per device. *)
Definition device_pool : MemoryPool.MemoryPool * Memory :=
  let '(_, pool, m) := MemoryPool.registerStage 3 4 0 [] empty_memory in
  let '(_, pool, m) := MemoryPool.registerStage 3 4 1 pool m in
  (pool, m).

(** The samples of one stripe as [loadImage] copies it, the start of the
    slot of frame [k] in a ring buffer, and the ring buffer of a module. *)
Definition stripe_samples (r : Receiver.Receiver) : Z :=
  Receiver.numberOfDetectorsPerModule * Receiver.numberOfProjections_ r.

Definition ring_slot (r : Receiver.Receiver) (k : Z) : Z :=
  Int.to_size_t (k mod Int.to_size_t (Receiver.bufferSize_ r)
                 * Receiver.numberOfDetectorsPerModule
                 * Receiver.numberOfProjections_ r).

Definition ring_of (r : Receiver.Receiver) (d : Z) : list Z :=
  default [] (Receiver.buffers_ r !! d).

(** ** Streams through a stage *)

(** [process] of a stage called once for each image of a stream, in order,
    on the members the call before left. *)
Fixpoint process_stream {S : Type}
    (process : Image -> S -> outcome (S * list event))
    (stream : list Image) (st : S) : outcome (S * list event) :=
  match stream with
  | [] => Returns (st, [])
  | img :: stream' =>
      '(st1, evs1) ← process img st;
      '(st2, evs2) ← process_stream process stream' st1;
      mret (st2, evs1 ++ evs2)
  end.

(** The images of a stream that name the device [q], in order. *)
Definition for_device (q : Z) (stream : list Image) : list Image :=
  filter (fun img => Img.device img = q) stream.

(** Frames on two devices. *)
Definition frames_on_two_devices : list Image :=
  [frame_on_device 1 5; frame_on_device 0 6; frame_on_device 1 7].

(** What a stage has done to its queues when a stream and then the
    sentinel went through [process]: every worker queue holds the images
    that name its device, in the order of the stream, and then one invalid
    image; a queue that belongs to no device holds images only; the workers
    were joined in turn and one invalid image went to the output. *)
Definition shut_down_in_order (K : Z) (stream : list Image)
    (evs : list event) : Prop :=
  (forall q, pushed_to q evs
             = for_device q stream
               ++ if decide (0 <= q < K) then [Img.Image_default] else [])
  /\ joined evs = seqZ 0 K
  /\ outputs evs = [Img.Image_default].

(** ** risa::Receiver, the constructor after the configuration check *)

Module ReceiverStage.

(** What the body of the constructor ends in.  [AllocationFails]: a
    container is asked for a number of elements that is negative as an
    [int] and so, converted to [std::size_t], more than it can hold
    ([std::length_error] or [std::bad_alloc] is thrown).  [IntOverflow]:
    the [int] arithmetic of a size overflows. *)
Inductive built (A : Type) :=
| Built (a : A)
| AllocationFails
| IntOverflow.

Arguments Built {A} a.
Arguments AllocationFails {A}.
Arguments IntOverflow {A}.

Definition fits_int (z : Z) : Prop := - 2 ^ 31 <= z < 2 ^ 31.

#[global] Instance fits_int_dec z : Decision (fits_int z).
Proof. unfold fits_int. apply _. Defined.

(** [bufferSize_*(numberOfDetectors_/numberOfDetectorModules_)*numberOfProjections_],
    the size of one ring buffer; it is evaluated inside a loop that runs for
    a number of modules that is not 0. *)
Definition ring_elements (ms : ReceiverConfig.members) : built Z :=
  let q := Z.quot (ReceiverConfig.numberOfDetectors_ ms)
                  (ReceiverConfig.numberOfDetectorModules_ ms) in
  let n := ReceiverConfig.bufferSize_ ms * q
           * ReceiverConfig.numberOfProjections_ ms in
  if decide (fits_int q /\ fits_int (ReceiverConfig.bufferSize_ ms * q)
             /\ fits_int n)
  then if decide (0 <= n) then Built n else AllocationFails
  else IntOverflow.

(** [buffers_.emplace(i, n)]: a key that is there keeps its buffer.
    Receiver.h is not among the sources; [buffers_] is taken as a map from
    the number of the module to its vector of samples, as [loadImage] uses
    it, and the members read from the configuration as [int]. *)
Definition emplace (i : Z) (v : list Z) (buffers : gmap Z (list Z))
    : gmap Z (list Z) :=
  match buffers !! i with
  | Some _ => buffers
  | None => <[i := v]> buffers
  end.

(** [for (auto i = 0u; i < numberOfDetectorModules_; i++) buffers_.emplace(...)]:
    the comparison is made in [unsigned int]. *)
Definition make_buffers (ms : ReceiverConfig.members)
    : built (gmap Z (list Z)) :=
  if decide (Int.to_uint (ReceiverConfig.numberOfDetectorModules_ ms) = 0)
  then Built ∅
  else
    match ring_elements ms with
    | Built n =>
        Built (foldl (fun buffers i =>
                        emplace i (replicate (Z.to_nat n) 0) buffers)
                     ∅
                     (seqZ 0 (Int.to_uint
                                (ReceiverConfig.numberOfDetectorModules_ ms))))
    | AllocationFails => AllocationFails
    | IntOverflow => IntOverflow
    end.

(** The body of [Receiver::Receiver] from the first loop on, for the members
    [readConfig] has set: the ring buffers, [modules_.reserve] (which refuses
    a negative number of modules) and the registration of 100 buffers of
    [numberOfDetectors_*numberOfProjections_] elements with the pool.  The
    receiver modules and their threads, which fill the ring buffers, are not
    among the sources. *)
Definition constructor_body (ms : ReceiverConfig.members)
    (pool : MemoryPool.MemoryPool) (m : Memory)
    : built (Receiver.Receiver * MemoryPool.MemoryPool * Memory) :=
  match make_buffers ms with
  | Built buffers =>
      let elements := ReceiverConfig.numberOfDetectors_ ms
                      * ReceiverConfig.numberOfProjections_ ms in
      if decide (ReceiverConfig.numberOfDetectorModules_ ms < 0)
      then AllocationFails
      else if decide (fits_int elements) then
        if decide (0 <= elements) then
          let '(idx, pool', m') :=
            MemoryPool.registerStage 100 elements 0 pool m in
          Built (Receiver.mkReceiver
                   (ReceiverConfig.numberOfDetectors_ ms)
                   (ReceiverConfig.numberOfDetectorModules_ ms)
                   (ReceiverConfig.bufferSize_ ms)
                   (ReceiverConfig.numberOfProjections_ ms)
                   buffers idx,
                 pool', m')
        else AllocationFails
      else IntOverflow
  | AllocationFails => AllocationFails
  | IntOverflow => IntOverflow
  end.

End ReceiverStage.

(** Members as [readConfig] sets them for 64 detectors in 2 modules, a ring
    of 3 slots and 2 projections, and for 16 detectors in 2 modules. *)
Definition members_64_2 : ReceiverConfig.members :=
  ReceiverConfig.mkMembers 64 3 2 2.

Definition members_16_2 : ReceiverConfig.members :=
  ReceiverConfig.mkMembers 16 3 2 2.

(** [r'] is the Receiver [r] after the receiver modules have written to
    the ring buffers: the members are the same and every ring buffer has
    the length it had. *)
Definition rings_filled (r r' : Receiver.Receiver) : Prop :=
  Receiver.numberOfDetectors_ r' = Receiver.numberOfDetectors_ r
  /\ Receiver.numberOfDetectorModules_ r' = Receiver.numberOfDetectorModules_ r
  /\ Receiver.bufferSize_ r' = Receiver.bufferSize_ r
  /\ Receiver.numberOfProjections_ r' = Receiver.numberOfProjections_ r
  /\ Receiver.memoryPoolIndex_ r' = Receiver.memoryPoolIndex_ r
  /\ forall d, length (default [] (Receiver.buffers_ r' !! d))
               = length (default [] (Receiver.buffers_ r !! d)).

(** A configuration of H2D with a scan rate of 0, with the keys of the
    Receiver beside those of H2D. *)
Definition config_scan_rate_0 : Config.read_json :=
  {["number_of_fan_detectors" := Config.JInt 432;
    "mempoolsize_h2d" := Config.JInt 10;
    "sampling_rate" := Config.JInt 1;
    "scan_rate" := Config.JInt 0;
    "samplingRate" := Config.JInt 1;
    "numberOfFanDetectors" := Config.JInt 432;
    "scanRate" := Config.JInt 0;
    "inputBufferSize" := Config.JInt 1000;
    "numberOfDetectorModules" := Config.JInt 27]}.

(** A configuration of 64 detectors that spells the block size key of the
    Attenuation stage [blocksize_2d_attenuation]. *)
Definition config_blocksize_spelt_out : Config.read_json :=
  {["number_of_fan_detectors" := Config.JInt 64;
    "blocksize_2d_attenuation" := Config.JInt 16]}.

(** The keys [Attenuation::readConfig] asks the configuration for, as the
    source spells them. *)
Definition attenuation_keys : list string :=
  ["number_of_fan_detectors"; "number_of_det_modules";
   "number_of_reference_frames"; "inputs"; "number_of_planes";
   "sampling_rate"; "scan_rate"; "source_offset";
   "xa"; "xb"; "xc"; "xd"; "xe"; "xf";
   "lower_lim_offset"; "upper_lim_offset"; "blocksize_2d_attenutation";
   "mempoolsize_attenuation"; "thresh_min"; "thresh_max"].

(** ** glados::loaders::HIS *)

Module HIS.

(** [enum class Datatype : std::int32_t]. *)
Definition tn_not_implemented : Z := -1.
Definition tn_unsigned_char : Z := 2.
Definition tn_unsigned_short : Z := 4.
Definition tn_dword : Z := 32.
Definition tn_double : Z := 64.
Definition tn_float : Z := 128.

(** [dest[k] = v]; there is no element [k] outside the buffer. *)
Definition store (dest : list Z) (k v : Z) : option (list Z) :=
  if decide (0 <= k < Z.of_nat (length dest))
  then Some (<[Z.to_nat k := v]> dest)
  else None.

(** [for (auto i = 0u; i < width; ++i) dest[i + j * width] = Wanted(buf[i + j * width]);]
    [i], [j] and [width] are [unsigned int] and so is the index. *)
Fixpoint readRow (Wanted : Z -> Z) (buf : list Z) (width j : Z)
    (columns : list Z) (dest : list Z) : option (list Z) :=
  match columns with
  | [] => Some dest
  | i :: columns' =>
      let k := Int.to_uint (i + j * width) in
      v ← buf !! Z.to_nat k;
      dest' ← store dest k (Wanted v);
      readRow Wanted buf width j columns' dest'
  end.

(** [for (auto j = 0u; j < height; ++j) ...] *)
Fixpoint readRows (Wanted : Z -> Z) (buf : list Z) (width : Z)
    (rows : list Z) (dest : list Z) : option (list Z) :=
  match rows with
  | [] => Some dest
  | j :: rows' =>
      dest' ← readRow Wanted buf width j (seqZ 0 width) dest;
      readRows Wanted buf width rows' dest'
  end.

(** [readBuffer<Wanted, Actual>(dest, buf, width, height)]; [Wanted] is the
    conversion of an element, the identity when the two types are the
    same. *)
Definition readBuffer (Wanted : Z -> Z) (dest buf : list Z)
    (width height : Z) : option (list Z) :=
  readRows Wanted buf width (seqZ 0 height) dest.

(** [HIS::loadImage(path, index)] from [// read image data] on, for the
    [width] and [height] computed from the header (both [unsigned int]) and
    the type of numbers the header names.  [buffer] is what [readEntry] has
    put into the buffer of [width * height] elements of the file; [Wanted]
    is the conversion of an element of the file to [value_type].  The last
    line passes [width, height, index, img_buffer] to
    [Image(size, idx, planeID, img_data)].  The header checks before need
    HISHeader.h, which is not among the sources. *)
Definition loadImage (Wanted : Z -> Z) (type_of_numbers width height : Z)
    (index : Z) (buffer : list Z) (m : Memory) : outcome (Image * Memory) :=
  let '(img_buffer, m1) := Vol.make_ptr_2D width height m in
  if decide (type_of_numbers ∈ [tn_unsigned_char; tn_unsigned_short;
                                tn_dword; tn_double; tn_float])
  then
    match readBuffer Wanted (deref m1 img_buffer) buffer width height with
    | None => Undefined
    | Some content =>
        let m2 := mkMemory (next_free m1)
                           (<[img_buffer := content]> (cells m1)) in
        Returns (Img.Image_new width height index (Some img_buffer) m2)
    end
  else Returns (Img.Image_default, m1).

End HIS.

(** The frames of a stream in the order a stage with [K] workers publishes
    them when each worker runs as it is joined: those of device 0 first,
    then those of device 1, and so on. *)
Definition frames_by_device (K : Z) (stream : list Image) : list Image :=
  concat ((fun t => for_device t stream) <$> seqZ 0 K).

(** A host pool with one registration of four buffers. *)
Definition pool_of_four : MemoryPool.MemoryPool * Memory :=
  let '(_, pool, m) := MemoryPool.registerStage 4 4 0 [] empty_memory in
  (pool, m).

(** ** risa::cuda::H2D, constructor and destructor *)

Module H2DStage.

(** The loop of the constructor over the devices:
    [cudaSetDevice(i); memoryPoolIdxs_[i] = registerStage(memPoolSize_,
    numberOfDetectors_ * numberOfProjections_);] *)
Fixpoint register_devices (devices : list Z) (count elements : Z)
    (idxs : gmap Z Z) (pool : MemoryPool.MemoryPool) (m : Memory)
    : gmap Z Z * MemoryPool.MemoryPool * Memory :=
  match devices with
  | [] => (idxs, pool, m)
  | i :: devices' =>
      let '(idx, pool', m') :=
        MemoryPool.registerStage count elements i pool m in
      register_devices devices' count elements (<[i := idx]> idxs) pool' m'
  end.

(** [H2D::H2D] after the configuration check, for the members [readConfig]
    has set and the number of devices [cudaGetDeviceCount] reports.  The
    product of the sizes is computed in [int]; the streams and the worker
    threads are left to the stage model. *)
Definition constructor_body (ms : H2DConfig.members) (numberOfDevices : Z)
    (pool : MemoryPool.MemoryPool) (m : Memory)
    : outcome (H2D.H2D * MemoryPool.MemoryPool * Memory) :=
  let elements := H2DConfig.numberOfDetectors_ ms
                  * H2DConfig.numberOfProjections_ ms in
  if decide (numberOfDevices <= 0) then
    Returns (H2D.init numberOfDevices ∅, pool, m)
  else if decide (- 2 ^ 31 <= elements < 2 ^ 31) then
    let '(idxs, pool', m') :=
      register_devices (seqZ 0 numberOfDevices) (H2DConfig.memPoolSize_ ms)
        elements ∅ pool m in
    Returns (H2D.init numberOfDevices idxs, pool', m')
  else Undefined.


End H2DStage.


(** ** risa::cuda::Attenuation, the averages of [init] *)

Module AttenuationInit.

(** [for (auto i = 0; i < n; i++) body(i)] on a state; [None] when an
    iteration leaves defined behaviour. *)
Fixpoint for_each {St : Type} (range : list Z) (body : Z -> St -> option St)
    (s : St) : option St :=
  match range with
  | [] => Some s
  | i :: range' => s' ← body i s; for_each range' body s'
  end.

(** [v[k]] for an [int] index: there is no element at a negative index,
    past the end, or at an index whose computation overflows. *)
Definition at_index {A : Type} (v : list A) (k : Z) : option A :=
  if decide (0 <= k < 2 ^ 31) then v !! Z.to_nat k else None.

(** [v[k] = x]. *)
Definition set_index {A : Type} (v : list A) (k : Z) (x : A)
    : option (list A) :=
  if decide (0 <= k < 2 ^ 31 /\ k < Z.of_nat (length v))
  then Some (<[Z.to_nat k := x]> v)
  else None.

(** [v.resize(n, x)]. *)
Definition resize {A : Type} (v : list A) (n : Z) (x : A) : list A :=
  take (Z.to_nat n) v ++ replicate (Z.to_nat n - length v) x.

Section Arithmetic.

(** The arithmetic of [float]: the value 0.0, [+], [*], the conversion of
    a sample, the test [> 300.0] and [0.5 * (a + b)]. *)
Context {F : Type}.
Variable zero : F.
Variables add mul : F -> F -> F.
Variable of_value : Z -> F.
Variable exceeds_300 : F -> bool.
Variable mean : F -> F -> F.

(** [Attenuation::computeDarkAverage(values, average)].  The factor
    [1.0 / (numberOfDarkFrames_ * numberOfProjections_)] is overwritten by
    [factor = 0.0] before the loops. *)
Definition computeDarkAverage
    (numberOfDarkFrames numberOfPlanes numberOfDetectors
     numberOfProjections : Z)
    (values : list Z) (average : list F) : option (list F) :=
  let average := resize average (numberOfDetectors * numberOfPlanes) zero in
  let factor := zero in
  for_each (seqZ 0 numberOfDarkFrames) (fun i average =>
    for_each (seqZ 0 numberOfPlanes) (fun planeInd average =>
      for_each (seqZ 0 numberOfDetectors) (fun detInd average =>
        for_each (seqZ 0 numberOfProjections) (fun projInd average =>
          val ← at_index values
                  (detInd + numberOfDetectors * projInd
                   + (i * numberOfPlanes + planeInd)
                     * numberOfDetectors * numberOfProjections);
          old ← at_index average (detInd + planeInd * numberOfDetectors);
          set_index average (detInd + planeInd * numberOfDetectors)
                    (add old (mul (of_value val) factor)))
        average) average) average) average.

(** The last loops of [Attenuation::init]: a dark average above 300 is
    replaced by the mean of its neighbours,
    [avgDark_[nd * j + (i + 1) % nd]] and [avgDark_[nd * j + (i - 1) % nd]]. *)
Definition interpolate_dark (numberOfPlanes numberOfDetectors : Z)
    (avgDark : list F) : option (list F) :=
  for_each (seqZ 0 numberOfPlanes) (fun j avgDark =>
    for_each (seqZ 0 numberOfDetectors) (fun i avgDark =>
      here ← at_index avgDark (i + j * numberOfDetectors);
      if exceeds_300 here then
        next ← at_index avgDark
                 (numberOfDetectors * j + Z.rem (i + 1) numberOfDetectors);
        prev ← at_index avgDark
                 (numberOfDetectors * j + Z.rem (i - 1) numberOfDetectors);
        set_index avgDark (numberOfDetectors * j + i) (mean next prev)
      else Some avgDark)
    avgDark) avgDark.

(** [1.0 / (float) n]. *)
Variable reciprocal : Z -> F.

(** [Attenuation::computeAverage(values, average)]. *)
Definition computeAverage
    (numberOfRefFrames numberOfPlanes numberOfDetectors
     numberOfProjections : Z)
    (values : list Z) (average : list F) : option (list F) :=
  let average :=
    resize average (numberOfProjections * numberOfDetectors * numberOfPlanes)
           zero in
  let factor := reciprocal numberOfRefFrames in
  for_each (seqZ 0 numberOfRefFrames) (fun i average =>
    for_each (seqZ 0 numberOfPlanes) (fun planeInd average =>
      for_each (seqZ 0 (numberOfDetectors * numberOfProjections))
        (fun index average =>
          val ← at_index values
                  ((i + planeInd) * numberOfProjections * numberOfDetectors
                   + index);
          old ← at_index average
                  (index
                   + planeInd * numberOfDetectors * numberOfProjections);
          set_index average
            (index + planeInd * numberOfDetectors * numberOfProjections)
            (add old (mul (of_value val) factor)))
        average) average) average.

End Arithmetic.

(** The sum [computeAverage] builds in one cell: over the frames in turn,
    the sample [offset i] of frame [i] times the factor. *)
Definition accumulated {F : Type} (zero : F) (add mul : F -> F -> F)
    (of_value : Z -> F) (factor : F) (values : list Z)
    (numberOfRefFrames : Z) (offset : Z -> Z) : F :=
  foldl (fun acc i =>
           add acc (mul (of_value (values !!! Z.to_nat (offset i))) factor))
        zero (seqZ 0 numberOfRefFrames).

(** An [int] expression that is assigned to an [unsigned int] index: its
    value when it does not overflow. *)
Definition int_index (z : Z) : option Z :=
  if decide (- 2 ^ 31 <= z < 2 ^ 31) then Some (Int.to_uint z) else None.

(** [Attenuation::readInput(path, values, numberOfFrames)] from
    [int numberOfDetPerModule = ...] on: the sorting of what the files of
    the detector modules held, [fileContents], into [values], which the
    caller passes empty.  The reading of the files before is left out; it
    builds a vector of [numberOfDetectorModules_] file contents, and the
    division needs a number of modules that is not 0. *)
Definition readInput
    (numberOfDetectorModules numberOfDetectors numberOfPlanes
     numberOfProjections numberOfFrames : Z)
    (fileContents : list (list Z)) : option (list Z) :=
  if decide (numberOfDetectorModules <= 0) then None
  else
    let numberOfDetPerModule :=
      Z.quot numberOfDetectors numberOfDetectorModules in
    first ← fileContents !! 0%nat;
    let values :=
      resize [] (Z.of_nat (length first) * numberOfDetectorModules) 0 in
    for_each (seqZ 0 numberOfFrames) (fun i values =>
      for_each (seqZ 0 numberOfPlanes) (fun planeInd values =>
        for_each (seqZ 0 numberOfProjections) (fun projInd values =>
          for_each (seqZ 0 numberOfDetectorModules) (fun detModInd values =>
            startIndex ←
              int_index (projInd * numberOfDetPerModule
                         + (planeInd + i * numberOfPlanes)
                           * numberOfDetPerModule * numberOfProjections);
            indexSorted ←
              int_index (detModInd * numberOfDetPerModule
                         + projInd * numberOfDetectors
                         + (planeInd + i * numberOfPlanes)
                           * numberOfDetectors * numberOfProjections);
            content ← at_index fileContents detModInd;
            chunk ← read_range content startIndex numberOfDetPerModule;
            write_range values indexSorted chunk)
          values) values) values) values.

(** What frame [i] adds to the averages in [computeAverage]: cell [k] gets
    the sample [i * nd * P + k] times the factor. *)
Definition add_frame {F : Type} (add mul : F -> F -> F) (of_value : Z -> F)
    (factor : F) (values : list Z) (nd P : Z) (i : Z) (average : list F)
    : list F :=
  imap (fun k old =>
          add old (mul (of_value (values !!! Z.to_nat (i * (nd * P)
                                                       + Z.of_nat k)))
                       factor))
       average.

End AttenuationInit.

(** A loop has written inside the window [lo, hi) of a buffer only. *)
Definition unchanged_outside (lo hi : Z) (before after : list Z) : Prop :=
  length after = length before
  /\ forall pos : nat,
       Z.of_nat pos < lo \/ hi <= Z.of_nat pos ->
       after !! pos = before !! pos.

(** The files of two detector modules of two detectors each, with one frame
    of two planes and two projections. *)
Definition two_module_files : list (list Z) :=
  [seqZ 100 8; seqZ 200 8].

(** Every free buffer of the registration [idx] has [elements] elements. *)
Definition pool_sized (idx elements : Z) (pool : MemoryPool.MemoryPool)
    (m : Memory) : Prop :=
  Forall (fun b => exists p,
            MemoryPool.buf_ptr b = Some p
            /\ Z.of_nat (length (deref m p)) = elements)
         (default [] (pool !! Z.to_nat idx)).

(** A Receiver whose buffers have room for [loadImage]: the ring buffer of
    every module holds [bufferSize_] slots of 16 detectors, and the free
    buffers of its registration hold [numberOfDetectors_ *
    numberOfProjections_] elements, which is room for the stripes of all
    modules. *)
Definition receiver_ready (r : Receiver.Receiver)
    (pool : MemoryPool.MemoryPool) (m : Memory) : Prop :=
  0 < Receiver.bufferSize_ r < 2 ^ 64
  /\ 0 <= Receiver.numberOfProjections_ r
  /\ Receiver.bufferSize_ r * 16 * Receiver.numberOfProjections_ r < 2 ^ 64
  /\ Receiver.numberOfDetectorModules_ r * 16 * Receiver.numberOfProjections_ r
     <= Receiver.numberOfDetectors_ r * Receiver.numberOfProjections_ r
  /\ (forall d, 0 <= d < Receiver.numberOfDetectorModules_ r ->
        Receiver.bufferSize_ r * 16 * Receiver.numberOfProjections_ r
        <= Z.of_nat (length (default [] (Receiver.buffers_ r !! d))))
  /\ pool_sized (Receiver.memoryPoolIndex_ r)
       (Receiver.numberOfDetectors_ r * Receiver.numberOfProjections_ r)
       pool m.





(** The Images an event carries satisfy [P]. *)
Definition event_images (P : Image -> Prop) (ev : event) : Prop :=
  match ev with
  | Push _ img => P img
  | Join _ => True
  | Output img => P img
  end.

(** The Images a stage holds, in its worker queues and in its output
    queue, satisfy [P]. *)
Definition held_images (P : Image -> Prop) (s : stage_run) : Prop :=
  (forall q imgs, queues s !! q = Some imgs -> Forall P imgs)
  /\ Forall P (results s).

(** A stage keeps [P]: [process], called on Images that satisfy [P],
    pushes Images that satisfy [P]; a worker on a queue of such Images
    publishes such Images and leaves such Images in the queue, whatever
    the pools; and when the stage holds such Images before the events of
    [process] and the workers have run, it holds such Images after. *)
Definition stage_keeps {S : Type} (P : Image -> Prop)
    (process : Image -> S -> outcome (S * list event))
    (processor : Z -> list Image -> MemoryPool.MemoryPool ->
                 MemoryPool.MemoryPool -> worker_result) : Prop :=
  (forall stream st st' evs,
      Forall P stream ->
      process_stream process stream st = Returns (st', evs) ->
      Forall (event_images P) evs)
  /\ (forall deviceID queue pin pout,
        Forall P queue ->
        Forall P (published (processor deviceID queue pin pout))
        /\ Forall P (queue_left (processor deviceID queue pin pout)))
  /\ (forall evs s s',
        Forall (event_images P) evs ->
        held_images P s ->
        run_events processor evs s = Returns s' ->
        held_images P s').

(** * Properties *)

(** ** Machine integers *)

Lemma to_size_t_small z : 0 <= z < 2 ^ 64 -> Int.to_size_t z = z.
Proof. intros H. unfold Int.to_size_t, Int.size_t_bits. now apply Z.mod_small. Qed.

Lemma to_uint_small z : 0 <= z < 2 ^ 32 -> Int.to_uint z = z.
Proof. intros H. unfold Int.to_uint, Int.int_bits. now apply Z.mod_small. Qed.

Lemma to_int_small z : - 2 ^ 31 <= z < 2 ^ 31 -> Int.to_int z = z.
Proof.
  intros H. unfold Int.to_int, Int.int_bits.
  change (32 - 1) with 31.
  rewrite Z.mod_small; lia.
Qed.

Lemma to_uint_range z : 0 <= Int.to_uint z < 2 ^ 32.
Proof. unfold Int.to_uint, Int.int_bits. apply Z.mod_pos_bound. lia. Qed.

Lemma to_size_t_range z : 0 <= Int.to_size_t z < 2 ^ 64.
Proof. unfold Int.to_size_t, Int.size_t_bits. apply Z.mod_pos_bound. lia. Qed.

(** Narrowing to [int] only looks at the low 32 bits. *)
Lemma to_int_to_size_t z : Int.to_int (Int.to_size_t z) = Int.to_int z.
Proof.
  unfold Int.to_int, Int.to_size_t, Int.int_bits, Int.size_t_bits.
  change (32 - 1) with 31. f_equal.
  rewrite <- (Zplus_mod_idemp_l (z mod _)).
  rewrite Z.mod_mod_divide.
  - now rewrite Zplus_mod_idemp_l.
  - exists (2 ^ 32). reflexivity.
Qed.

Lemma to_uint_mod_2 z : Int.to_uint z mod 2 = z mod 2.
Proof.
  unfold Int.to_uint, Int.int_bits.
  apply Z.mod_mod_divide. exists (2 ^ 31). reflexivity.
Qed.

(** ** Memory *)

Lemma make_ptr_fresh size m :
  ~ allocated m (make_ptr size m).1 /\ allocated (make_ptr size m).2 (make_ptr size m).1.
Proof. unfold allocated, make_ptr; simpl. lia. Qed.

Lemma deref_make_ptr_new size m :
  deref (make_ptr size m).2 (make_ptr size m).1 = replicate (Z.to_nat size) 0.
Proof. unfold deref, make_ptr; simpl. now rewrite lookup_insert_eq. Qed.

Lemma deref_make_ptr_old size m q :
  allocated m q -> deref (make_ptr size m).2 q = deref m q.
Proof.
  unfold allocated, deref, make_ptr; simpl. intros Hq.
  rewrite lookup_insert_ne by lia. reflexivity.
Qed.

Lemma overwrite_all (dst src : list Z) :
  length dst = length src -> overwrite dst src = src.
Proof.
  intros H. unfold overwrite. rewrite drop_ge by lia. apply app_nil_r.
Qed.

(** ** The Image handle: move and copy *)

Lemma image_move_eq other : (Img.Image_move other).1 = other.
Proof. now destruct other. Qed.

Lemma image_move_transfers other :
  transferred other (Img.Image_move other).1
  /\ Img.valid (Img.Image_move other).2 = false.
Proof. unfold transferred; simpl. tauto. Qed.

Lemma image_move_assign_transfers this rhs :
  transferred rhs (Img.Image_move_assign this rhs).1
  /\ Img.valid (Img.Image_move_assign this rhs).2 = false.
Proof. unfold transferred; simpl. tauto. Qed.

Lemma image_copy_fresh other m src :
  Img.valid other = true ->
  data_ other = Some src ->
  allocated m src ->
  length (deref m src) = Z.to_nat (size_ other) ->
  copied_to_fresh_buffer other m.
Proof.
  intros Hv Hd Ha Hl. unfold copied_to_fresh_buffer, Img.Image_copy.
  rewrite Hd. simpl.
  exists src, (next_free m). repeat split; try reflexivity.
  - unfold allocated. lia.
  - unfold allocated; simpl. lia.
  - unfold allocated in Ha.
    unfold copy, deref; simpl. rewrite lookup_insert_eq; simpl.
    rewrite lookup_insert_eq; simpl.
    rewrite lookup_insert_ne by lia.
    fold (deref m src). rewrite overwrite_all.
    + apply take_ge. lia.
    + rewrite length_replicate, length_take. lia.
  - unfold allocated in Ha.
    unfold copy, deref; simpl.
    rewrite !lookup_insert_ne by lia. reflexivity.
  - exact Hv.
Qed.

(** Copy construction of an Image whose buffer pointer is null. *)
Lemma image_copy_null other m :
  data_ other = None ->
  data_ (Img.Image_copy other m).1 = None /\ (Img.Image_copy other m).2 = m.
Proof. unfold Img.Image_copy. intros ->. now split. Qed.

(** C8 (as amended).  Move construction and move assignment hand the buffer
    pointer and the size, index, plane, timestamp and pool index over to the
    destination and leave the source with [valid() == false], for every
    Image [moved].  Copy construction of a valid Image [other] that holds a
    buffer of [size_] elements allocates a fresh buffer, copies the content
    into it and leaves the source and its buffer as they were.  Copy
    construction of any Image whose buffer pointer is null allocates
    nothing (the memory is as before) and yields an Image without a
    buffer; the sentinel and every moved-from Image are such Images. *)
Theorem image_move_transfers_copy_allocates
    (moved this other : Image) (m : Memory) (src : addr) :
  Img.valid other = true ->
  data_ other = Some src ->
  allocated m src ->
  length (deref m src) = Z.to_nat (size_ other) ->
  (transferred moved (Img.Image_move moved).1
   /\ Img.valid (Img.Image_move moved).2 = false)
  /\ (transferred moved (Img.Image_move_assign this moved).1
      /\ Img.valid (Img.Image_move_assign this moved).2 = false)
  /\ copied_to_fresh_buffer other m
  /\ (forall (nobuf : Image) (m0 : Memory),
        data_ nobuf = None ->
        data_ (Img.Image_copy nobuf m0).1 = None
        /\ (Img.Image_copy nobuf m0).2 = m0)
  /\ data_ Img.Image_default = None
  /\ data_ (Img.Image_move moved).2 = None
  /\ data_ (Img.Image_move_assign this moved).2 = None.
Proof.
  intros Hv Hd Ha Hl. split; [|split; [|split; [|split]]].
  - apply image_move_transfers.
  - apply image_move_assign_transfers.
  - now apply image_copy_fresh with src.
  - intros nobuf m0. apply image_copy_null.
  - repeat split.
Qed.

Lemma image_move_transfers_copy_allocates_witness :
  (transferred image_of_three.1 (Img.Image_move image_of_three.1).1
   /\ Img.valid (Img.Image_move image_of_three.1).2 = false)
  /\ (transferred image_of_three.1
        (Img.Image_move_assign Img.Image_default image_of_three.1).1
      /\ Img.valid
           (Img.Image_move_assign Img.Image_default image_of_three.1).2
         = false)
  /\ copied_to_fresh_buffer image_of_three.1 image_of_three.2
  /\ (forall (nobuf : Image) (m0 : Memory),
        data_ nobuf = None ->
        data_ (Img.Image_copy nobuf m0).1 = None
        /\ (Img.Image_copy nobuf m0).2 = m0)
  /\ data_ Img.Image_default = None
  /\ data_ (Img.Image_move image_of_three.1).2 = None
  /\ data_ (Img.Image_move_assign Img.Image_default image_of_three.1).2
     = None.
Proof.
  apply (image_move_transfers_copy_allocates
           image_of_three.1 Img.Image_default image_of_three.1
           image_of_three.2 0%nat).
  - reflexivity.
  - reflexivity.
  - unfold allocated; simpl. lia.
  - reflexivity.
Defined.

(** C8 (as stated) fails on the sentinel: copying an Image without a buffer
    allocates nothing, the copy holds no buffer and the memory is as
    before; nor is the source valid. *)
Lemma image_copy_of_sentinel_allocates_nothing :
  data_ (Img.Image_copy Img.Image_default empty_memory).1 = None
  /\ (Img.Image_copy Img.Image_default empty_memory).2 = empty_memory
  /\ ~ copied_to_fresh_buffer Img.Image_default empty_memory.
Proof.
  split; [reflexivity | split; [reflexivity |]].
  unfold copied_to_fresh_buffer; simpl.
  intros (src & p & H & _). discriminate H.
Qed.

(** ** The memory pool and the Image destructor *)

(** Returning right after the request puts the pool back as it was. *)
Lemma request_return_roundtrip idx pool img pool' :
  MemoryPool.requestMemory idx pool = Returns (img, pool') ->
  MemoryPool.returnMemory img pool' = pool.
Proof.
  unfold MemoryPool.requestMemory, MemoryPool.returnMemory.
  destruct (pool !! Z.to_nat idx) as [[|b free]|] eqn:E; try discriminate.
  intros [= <- <-]; simpl.
  destruct b as [p n d]; simpl.
  apply list_eq; intros i.
  destruct (decide (i = Z.to_nat idx)) as [->|Hne].
  - rewrite list_lookup_alter_eq, list_lookup_insert_eq, E; [reflexivity|].
    now apply lookup_lt_Some in E.
  - rewrite list_lookup_alter_ne, list_lookup_insert_ne by congruence.
    reflexivity.
Qed.

Lemma request_gives_valid idx pool img pool' :
  MemoryPool.requestMemory idx pool = Returns (img, pool') ->
  Img.valid img = true /\ Img.memoryPoolIndex img = idx
  /\ S (MemoryPool.free_count idx pool') = MemoryPool.free_count idx pool.
Proof.
  unfold MemoryPool.requestMemory, MemoryPool.free_count.
  destruct (pool !! Z.to_nat idx) as [[|b free]|] eqn:E; try discriminate.
  intros [= <- <-]; simpl. repeat split.
  rewrite list_lookup_insert_eq; [reflexivity|].
  now apply lookup_lt_Some in E.
Qed.

Lemma dtor_invalid img pool :
  Img.valid img = false -> Image_dtor img pool = pool.
Proof. unfold Image_dtor, Img.valid. now intros ->. Qed.

Lemma dtor_valid img pool :
  Img.valid img = true -> Image_dtor img pool = MemoryPool.returnMemory img pool.
Proof. unfold Image_dtor, Img.valid. now intros ->. Qed.

(** [returnMemory] is seen on the free list of a registration that exists. *)
Lemma return_grows img pool :
  (Z.to_nat (Img.memoryPoolIndex img) < length pool)%nat ->
  MemoryPool.free_count (Img.memoryPoolIndex img)
    (MemoryPool.returnMemory img pool)
  = S (MemoryPool.free_count (Img.memoryPoolIndex img) pool).
Proof.
  unfold MemoryPool.returnMemory, MemoryPool.free_count, Img.memoryPoolIndex.
  intros Hlt. rewrite list_lookup_alter_eq.
  destruct (lookup_lt_is_Some_2 _ _ Hlt) as [l ->]. reflexivity.
Qed.

(** C7.  After [requestMemory] the destruction of the returned Image puts
    the free-buffer count of the registration back to its value before the
    request (the pool is as it was).  The destructor of any Image [other]
    calls [returnMemory] when the Image is valid and only then: the free
    list of the registration the Image names grows by one buffer when the
    Image is valid, and the destruction of an invalid Image leaves the pool
    as it is. *)
Theorem request_then_destroy_restores_pool
    (idx : Z) (pool pool' p : MemoryPool.MemoryPool) (img other : Image) :
  MemoryPool.requestMemory idx pool = Returns (img, pool') ->
  (Z.to_nat (Img.memoryPoolIndex other) < length p)%nat ->
  (Img.valid img = true
   /\ S (MemoryPool.free_count idx pool') = MemoryPool.free_count idx pool
   /\ MemoryPool.free_count idx (Image_dtor img pool')
      = MemoryPool.free_count idx pool
   /\ Image_dtor img pool' = pool)
  /\ Image_dtor other p
     = (if Img.valid other then MemoryPool.returnMemory other p else p)
  /\ MemoryPool.free_count (Img.memoryPoolIndex other) (Image_dtor other p)
     = (MemoryPool.free_count (Img.memoryPoolIndex other) p
        + (if Img.valid other then 1 else 0))%nat
  /\ Image_dtor (Img.invalid other) p = p.
Proof.
  intros Hreq Hreg.
  destruct (request_gives_valid _ _ _ _ Hreq) as (Hv & Hidx & Hcount).
  assert (Hback : Image_dtor img pool' = pool).
  { rewrite dtor_valid by exact Hv. now apply request_return_roundtrip with idx. }
  split; [|split; [|split]].
  - repeat split; try assumption. now rewrite Hback.
  - reflexivity.
  - destruct (Img.valid other) eqn:Hother.
    + rewrite dtor_valid, return_grows by assumption. lia.
    + rewrite dtor_invalid by assumption. lia.
  - now apply dtor_invalid.
Qed.

Lemma request_then_destroy_restores_pool_witness :
  (Img.valid first_of_two = true
   /\ S (MemoryPool.free_count 0 [[MemoryPool.mkBuffer (Some 1%nat) 4 0]])
      = MemoryPool.free_count 0 pool_of_two.1
   /\ MemoryPool.free_count 0
        (Image_dtor first_of_two [[MemoryPool.mkBuffer (Some 1%nat) 4 0]])
      = MemoryPool.free_count 0 pool_of_two.1
   /\ Image_dtor first_of_two [[MemoryPool.mkBuffer (Some 1%nat) 4 0]]
      = pool_of_two.1)
  /\ Image_dtor (frame 3) pool_of_two.1
     = (if Img.valid (frame 3)
        then MemoryPool.returnMemory (frame 3) pool_of_two.1
        else pool_of_two.1)
  /\ MemoryPool.free_count (Img.memoryPoolIndex (frame 3))
       (Image_dtor (frame 3) pool_of_two.1)
     = (MemoryPool.free_count (Img.memoryPoolIndex (frame 3)) pool_of_two.1
        + (if Img.valid (frame 3) then 1 else 0))%nat
  /\ Image_dtor (Img.invalid (frame 3)) pool_of_two.1 = pool_of_two.1.
Proof.
  apply (request_then_destroy_restores_pool 0 pool_of_two.1
           [[MemoryPool.mkBuffer (Some 1%nat) 4 0]] pool_of_two.1
           first_of_two (frame 3)).
  - reflexivity.
  - simpl. lia.
Defined.

(** ** Volume slices *)

Lemma volume_slice_throws v i m :
  i >= depth_ v ->
  Vol.operator_idx v i m = Throws (out_of_range "Volume: invalid slice index").
Proof. intros H. unfold Vol.operator_idx. now rewrite decide_True. Qed.

Lemma volume_slice_no_throw v i m e :
  i < depth_ v -> Vol.operator_idx v i m <> Throws e.
Proof.
  intros H. unfold Vol.operator_idx. rewrite decide_False by lia.
  destruct (read_range _ _ _); discriminate.
Qed.

(** What [operator[]] hands to the Image constructor: the width as the
    size, the height as the index and the slice index as the plane. *)
Lemma volume_slice_image v i m img m' :
  Vol.operator_idx v i m = Returns (img, m') ->
  Img.valid img = true /\ Img.size img = width_ v
  /\ Img.index img = height_ v /\ Img.plane img = i
  /\ Img.container img = Some (next_free m) /\ ~ allocated m (next_free m).
Proof.
  unfold Vol.operator_idx.
  destruct (decide (i >= depth_ v)); [discriminate|].
  destruct (read_range _ _ _); [|discriminate].
  simpl. intros [= <- <-]. unfold allocated. simpl. repeat split. lia.
Qed.

(** C10, at slice 1 of a volume of width 2, height 3 and depth 4: the call
    returns a valid Image on a fresh buffer that holds the six elements of
    the slice, but the Image has size 2 (the width), index 3 (the height)
    and plane 1 (the slice index), where the claim has it be of dimensions
    2 x 3 with index 1. *)
Theorem volume_slice_index_is_height :
  exists img m',
    Vol.operator_idx volume_2_3_4.1 1 volume_2_3_4.2 = Returns (img, m')
    /\ Img.valid img = true
    /\ Img.container img = Some 1%nat
    /\ deref m' 1%nat = [6; 7; 8; 9; 10; 11]
    /\ Img.size img = 2 /\ Img.index img = 3 /\ Img.plane img = 1.
Proof.
  eexists _, _. split; [vm_compute; reflexivity|].
  vm_compute. repeat split.
Qed.

(** ** Configuration checks of the constructors *)

(** H2D, D2H, Attenuation and the Receiver throw exactly when their
    [readConfig] returned the failure code. *)
Lemma constructor_throws_on_failure s cfg r :
  s <> StageTemplate ->
  readConfig_failed s cfg = Some r ->
  constructor_throws s cfg = Some r.
Proof.
  intros Hs. destruct s; try congruence; simpl.
  - unfold H2DConfig.constructor.
    destruct (H2DConfig.readConfig _ _) as [[[] ?]| | |]; try discriminate;
      now intros [= <-].
  - unfold D2HConfig.constructor.
    destruct (D2HConfig.readConfig _ _) as [[[] ?]| | |]; try discriminate;
      now intros [= <-].
  - unfold AttenuationConfig.constructor.
    destruct (AttenuationConfig.readConfig _ _) as [[[] ?]| | |];
      try discriminate; now intros [= <-].
  - unfold ReceiverConfig.constructor.
    destruct (ReceiverConfig.readConfig _ _) as [[[] ?]| | |];
      try discriminate; now intros [= <-].
Qed.

(** Template throws exactly when its [readConfig] returned success. *)
Lemma template_constructor_throws_on_success cfg r :
  readConfig_failed StageTemplate cfg = Some r ->
  constructor_throws StageTemplate cfg = Some (negb r).
Proof.
  simpl. unfold TemplateConfig.constructor.
  destruct (TemplateConfig.readConfig _ _) as [[[] ?]| | |]; try discriminate;
    now intros [= <-].
Qed.

(** The return value of [Template::readConfig] is the failure code. *)
Lemma template_readConfig_code cfg :
  readConfig_failed StageTemplate cfg
  = Some (bool_decide (Config.get_int cfg "number_of_pixels" = None)).
Proof.
  simpl. unfold TemplateConfig.readConfig, TemplateConfig.read_keys,
    Config.assign.
  destruct (Config.get_int cfg "number_of_pixels"); reflexivity.
Qed.

Lemma d2h_readConfig_code cfg :
  readConfig_failed StageD2H cfg
  = Some (bool_decide (Config.get_int cfg "number_of_pixels" = None
                       \/ Config.get_int cfg "mempoolsize_d2h" = None)).
Proof.
  simpl. unfold D2HConfig.readConfig, D2HConfig.read_keys, Config.assign.
  destruct (Config.get_int cfg "number_of_pixels") as [n|];
    [destruct (Config.get_int cfg "mempoolsize_d2h") as [k|]|];
    reflexivity.
Qed.

(** A member read before the failing key has its new value when
    [readConfig] returns the failure code: D2H on a configuration with
    [number_of_pixels] and without [mempoolsize_d2h]. *)
Example d2h_readConfig_assigns_as_read :
  D2HConfig.readConfig config_with_pixels (D2HConfig.mkMembers 0 0)
  = Returns (Config.to_bool Config.EXIT_FAILURE, D2HConfig.mkMembers 256 0).
Proof. vm_compute. reflexivity. Qed.

(** C3, at the Template stage.  Without the key, and with the key at a
    value of another type, [readConfig] returns the failure code and the
    constructor does not throw; with the key read [readConfig] returns zero
    and the constructor throws.  D2H on the same configurations throws on
    the failure code, as the claim has it. *)
Theorem template_constructor_check_inverted :
  (readConfig_failed StageTemplate config_without_pixels = Some true
   /\ constructor_throws StageTemplate config_without_pixels = Some false)
  /\ (readConfig_failed StageTemplate config_pixels_as_text = Some true
      /\ constructor_throws StageTemplate config_pixels_as_text = Some false)
  /\ (readConfig_failed StageTemplate config_with_pixels = Some false
      /\ constructor_throws StageTemplate config_with_pixels = Some true)
  /\ (readConfig_failed StageD2H config_with_pixels = Some true
      /\ constructor_throws StageD2H config_with_pixels = Some true).
Proof. vm_compute. repeat split. Qed.

(** ** Loss accounting of H2D *)

Example loss_0_1_2 :
  H2D.process_all [frame 0; frame 1; frame 2] (H2D.init 1 ∅)
  = Returns (H2D.mkH2D 1 0 2 (2 ^ 64 - 1) 3 ∅,
             [Push 0 (frame 0); Push 0 (frame 1); Push 0 (frame 2)]).
Proof. vm_compute. reflexivity. Qed.

Example loss_1_2_4 :
  H2D.process_all [frame 1; frame 2; frame 4] (H2D.init 2 ∅)
  = Returns (H2D.mkH2D 2 1 4 1 3 ∅,
             [Push 0 (frame 1); Push 1 (frame 2); Push 0 (frame 4)]).
Proof. vm_compute. reflexivity. Qed.

Lemma h2d_process_valid sinogram st :
  Img.valid sinogram = true ->
  H2D.numberOfDevices_ st <> 0 ->
  H2D.process sinogram st
  = Returns
      (H2D.mkH2D (H2D.numberOfDevices_ st)
         (Z.rem (H2D.lastDevice_ st + 1) (H2D.numberOfDevices_ st))
         (Img.index sinogram)
         (Int.to_size_t
            (H2D.lostSinos_ st
             + Int.to_int (Img.index sinogram - H2D.lastIndex_ st - 1)))
         (Int.to_size_t (H2D.count_ st + 1))
         (H2D.memoryPoolIdxs_ st),
       [Push (H2D.lastDevice_ st) sinogram]).
Proof.
  intros Hv HK. unfold H2D.process. rewrite Hv.
  destruct sinogram; simpl. rewrite decide_False by exact HK.
  now rewrite to_int_to_size_t.
Qed.

Lemma highest_index_cons a stream :
  highest_index (a :: stream) = Z.max (Img.index a) (highest_index stream).
Proof. reflexivity. Qed.

Lemma highest_index_nonneg stream : 0 <= highest_index stream.
Proof.
  induction stream as [|a stream IH]; [reflexivity|].
  rewrite highest_index_cons. lia.
Qed.

(** The invariant of the accounting on an ascending stream: the counter is
    the last index minus the number of images seen. *)
Lemma h2d_process_all_ascending stream : forall st,
  H2D.numberOfDevices_ st <> 0 ->
  ascending_from (H2D.lastIndex_ st) stream ->
  0 <= H2D.lostSinos_ st <= H2D.lastIndex_ st ->
  H2D.lastIndex_ st < 2 ^ 64 ->
  exists st' evs,
    H2D.process_all stream st = Returns (st', evs)
    /\ length evs = length stream
    /\ H2D.lastIndex_ st' = Z.max (H2D.lastIndex_ st) (highest_index stream)
    /\ H2D.lostSinos_ st' - H2D.lastIndex_ st'
       = H2D.lostSinos_ st - H2D.lastIndex_ st - Z.of_nat (length stream).
Proof.
  induction stream as [|i stream IH]; intros st HK Hasc Hlost Hlast.
  - exists st, []. simpl. repeat split; unfold highest_index; simpl; lia.
  - destruct Hasc as (Hv & Hidx & Hstep & Hasc).
    cbn [H2D.process_all]. rewrite h2d_process_valid by assumption.
    set (st1 := H2D.mkH2D _ _ _ _ _ _).
    assert (Hdiff : Int.to_int (Img.index i - H2D.lastIndex_ st - 1)
                    = Img.index i - H2D.lastIndex_ st - 1)
      by (apply to_int_small; lia).
    assert (Hl1 : H2D.lostSinos_ st1
                  = H2D.lostSinos_ st + (Img.index i - H2D.lastIndex_ st - 1)).
    { subst st1; simpl. rewrite Hdiff. apply to_size_t_small. lia. }
    destruct (IH st1) as (st' & evs & Hrun & Hlen & Hhigh & Hinv).
    + exact HK.
    + exact Hasc.
    + rewrite Hl1. subst st1; simpl. lia.
    + subst st1; simpl. lia.
    + exists st', (Push (H2D.lastDevice_ st) i :: evs).
      simpl. rewrite Hrun. simpl. repeat split.
      * now rewrite Hlen.
      * rewrite Hhigh, highest_index_cons. subst st1; simpl. lia.
      * rewrite Hinv, Hl1. subst st1; simpl. lia.
Qed.

Lemma gap_free_highest stream : forall a,
  gap_free (a :: stream) -> 0 <= Img.index a ->
  highest_index (a :: stream) = Img.index a + Z.of_nat (length stream).
Proof.
  induction stream as [|b stream IH]; intros a Hgap Ha.
  - unfold highest_index; simpl. lia.
  - destruct Hgap as [Hb Hgap].
    specialize (IH b Hgap ltac:(lia)).
    rewrite highest_index_cons, IH. simpl length. lia.
Qed.

(** From the frame index 1 on the accounting is the claimed one: after a
    stream of valid Images whose indices rise strictly from 1 or more on,
    no step wider than [2 ^ 31], the counter of lost frames is the highest
    index seen minus the number of frames forwarded; it is 0 when the
    stream starts at index 1 and skips none. *)
Theorem h2d_lost_is_highest_minus_forwarded
    (stream : list Image) (numberOfDevices : Z) (idxs : gmap Z Z) :
  numberOfDevices <> 0 ->
  ascending_from 0 stream ->
  exists st evs,
    H2D.process_all stream (H2D.init numberOfDevices idxs) = Returns (st, evs)
    /\ length evs = length stream
    /\ H2D.lostSinos_ st = highest_index stream - Z.of_nat (length evs)
    /\ (gap_free stream ->
        Img.index <$> head stream = Some 1 ->
        H2D.lostSinos_ st = 0).
Proof.
  intros HK Hasc.
  destruct (h2d_process_all_ascending stream (H2D.init numberOfDevices idxs))
    as (st & evs & Hrun & Hlen & Hhigh & Hinv); simpl; try lia; try assumption.
  simpl in Hhigh, Hinv.
  pose proof (highest_index_nonneg stream) as Hnonneg.
  assert (Hlost : H2D.lostSinos_ st
                  = highest_index stream - Z.of_nat (length evs)).
  { rewrite Hlen. lia. }
  exists st, evs. repeat split; try assumption.
  intros Hgap Hhead. rewrite Hlost, Hlen.
  destruct stream as [|a stream]; [discriminate|].
  injection Hhead as Ha.
  rewrite gap_free_highest by (assumption || lia). simpl length. lia.
Qed.

Lemma h2d_lost_is_highest_minus_forwarded_witness :
  exists st evs,
    H2D.process_all [frame 1; frame 2; frame 3] (H2D.init 2 ∅)
    = Returns (st, evs)
    /\ length evs = length [frame 1; frame 2; frame 3]
    /\ H2D.lostSinos_ st
       = highest_index [frame 1; frame 2; frame 3] - Z.of_nat (length evs)
    /\ H2D.lostSinos_ st = 0.
Proof.
  destruct (h2d_lost_is_highest_minus_forwarded
              [frame 1; frame 2; frame 3] 2 ∅)
    as (st & evs & Hrun & Hlen & Hlost & Hzero).
  - lia.
  - simpl. repeat split; lia.
  - exists st, evs. repeat split; try assumption.
    apply Hzero; [simpl; lia | reflexivity].
Defined.

(** The counter stays as it is over Images that follow the last index
    seen without a gap. *)
Lemma h2d_process_all_gap_free stream : forall last st,
  H2D.numberOfDevices_ st <> 0 ->
  Forall (fun i => Img.valid i = true) stream ->
  gap_free (last :: stream) ->
  H2D.lastIndex_ st = Img.index last ->
  0 <= H2D.lostSinos_ st < 2 ^ 64 ->
  exists st' evs,
    H2D.process_all stream st = Returns (st', evs)
    /\ length evs = length stream
    /\ H2D.lostSinos_ st' = H2D.lostSinos_ st.
Proof.
  induction stream as [|b stream IH]; intros last st HK Hall Hgap Hlast Hlost.
  - exists st, []. now repeat split.
  - apply Forall_cons in Hall as [Hv Hall]. destruct Hgap as [Hb Hgap].
    cbn [H2D.process_all]. rewrite h2d_process_valid by assumption.
    replace (Img.index b - H2D.lastIndex_ st - 1) with 0 by lia.
    change (Int.to_int 0) with 0. rewrite Z.add_0_r.
    rewrite (to_size_t_small (H2D.lostSinos_ st)) by exact Hlost.
    set (st1 := H2D.mkH2D _ _ _ _ _ _).
    destruct (IH b st1) as (st' & evs & Hrun & Hlen & Hkeep);
      try assumption; try reflexivity.
    exists st', (Push (H2D.lastDevice_ st) b :: evs).
    cbn [mbind outcome_bind]. rewrite Hrun.
    cbn [mbind outcome_bind mret outcome_ret app length].
    split; [reflexivity|]. split; [now rewrite Hlen|exact Hkeep].
Qed.

(** C6.  The constructor sets [lastIndex_] to 0 and [process] adds
    [index - lastIndex_ - 1] to the counter of lost frames, so the frame
    with index 0, the first frame of a run, is counted as [-1] lost
    frames: after any stream of valid Images that starts at frame index 0
    and skips no index, the counter stands at [2 ^ 64 - 1], where the claim
    has it be 0. *)
Theorem h2d_lost_wraps_from_frame_0
    (stream : list Image) (numberOfDevices : Z) (idxs : gmap Z Z) :
  numberOfDevices <> 0 ->
  Img.index <$> head stream = Some 0 ->
  Forall (fun i => Img.valid i = true) stream ->
  gap_free stream ->
  exists st evs,
    H2D.process_all stream (H2D.init numberOfDevices idxs) = Returns (st, evs)
    /\ length evs = length stream
    /\ H2D.lostSinos_ st = 2 ^ 64 - 1
    /\ H2D.lostSinos_ st <> 0
    /\ ~ loss_accounted stream st evs.
Proof.
  intros HK Hhead Hall Hgap.
  destruct stream as [|first stream]; [discriminate|].
  injection Hhead as Hfirst.
  apply Forall_cons in Hall as [Hv Hall].
  cbn [H2D.process_all]. rewrite h2d_process_valid by assumption.
  cbn [H2D.init H2D.lastIndex_ H2D.lostSinos_ H2D.numberOfDevices_
       H2D.lastDevice_ H2D.count_ H2D.memoryPoolIdxs_].
  rewrite Hfirst.
  change (Int.to_size_t (0 + Int.to_int (0 - 0 - 1))) with (2 ^ 64 - 1).
  set (st1 := H2D.mkH2D _ _ _ _ _ _).
  destruct (h2d_process_all_gap_free stream first st1)
    as (st & evs & Hrun & Hlen & Hkeep); try assumption.
  { now rewrite Hfirst. }
  { cbn. lia. }
  exists st, (Push 0 first :: evs).
  cbn [mbind outcome_bind]. rewrite Hrun.
  cbn [mbind outcome_bind mret outcome_ret app length].
  assert (Hlost : H2D.lostSinos_ st = 2 ^ 64 - 1) by exact Hkeep.
  split; [reflexivity|]. split; [now rewrite Hlen|].
  split; [exact Hlost|]. split; [rewrite Hlost; lia|].
  intros [_ Hzero]. specialize (Hzero Hgap). rewrite Hlost in Hzero. lia.
Qed.

Lemma h2d_lost_wraps_from_frame_0_witness :
  exists st evs,
    H2D.process_all [frame 0; frame 1; frame 2] (H2D.init 1 ∅)
    = Returns (st, evs)
    /\ length evs = length [frame 0; frame 1; frame 2]
    /\ H2D.lostSinos_ st = 2 ^ 64 - 1
    /\ H2D.lostSinos_ st <> 0
    /\ ~ loss_accounted [frame 0; frame 1; frame 2] st evs.
Proof.
  apply (h2d_lost_wraps_from_frame_0 [frame 0; frame 1; frame 2] 1 ∅).
  - lia.
  - reflexivity.
  - repeat constructor.
  - simpl. lia.
Defined.

(** ** Events of a stage *)

Lemma pushed_to_app q evs1 evs2 :
  pushed_to q (evs1 ++ evs2) = pushed_to q evs1 ++ pushed_to q evs2.
Proof.
  induction evs1 as [|[q' img|t|img] evs1 IH]; simpl; try assumption.
  - reflexivity.
  - destruct (decide (q' = q)); simpl; now rewrite IH.
Qed.

Lemma joined_app evs1 evs2 : joined (evs1 ++ evs2) = joined evs1 ++ joined evs2.
Proof.
  induction evs1 as [|[q' img|t|img] evs1 IH]; simpl; try assumption.
  - reflexivity.
  - now rewrite IH.
Qed.

Lemma outputs_app evs1 evs2 :
  outputs (evs1 ++ evs2) = outputs evs1 ++ outputs evs2.
Proof.
  induction evs1 as [|[q' img|t|img] evs1 IH]; simpl; try assumption.
  - reflexivity.
  - now rewrite IH.
Qed.

(** A loop that pushes [img] once to each queue of [l]. *)
Lemma pushed_to_each q img (l : list Z) :
  NoDup l ->
  pushed_to q ((fun i => Push i img) <$> l)
  = if decide (q ∈ l) then [img] else [].
Proof.
  induction 1 as [|i l Hi Hnd IH].
  - rewrite decide_False by apply not_elem_of_nil. reflexivity.
  - rewrite fmap_cons. cbn [pushed_to]. rewrite IH.
    destruct (decide (i = q)) as [->|Hne].
    + rewrite (decide_False (P := q ∈ l)) by exact Hi.
      rewrite decide_True by apply list_elem_of_here. reflexivity.
    + destruct (decide (q ∈ l)) as [Hin|Hnin].
      * rewrite decide_True by now apply list_elem_of_further. reflexivity.
      * rewrite decide_False; [reflexivity|].
        rewrite elem_of_cons. intros [Hq|Hq]; [congruence|tauto].
Qed.

Lemma joined_pushes img (l : list Z) :
  joined ((fun i => Push i img) <$> l) = [].
Proof. induction l; simpl; assumption || reflexivity. Qed.

Lemma outputs_pushes img (l : list Z) :
  outputs ((fun i => Push i img) <$> l) = [].
Proof. induction l; simpl; assumption || reflexivity. Qed.

Lemma pushed_to_joins q (l : list Z) : pushed_to q (Join <$> l) = [].
Proof. induction l; simpl; assumption || reflexivity. Qed.

Lemma joined_joins (l : list Z) : joined (Join <$> l) = l.
Proof. induction l; simpl; [reflexivity|]. now f_equal. Qed.

Lemma outputs_joins (l : list Z) : outputs (Join <$> l) = [].
Proof. induction l; simpl; assumption || reflexivity. Qed.

(** The queues after the pushes of an event sequence. *)
Lemma enqueue_pushed_to evs : forall (queues : gmap Z (list Image)) q,
  enqueue evs queues !! q
  = match pushed_to q evs with
    | [] => queues !! q
    | imgs => Some (default [] (queues !! q) ++ imgs)
    end.
Proof.
  induction evs as [|[q' img|t|img] evs IH]; intros queues q; simpl;
    try apply IH.
  - reflexivity.
  - rewrite IH. destruct (decide (q' = q)) as [->|Hne].
    + rewrite lookup_insert_eq. simpl.
      destruct (pushed_to q evs); simpl.
      * reflexivity.
      * now rewrite <- app_assoc.
    + now rewrite lookup_insert_ne by exact Hne.
Qed.

Lemma finish_protocol K : sentinel_protocol K (finish K).
Proof.
  assert (Hpush : forall q,
    pushed_to q (finish K)
    = if decide (0 <= q < K) then [Img.Image_default] else []).
  { intros q. unfold finish, for_each_device.
    rewrite !pushed_to_app, pushed_to_joins, pushed_to_each by apply NoDup_seqZ.
    simpl. rewrite !app_nil_r.
    destruct (decide (0 <= q < K)) as [Hq|Hq].
    - rewrite decide_True; [reflexivity|]. apply elem_of_seqZ. lia.
    - rewrite decide_False; [reflexivity|]. rewrite elem_of_seqZ. lia. }
  repeat split.
  - exact Hpush.
  - unfold finish, for_each_device.
    rewrite !joined_app, joined_pushes, joined_joins. simpl.
    now rewrite app_nil_r.
  - unfold finish, for_each_device.
    now rewrite !outputs_app, outputs_pushes, outputs_joins.
  - intros queues q. rewrite enqueue_pushed_to, Hpush.
    now destruct (decide (0 <= q < K)).
Qed.

(** ** Routing of valid images *)

Lemma d2h_process_valid img st :
  Img.valid img = true ->
  D2H.process img st
  = Returns (D2H.mkD2H (D2H.numberOfDevices_ st)
               (Int.to_size_t (D2H.count_ st + 1)) (D2H.memoryPoolIdx_ st),
             [Push (Img.device img) img]).
Proof. intros Hv. unfold D2H.process. rewrite Hv. now destruct img. Qed.

Lemma attenuation_process_valid img st :
  Img.valid img = true ->
  Attenuation.process img st = Returns (st, [Push (Img.device img) img]).
Proof. intros Hv. unfold Attenuation.process. rewrite Hv. now destruct img. Qed.

Lemma template_process_valid img st :
  Img.valid img = true ->
  Template.process img st = Returns (st, [Push (Img.device img) img]).
Proof. intros Hv. unfold Template.process. rewrite Hv. now destruct img. Qed.

(** C4 (as amended).  A valid Image arriving at [process] of D2H, of
    Attenuation and of the Template skeleton is enqueued into the worker
    queue of the Image's own device.  H2D enqueues it into the queue
    [lastDevice_] and moves [lastDevice_] on round-robin, whatever device
    the Image names. *)
Theorem valid_image_routing (img : Image) (h2d : H2D.H2D) :
  Img.valid img = true ->
  H2D.numberOfDevices_ h2d <> 0 ->
  (forall st, exists st' evs,
      D2H.process img st = Returns (st', evs) /\ routed_by_device img evs)
  /\ (forall st, exists st' evs,
        Attenuation.process img st = Returns (st', evs)
        /\ routed_by_device img evs)
  /\ (forall st, exists st' evs,
        Template.process img st = Returns (st', evs)
        /\ routed_by_device img evs)
  /\ (exists h2d',
        H2D.process img h2d = Returns (h2d', [Push (H2D.lastDevice_ h2d) img])
        /\ H2D.lastDevice_ h2d'
           = Z.rem (H2D.lastDevice_ h2d + 1) (H2D.numberOfDevices_ h2d))
  /\ (forall (queues : gmap Z (list Image)) q,
        enqueue [Push q img] queues !! q
        = Some (default [] (queues !! q) ++ [img])).
Proof.
  intros Hv HK. repeat split.
  - intros st. eexists _, _. split; [now apply d2h_process_valid|reflexivity].
  - intros st. eexists _, _.
    split; [now apply attenuation_process_valid|reflexivity].
  - intros st. eexists _, _.
    split; [now apply template_process_valid|reflexivity].
  - eexists. split; [now apply h2d_process_valid|reflexivity].
  - intros queues q. simpl. now rewrite lookup_insert_eq.
Qed.

Lemma valid_image_routing_witness :
  (forall st, exists st' evs,
      D2H.process (frame_on_device 1 5) st = Returns (st', evs)
      /\ routed_by_device (frame_on_device 1 5) evs)
  /\ (forall st, exists st' evs,
        Attenuation.process (frame_on_device 1 5) st = Returns (st', evs)
        /\ routed_by_device (frame_on_device 1 5) evs)
  /\ (forall st, exists st' evs,
        Template.process (frame_on_device 1 5) st = Returns (st', evs)
        /\ routed_by_device (frame_on_device 1 5) evs)
  /\ (exists h2d',
        H2D.process (frame_on_device 1 5) (H2D.mkH2D 2 1 4 0 4 ∅)
        = Returns (h2d', [Push (H2D.lastDevice_ (H2D.mkH2D 2 1 4 0 4 ∅))
                            (frame_on_device 1 5)])
        /\ H2D.lastDevice_ h2d'
           = Z.rem (H2D.lastDevice_ (H2D.mkH2D 2 1 4 0 4 ∅) + 1)
                   (H2D.numberOfDevices_ (H2D.mkH2D 2 1 4 0 4 ∅)))
  /\ (forall (queues : gmap Z (list Image)) q,
        enqueue [Push q (frame_on_device 1 5)] queues !! q
        = Some (default [] (queues !! q) ++ [frame_on_device 1 5])).
Proof.
  apply (valid_image_routing (frame_on_device 1 5) (H2D.mkH2D 2 1 4 0 4 ∅)).
  - reflexivity.
  - simpl. lia.
Defined.

(** C4 (as stated) fails on H2D: with two devices the first image goes to
    queue 0 although device 1 owns it. *)
Lemma h2d_routes_round_robin :
  H2D.process (frame_on_device 1 1) (H2D.init 2 ∅)
  = Returns (H2D.mkH2D 2 1 1 0 1 ∅, [Push 0 (frame_on_device 1 1)])
  /\ Img.valid (frame_on_device 1 1) = true
  /\ Img.device (frame_on_device 1 1) = 1
  /\ ~ routed_by_device (frame_on_device 1 1) [Push 0 (frame_on_device 1 1)].
Proof.
  split; [vm_compute; reflexivity|]. repeat split.
  unfold routed_by_device. simpl. intros [= H].
Qed.

(** ** The sentinel *)

Lemma worker_exits_on_invalid stamp poolIdx s queue pin pout :
  Img.valid s = false ->
  worker_loop stamp poolIdx (s :: queue) pin pout
  = mkWorker Exited queue pin pout [].
Proof. intros Hs. simpl. now rewrite Hs. Qed.

(** A worker that left its loop took an invalid image, and valid ones only
    before it; what it left in the queue is what came after. *)
Lemma worker_exited_took_invalid stamp poolIdx queue : forall pin pout,
  status (worker_loop stamp poolIdx queue pin pout) = Exited ->
  exists taken s,
    queue = taken ++ s :: queue_left (worker_loop stamp poolIdx queue pin pout)
    /\ Forall (fun i => Img.valid i = true) taken
    /\ Img.valid s = false.
Proof.
  induction queue as [|input rest IH]; intros pin pout; simpl.
  - discriminate.
  - destruct (Img.valid input) eqn:Hv; simpl.
    + destruct (MemoryPool.requestMemory poolIdx pout) as [[out pout']| | |];
        simpl; try discriminate.
      intros Hst. destruct (IH _ _ Hst) as (taken & s & Hq & Hall & Hs).
      exists (input :: taken), s. repeat split.
      * simpl. now rewrite <- Hq.
      * now constructor.
      * exact Hs.
    + intros _. exists [], input. repeat split; [constructor | exact Hv].
Qed.

(** C1.  On the end-of-stream sentinel [process] of every stage pushes one
    invalid Image into each of the worker queues 0, ..., K-1 (and into no
    other), then joins each of the K worker threads, then pushes one invalid
    Image into the output queue; the members of the stage stay as they
    are.  The loop of every worker leaves by [break] when it takes an
    invalid Image from its queue, and leaves the rest of the queue. *)
Theorem sentinel_reaches_every_worker_once (s : Image) :
  Img.valid s = false ->
  (forall st, exists evs,
      H2D.process s st = Returns (st, evs)
      /\ sentinel_protocol (H2D.numberOfDevices_ st) evs)
  /\ (forall st, exists evs,
        D2H.process s st = Returns (st, evs)
        /\ sentinel_protocol (D2H.numberOfDevices_ st) evs)
  /\ (forall st, exists evs,
        Attenuation.process s st = Returns (st, evs)
        /\ sentinel_protocol (Attenuation.numberOfDevices_ st) evs)
  /\ (forall st, exists evs,
        Template.process s st = Returns (st, evs)
        /\ sentinel_protocol (Template.numberOfDevices_ st) evs)
  /\ (forall deviceID queue pin pout,
        (forall st, H2D.processor st deviceID (s :: queue) pin pout
                    = mkWorker Exited queue pin pout [])
        /\ (forall st, D2H.processor st deviceID (s :: queue) pin pout
                       = mkWorker Exited queue pin pout [])
        /\ (forall st, Attenuation.processor st deviceID (s :: queue) pin pout
                       = mkWorker Exited queue pin pout [])
        /\ (forall st, Template.processor st deviceID (s :: queue) pin pout
                       = mkWorker Exited queue pin pout [])).
Proof.
  intros Hs. unfold Img.valid in Hs. repeat split.
  - intros st. exists (finish (H2D.numberOfDevices_ st)).
    unfold H2D.process, Img.valid. rewrite Hs.
    split; [reflexivity | apply finish_protocol].
  - intros st. exists (finish (D2H.numberOfDevices_ st)).
    unfold D2H.process, Img.valid. rewrite Hs.
    split; [reflexivity | apply finish_protocol].
  - intros st. exists (finish (Attenuation.numberOfDevices_ st)).
    unfold Attenuation.process, Img.valid. rewrite Hs.
    split; [reflexivity | apply finish_protocol].
  - intros st. exists (finish (Template.numberOfDevices_ st)).
    unfold Template.process, Img.valid. rewrite Hs.
    split; [reflexivity | apply finish_protocol].
  - intros st. now apply worker_exits_on_invalid.
  - intros st. now apply worker_exits_on_invalid.
  - intros st. now apply worker_exits_on_invalid.
  - intros st. now apply worker_exits_on_invalid.
Qed.

Lemma sentinel_reaches_every_worker_once_witness :
  (forall st, exists evs,
      H2D.process Img.Image_default st = Returns (st, evs)
      /\ sentinel_protocol (H2D.numberOfDevices_ st) evs)
  /\ (forall st, exists evs,
        D2H.process Img.Image_default st = Returns (st, evs)
        /\ sentinel_protocol (D2H.numberOfDevices_ st) evs)
  /\ (forall st, exists evs,
        Attenuation.process Img.Image_default st = Returns (st, evs)
        /\ sentinel_protocol (Attenuation.numberOfDevices_ st) evs)
  /\ (forall st, exists evs,
        Template.process Img.Image_default st = Returns (st, evs)
        /\ sentinel_protocol (Template.numberOfDevices_ st) evs)
  /\ (forall deviceID queue pin pout,
        (forall st,
            H2D.processor st deviceID (Img.Image_default :: queue) pin pout
            = mkWorker Exited queue pin pout [])
        /\ (forall st,
              D2H.processor st deviceID (Img.Image_default :: queue) pin pout
              = mkWorker Exited queue pin pout [])
        /\ (forall st,
              Attenuation.processor st deviceID (Img.Image_default :: queue)
                pin pout
              = mkWorker Exited queue pin pout [])
        /\ (forall st,
              Template.processor st deviceID (Img.Image_default :: queue)
                pin pout
              = mkWorker Exited queue pin pout [])).
Proof.
  apply (sentinel_reaches_every_worker_once Img.Image_default). reflexivity.
Defined.

(** Two devices: the events of the sentinel, and a worker that drains two
    frames and then leaves on the sentinel. *)
Example sentinel_on_two_devices :
  H2D.process Img.Image_default (H2D.init 2 ∅)
  = Returns (H2D.init 2 ∅,
             [Push 0 Img.Image_default; Push 1 Img.Image_default;
              Join 0; Join 1; Output Img.Image_default]).
Proof. vm_compute. reflexivity. Qed.

Example worker_drains_then_exits :
  let r := H2D.processor (H2D.init 2 {[0 := 0; 1 := 0]}) 1
             [frame 1; frame 2; Img.Image_default] [[]] pool_of_two.1 in
  status r = Exited /\ queue_left r = []
  /\ (Img.index <$> published r) = [1; 2]
  /\ (Img.device <$> published r) = [1; 1]
  /\ MemoryPool.free_count 0 (out_pool r) = 0%nat
  /\ MemoryPool.free_count 0 (in_pool r) = 2%nat.
Proof. vm_compute. repeat split. Qed.

(** ** Metadata across a worker *)

(** What a worker publishes: one stamped pool image for each valid image it
    took from the front of its queue, in order. *)
Lemma worker_published stamp poolIdx queue : forall pin pout,
  exists taken rest,
    queue = taken ++ rest
    /\ Forall (fun i => Img.valid i = true) taken
    /\ Forall2 (fun i o => exists out, Img.valid out = true /\ o = stamp i out)
         taken (published (worker_loop stamp poolIdx queue pin pout)).
Proof.
  induction queue as [|input queue IH]; intros pin pout; simpl.
  - exists [], []. repeat split; constructor.
  - destruct (Img.valid input) eqn:Hv; simpl.
    + destruct (MemoryPool.requestMemory poolIdx pout)
        as [[out pout']| | |] eqn:Hreq; simpl;
        try (exists [], (input :: queue); repeat split; constructor).
      destruct (IH (Image_dtor input pin) pout')
        as (taken & rest & Hq & Hall & Hpub).
      exists (input :: taken), rest. repeat split.
      * simpl. now rewrite <- Hq.
      * now constructor.
      * constructor; [|exact Hpub].
        exists out. split; [|reflexivity].
        now apply request_gives_valid in Hreq as [Hout _].
    + exists [], (input :: queue). repeat split; constructor.
Qed.



Lemma d2h_stamp_frame img ret :
  same_frame_narrowed img (D2H.stamp img ret)
  /\ Img.valid (D2H.stamp img ret) = Img.valid ret.
Proof. repeat split. Qed.

Lemma same_frame_of_narrowed input output :
  0 <= Img.index input < 2 ^ 32 ->
  same_frame_narrowed input output -> same_frame input output.
Proof.
  intros Hi (Hidx & Hp & Hs). repeat split; try assumption.
  rewrite Hidx. now apply to_uint_small.
Qed.

(** A worker whose stamp keeps the frame publishes, for the images it took,
    outputs of the same frame. *)
Lemma worker_keeps_frame stamp poolIdx queue pin pout :
  (forall i out, same_frame_narrowed i (stamp i out)
                 /\ Img.valid (stamp i out) = Img.valid out) ->
  Forall (fun i => 0 <= Img.index i < 2 ^ 32) queue ->
  exists taken rest,
    queue = taken ++ rest
    /\ Forall (fun i => Img.valid i = true) taken
    /\ Forall2 (fun i o => same_frame i o /\ Img.valid o = true) taken
         (published (worker_loop stamp poolIdx queue pin pout)).
Proof.
  intros Hstamp Hsmall.
  destruct (worker_published stamp poolIdx queue pin pout)
    as (taken & rest & Hq & Hall & Hpub).
  exists taken, rest. repeat split; try assumption.
  subst queue. apply Forall_app in Hsmall as [Hsmall _].
  revert Hsmall. induction Hpub as [|i o taken pub (out & Hout & ->) Hpub IH];
    intros Hsmall; constructor.
  - apply Forall_cons in Hsmall as [Hi _].
    destruct (Hstamp i out) as [Hframe Hvalid]. split.
    + now apply same_frame_of_narrowed.
    + now rewrite Hvalid.
  - apply IH.
    + now apply Forall_cons in Hall as [_ Hall].
    + now apply Forall_cons in Hsmall as [_ Hsmall].
Qed.



(** ** Ranges of a buffer *)

Lemma read_range_Some v first n s :
  read_range v first n = Some s ->
  0 <= first /\ 0 <= n /\ first + n <= Z.of_nat (length v)
  /\ s = take (Z.to_nat n) (drop (Z.to_nat first) v).
Proof.
  unfold read_range. destruct (decide _) as [H|H]; [|discriminate].
  intros [= <-]. tauto.
Qed.

Lemma read_range_length v first n s :
  read_range v first n = Some s -> length s = Z.to_nat n.
Proof.
  intros H. apply read_range_Some in H as (H1 & H2 & H3 & ->).
  rewrite length_take, length_drop. lia.
Qed.

Lemma read_range_is_Some v first n :
  0 <= first -> 0 <= n -> first + n <= Z.of_nat (length v) ->
  is_Some (read_range v first n).
Proof.
  intros. unfold read_range. rewrite decide_True by tauto. eauto.
Qed.

Lemma write_range_Some dst off src dst' :
  write_range dst off src = Some dst' ->
  0 <= off /\ off + Z.of_nat (length src) <= Z.of_nat (length dst)
  /\ dst' = take (Z.to_nat off) dst ++ src
            ++ drop (Z.to_nat off + length src) dst.
Proof.
  unfold write_range. destruct (decide _) as [H|H]; [|discriminate].
  intros [= <-]. tauto.
Qed.

Lemma write_range_length dst off src dst' :
  write_range dst off src = Some dst' -> length dst' = length dst.
Proof.
  intros H. apply write_range_Some in H as (H1 & H2 & ->).
  rewrite !length_app, length_take, length_drop. lia.
Qed.

Lemma write_range_lookup dst off src dst' (i : nat) :
  write_range dst off src = Some dst' ->
  dst' !! i
  = if decide (Z.to_nat off <= i < Z.to_nat off + length src)%nat
    then src !! (i - Z.to_nat off)%nat
    else dst !! i.
Proof.
  intros H. apply write_range_Some in H as (H1 & H2 & ->).
  assert (Hlen : length (take (Z.to_nat off) dst) = Z.to_nat off)
    by (rewrite length_take; lia).
  destruct (decide (i < Z.to_nat off)%nat) as [Hlt|Hge].
  - rewrite decide_False by lia.
    rewrite lookup_app_l by lia. now apply lookup_take_lt.
  - rewrite lookup_app_r by lia. rewrite Hlen.
    destruct (decide (Z.to_nat off <= i < Z.to_nat off + length src)%nat)
      as [Hin|Hout].
    + rewrite lookup_app_l by lia. reflexivity.
    + rewrite lookup_app_r by lia. rewrite lookup_drop. f_equal. lia.
Qed.

(** Two buffers that agree on a range read the same there. *)
Lemma read_range_ext (v w : list Z) a n :
  length v = length w ->
  (forall j : nat, (j < Z.to_nat n)%nat ->
     v !! (Z.to_nat a + j)%nat = w !! (Z.to_nat a + j)%nat) ->
  read_range v a n = read_range w a n.
Proof.
  intros Hlen Hagree. unfold read_range. rewrite Hlen.
  destruct (decide _) as [H|H]; [|reflexivity].
  f_equal. apply list_eq. intros j.
  destruct (decide (j < Z.to_nat n)%nat) as [Hj|Hj].
  - rewrite !lookup_take_lt, !lookup_drop by exact Hj. now apply Hagree.
  - now rewrite !lookup_take_ge by lia.
Qed.

(** What was written is read back. *)
Lemma read_write_same dst off src dst' :
  write_range dst off src = Some dst' ->
  read_range dst' off (Z.of_nat (length src)) = Some src.
Proof.
  intros H. pose proof (write_range_length _ _ _ _ H) as Hlen.
  pose proof (write_range_Some _ _ _ _ H) as (H1 & H2 & _).
  unfold read_range. rewrite Hlen, decide_True by lia.
  f_equal. apply list_eq. intros j. rewrite Nat2Z.id.
  destruct (decide (j < length src)%nat) as [Hj|Hj].
  - rewrite lookup_take_lt, lookup_drop by exact Hj.
    rewrite (write_range_lookup _ _ _ _ _ H), decide_True by lia.
    f_equal. lia.
  - rewrite lookup_take_ge by lia. symmetry. apply lookup_ge_None. lia.
Qed.

(** A range that the write does not meet reads as before. *)
Lemma read_write_other dst off src dst' a n :
  write_range dst off src = Some dst' ->
  0 <= a -> 0 <= n ->
  a + n <= off \/ off + Z.of_nat (length src) <= a ->
  read_range dst' a n = read_range dst a n.
Proof.
  intros H Ha Hn Hdisj. pose proof (write_range_Some _ _ _ _ H) as (H1 & _).
  apply read_range_ext; [now apply write_range_length in H|].
  intros j Hj. rewrite (write_range_lookup _ _ _ _ _ H).
  rewrite decide_False by lia. reflexivity.
Qed.

(** ** The Receiver *)

Example loadImage_frame_4 :
  exists img pool m,
    Receiver.loadImage receiver_32_2 4 77 receiver_32_2_pool.1
      receiver_32_2_pool.2 = Returns (img, pool, m)
    /\ img = mkImage 64 4 0 (Some 0%nat) 0 77 true 0
    /\ deref m 0%nat = seqZ 32 32 ++ seqZ 1032 32
    /\ MemoryPool.free_count 0 pool = 1%nat.
Proof. eexists _, _, _. split; [vm_compute; reflexivity|]. vm_compute. repeat split. Qed.

Example loadImage_64_2 :
  exists img pool m,
    Receiver.loadImage receiver_64_2 0 77 receiver_64_2_pool.1
      receiver_64_2_pool.2 = Returns (img, pool, m)
    /\ deref m 0%nat = seqZ 0 16 ++ seqZ 100 16 ++ replicate 32 0.
Proof. eexists _, _, _. split; [vm_compute; reflexivity|]. vm_compute. repeat split. Qed.

Lemma loadImage_shutdown r now pool m :
  Receiver.loadImage r Int.SIZE_MAX now pool m
  = Returns (Img.Image_default, pool, m).
Proof. unfold Receiver.loadImage. now rewrite decide_True. Qed.

(** The index and the plane [loadImage] sets. *)
Lemma loadImage_plane r k now pool m img pool' m' :
  k <> Int.SIZE_MAX ->
  Receiver.loadImage r k now pool m = Returns (img, pool', m') ->
  Img.index img = Int.to_uint k /\ Img.plane img = k mod 2.
Proof.
  intros Hk. unfold Receiver.loadImage. rewrite decide_False by exact Hk.
  destruct (MemoryPool.requestMemory _ _) as [[sino pool1]| | |];
    simpl; try discriminate.
  destruct (Img.container sino); [|discriminate].
  destruct (Receiver.stitch _ _ _ _); [|discriminate].
  simpl. intros [= <- _ _]. split; reflexivity.
Qed.

Section Stitch.

Variable r : Receiver.Receiver.
Variable k : Z.

Local Abbreviation n := (stripe_samples r).
Local Abbreviation slot := (ring_slot r k).
Local Abbreviation ring := (ring_of r).

Hypothesis ring_not_empty : Int.to_size_t (Receiver.bufferSize_ r) <> 0.
Hypothesis stripe_not_negative : 0 <= n.

Lemma stitch_module_writes d sino stripe :
  0 <= d ->
  d * n + n <= Z.of_nat (length sino) ->
  read_range (ring d) slot n = Some stripe ->
  exists out,
    Receiver.stitch_module r k d sino = Some out
    /\ write_range sino (d * n) stripe = Some out.
Proof.
  intros Hd Hfit Hread. unfold Receiver.stitch_module.
  rewrite decide_False by exact ring_not_empty.
  fold slot n (ring d). rewrite Hread. simpl.
  replace (d * Receiver.numberOfDetectorsPerModule
           * Receiver.numberOfProjections_ r) with (d * n)
    by (unfold stripe_samples; ring).
  apply read_range_length in Hread.
  unfold write_range. rewrite decide_True by nia. eauto.
Qed.

Lemma stripes_apart (d d' : Z) :
  d <> d' -> d * n + n <= d' * n \/ d' * n + n <= d * n.
Proof. intros Hne. destruct (Z.lt_total d d') as [H|[H|H]]; [left|tauto|right]; nia. Qed.

(** The loop over the modules: every stripe is in its place, and what lies
    outside the stripes is left as it was. *)
Lemma stitch_all modules : forall sino,
  NoDup modules ->
  (forall d, d ∈ modules ->
     0 <= d /\ d * n + n <= Z.of_nat (length sino)
     /\ is_Some (read_range (ring d) slot n)) ->
  exists out,
    Receiver.stitch r k modules sino = Some out
    /\ length out = length sino
    /\ (forall d, d ∈ modules ->
          read_range out (d * n) n = read_range (ring d) slot n)
    /\ (forall a, 0 <= a ->
          (forall d, d ∈ modules -> a + n <= d * n \/ d * n + n <= a) ->
          read_range out a n = read_range sino a n).
Proof.
  induction modules as [|d modules IH]; intros sino Hnd Hfit.
  - exists sino. repeat split.
    intros d Hd. now apply elem_of_nil in Hd.
  - apply NoDup_cons in Hnd as [Hd Hnd].
    destruct (Hfit d) as (Hd0 & Hdfit & [stripe Hread]);
      [apply list_elem_of_here|].
    destruct (stitch_module_writes d sino stripe Hd0 Hdfit Hread)
      as (sino1 & Hmod & Hwrite).
    pose proof (write_range_length _ _ _ _ Hwrite) as Hlen1.
    pose proof (read_range_length _ _ _ _ Hread) as Hlen.
    destruct (IH sino1 Hnd) as (out & Hrun & Hlen' & Hin & Hout).
    { intros d' Hd'. rewrite Hlen1. apply Hfit.
      now apply list_elem_of_further. }
    exists out. cbn [Receiver.stitch]. rewrite Hmod. simpl.
    split; [exact Hrun|]. split; [congruence|]. split.
    + intros d' Hd'. apply elem_of_cons in Hd' as [->|Hd'].
      * rewrite Hout.
        -- rewrite Hread. replace n with (Z.of_nat (length stripe)) at 2 by lia.
           apply (read_write_same _ _ _ _ Hwrite).
        -- nia.
        -- intros d' Hd'. apply stripes_apart. congruence.
      * now apply Hin.
    + intros a Ha Hfree. rewrite Hout.
      * apply (read_write_other _ _ _ _ _ _ Hwrite); try assumption.
        rewrite Hlen, Z2Nat.id by assumption.
        apply Hfree, list_elem_of_here.
      * exact Ha.
      * intros d' Hd'. now apply Hfree, list_elem_of_further.
Qed.

End Stitch.

(** What [loadImage] does for a frame index [k] other than [-1], with a
    buffer free in the pool and the ring buffers and the pooled buffer
    large enough: the Image it returns is valid on that buffer, has frame
    index [k mod 2 ^ 32], plane [k mod 2] and the start time read from the
    clock, and for every detector module [m] the stripe of [16 x
    numberOfProjections] samples at ring-buffer slot [k mod bufferSize] of
    module [m] stands at offset [m * 16 * numberOfProjections]. *)
Lemma loadImage_stitches_16
    (r : Receiver.Receiver) (k now : Z) (pool pool1 : MemoryPool.MemoryPool)
    (m : Memory) (sino : Image) (p : addr) :
  0 <= k < Int.SIZE_MAX ->
  0 < Receiver.bufferSize_ r < 2 ^ 64 ->
  0 <= Receiver.numberOfProjections_ r ->
  Receiver.bufferSize_ r * 16 * Receiver.numberOfProjections_ r < 2 ^ 64 ->
  MemoryPool.requestMemory (Receiver.memoryPoolIndex_ r) pool
    = Returns (sino, pool1) ->
  Img.container sino = Some p ->
  Receiver.numberOfDetectorModules_ r * 16 * Receiver.numberOfProjections_ r
    <= Z.of_nat (length (deref m p)) ->
  (forall d, 0 <= d < Receiver.numberOfDetectorModules_ r ->
     Receiver.bufferSize_ r * 16 * Receiver.numberOfProjections_ r
     <= Z.of_nat (length (default [] (Receiver.buffers_ r !! d)))) ->
  Receiver.loadImage r Int.SIZE_MAX now pool m
    = Returns (Img.Image_default, pool, m)
  /\ exists img m',
       Receiver.loadImage r k now pool m = Returns (img, pool1, m')
       /\ Img.valid img = true
       /\ Img.index img = Int.to_uint k
       /\ Img.plane img = k mod 2
       /\ Img.start img = now
       /\ Img.container img = Some p
       /\ stitched 16 r k (deref m' p).
Proof.
  intros Hk HB HP Hring Hreq Hp Hsino Hbufs.
  split; [apply loadImage_shutdown|].
  pose proof (request_gives_valid _ _ _ _ Hreq) as (Hvalid & _ & _).
  set (P := Receiver.numberOfProjections_ r) in *.
  set (B := Receiver.bufferSize_ r) in *.
  assert (HBs : Int.to_size_t B = B) by (apply to_size_t_small; lia).
  assert (Hmod : 0 <= k mod B < B) by (apply Z.mod_pos_bound; lia).
  assert (Hslot : Int.to_size_t (k mod Int.to_size_t B
                                 * Receiver.numberOfDetectorsPerModule * P)
                  = k mod B * 16 * P).
  { rewrite HBs. unfold Receiver.numberOfDetectorsPerModule.
    apply to_size_t_small. nia. }
  destruct (stitch_all r k) with (modules := seqZ 0 (Receiver.numberOfDetectorModules_ r))
                                 (sino := deref m p)
    as (out & Hrun & Hlen & Hin & _).
  - fold B. rewrite HBs. lia.
  - unfold stripe_samples, Receiver.numberOfDetectorsPerModule. fold P. lia.
  - apply NoDup_seqZ.
  - intros d Hd. apply elem_of_seqZ in Hd.
    unfold stripe_samples, ring_slot, ring_of. fold P B. rewrite Hslot.
    unfold Receiver.numberOfDetectorsPerModule.
    split; [lia|]. split; [nia|].
    apply read_range_is_Some; try nia.
    specialize (Hbufs d ltac:(lia)). nia.
  - unfold Receiver.loadImage.
    rewrite decide_False by (unfold Int.SIZE_MAX in *; lia).
    rewrite Hreq. simpl. rewrite Hp, Hrun. simpl.
    unfold Img.valid in Hvalid.
    eexists _, _. split; [reflexivity|]. simpl.
    repeat split; try assumption.
    intros d Hd. unfold deref at 1. simpl. rewrite lookup_insert_eq. simpl.
    specialize (Hin d ltac:(apply elem_of_seqZ; lia)).
    unfold stripe_samples, ring_slot, ring_of in Hin.
    fold P B in Hin. rewrite Hslot in Hin.
    unfold Receiver.numberOfDetectorsPerModule in Hin.
    destruct (read_range_is_Some (default [] (Receiver.buffers_ r !! d))
                (k mod B * 16 * P) (16 * P)) as [stripe Hstripe]; try nia.
    { specialize (Hbufs d Hd). nia. }
    exists stripe. fold P B. split; [exact Hstripe|].
    replace (d * 16 * P) with (d * (16 * P)) by ring.
    now rewrite Hin.
Qed.

(** Where the configured [numberOfDetectors_ / numberOfDetectorModules_] is
    16, the width [loadImage] has as a constant, the stitching is the
    claimed one: [loadImage] returns the invalid Image when the
    notification yields [-1], and for a frame index [k] below [2 ^ 32],
    with a buffer free in the pool and the ring buffers and the pooled
    buffer large enough, a valid Image with frame index [k] and the start
    time read from the clock, where for every detector module [m] the
    stripe at ring-buffer slot [k mod bufferSize] of module [m] stands at
    offset [m * 16 * numberOfProjections]. *)
Theorem loadImage_stitches_when_width_is_16
    (r : Receiver.Receiver) (k now : Z) (pool pool1 : MemoryPool.MemoryPool)
    (m : Memory) (sino : Image) (p : addr) :
  0 <= k < 2 ^ 32 ->
  detectors_per_module r = 16 ->
  0 < Receiver.bufferSize_ r < 2 ^ 64 ->
  0 <= Receiver.numberOfProjections_ r ->
  Receiver.bufferSize_ r * 16 * Receiver.numberOfProjections_ r < 2 ^ 64 ->
  MemoryPool.requestMemory (Receiver.memoryPoolIndex_ r) pool
    = Returns (sino, pool1) ->
  Img.container sino = Some p ->
  Receiver.numberOfDetectorModules_ r * 16 * Receiver.numberOfProjections_ r
    <= Z.of_nat (length (deref m p)) ->
  (forall d, 0 <= d < Receiver.numberOfDetectorModules_ r ->
     Receiver.bufferSize_ r * 16 * Receiver.numberOfProjections_ r
     <= Z.of_nat (length (default [] (Receiver.buffers_ r !! d)))) ->
  loadImage_as_claimed r Int.SIZE_MAX now pool m
  /\ loadImage_as_claimed r k now pool m
  /\ exists img m',
       Receiver.loadImage r k now pool m = Returns (img, pool1, m')
       /\ Img.container img = Some p.
Proof.
  intros Hk Hwidth HB HP Hring Hreq Hp Hsino Hbufs.
  destruct (loadImage_stitches_16 r k now pool pool1 m sino p)
    as (Hshut & img & m' & Hload & Hvalid & Hidx & _ & Hstart & Hcont & Hst);
    try assumption.
  { unfold Int.SIZE_MAX, Int.size_t_bits. lia. }
  split; [|split].
  - unfold loadImage_as_claimed. rewrite Hshut.
    rewrite decide_True by reflexivity. reflexivity.
  - unfold loadImage_as_claimed. rewrite Hload.
    rewrite decide_False by (unfold Int.SIZE_MAX, Int.size_t_bits; lia).
    repeat split; try assumption.
    + rewrite Hidx. apply to_uint_small. lia.
    + exists p. split; [exact Hcont|]. now rewrite Hwidth.
  - now exists img, m'.
Qed.

Lemma loadImage_stitches_when_width_is_16_witness :
  loadImage_as_claimed receiver_32_2 Int.SIZE_MAX 77 receiver_32_2_pool.1
    receiver_32_2_pool.2
  /\ loadImage_as_claimed receiver_32_2 4 77 receiver_32_2_pool.1
       receiver_32_2_pool.2
  /\ exists img m',
       Receiver.loadImage receiver_32_2 4 77 receiver_32_2_pool.1
         receiver_32_2_pool.2 = Returns (img, receiver_pool_left, m')
       /\ Img.container img = Some 0%nat.
Proof.
  apply (loadImage_stitches_when_width_is_16 receiver_32_2 4 77
           receiver_32_2_pool.1 receiver_pool_left receiver_32_2_pool.2
           receiver_sino 0%nat).
  - lia.
  - reflexivity.
  - simpl. lia.
  - simpl. lia.
  - simpl. lia.
  - reflexivity.
  - reflexivity.
  - vm_compute. discriminate.
  - intros d Hd. simpl in Hd.
    assert (Hcases : d = 0 \/ d = 1) by lia.
    destruct Hcases as [-> | ->]; vm_compute; discriminate.
Defined.

(** C5.  [loadImage] stitches stripes of 16 detectors per module, the
    value of its local [numberOfDetectorsPerModule], where the claim and
    the constructor of the same class have
    [numberOfDetectors_ / numberOfDetectorModules_].  For 64 detectors in
    2 modules the constructor sizes each ring buffer for 32 detectors, and
    [loadImage] copies the first 16 detectors of each module, to the
    offsets 0 and 16 of the sinogram, and leaves the second half of the
    sinogram as the pool gave it; the claimed stripes are 32 detectors
    wide at the offsets 0 and 32.  The frame index [2 ^ 32] is carried by
    the Image as 0. *)
Theorem loadImage_ignores_configured_width :
  ReceiverStage.ring_elements (ReceiverConfig.mkMembers 64 1 2 1)
  = ReceiverStage.Built 32
  /\ Receiver.loadImage receiver_64_2 0 77 receiver_64_2_pool.1
       receiver_64_2_pool.2
     = Returns (mkImage 64 0 0 (Some 0%nat) 0 77 true 0, receiver_pool_left,
                mkMemory 2%nat
                  {[0%nat := seqZ 0 16 ++ seqZ 100 16 ++ replicate 32 0;
                    1%nat := replicate 64 0]})
  /\ detectors_per_module receiver_64_2 = 32
  /\ Receiver.numberOfDetectorsPerModule = 16
  /\ ~ loadImage_as_claimed receiver_64_2 0 77 receiver_64_2_pool.1
         receiver_64_2_pool.2
  /\ ~ loadImage_as_claimed receiver_32_2 (2 ^ 32) 77 receiver_32_2_pool.1
         receiver_32_2_pool.2.
Proof.
  assert (Hrun :
    Receiver.loadImage receiver_64_2 0 77 receiver_64_2_pool.1
      receiver_64_2_pool.2
    = Returns (mkImage 64 0 0 (Some 0%nat) 0 77 true 0, receiver_pool_left,
               mkMemory 2%nat
                 {[0%nat := seqZ 0 16 ++ seqZ 100 16 ++ replicate 32 0;
                   1%nat := replicate 64 0]}))
    by (vm_compute; reflexivity).
  split; [vm_compute; reflexivity|].
  split; [exact Hrun|]. split; [reflexivity|]. split; [reflexivity|]. split.
  - unfold loadImage_as_claimed. rewrite Hrun.
    rewrite decide_False by (vm_compute; discriminate).
    intros (_ & _ & _ & p & Hp & Hst). injection Hp as <-.
    destruct (Hst 0) as (stripe & Hring & Hsino); [simpl; lia|].
    vm_compute in Hring, Hsino. congruence.
  - unfold loadImage_as_claimed.
    destruct (Receiver.loadImage receiver_32_2 (2 ^ 32) 77 _ _)
      as [[[img pool] m']| | |] eqn:Hload; try tauto.
    apply loadImage_plane in Hload as [Hidx _];
      [|vm_compute; discriminate].
    rewrite decide_False by (vm_compute; discriminate).
    intros (_ & Hclaim & _). rewrite Hidx in Hclaim.
    vm_compute in Hclaim. discriminate Hclaim.
Qed.

(** ** The plane of a frame *)

(** The three workers keep [plane == index mod 2]. *)
Lemma stamps_keep_plane deviceID img out :
  plane_as_configured 2 img ->
  plane_as_configured 2 (H2D.stamp deviceID img out)
  /\ plane_as_configured 2 (Attenuation.stamp deviceID img out)
  /\ plane_as_configured 2 (D2H.stamp img out).
Proof.
  unfold plane_as_configured. intros H.
  repeat split; simpl; rewrite to_uint_mod_2; exact H.
Qed.

(** *** The stages keep a property of the Images *)

Lemma finish_images (P : Image -> Prop) K :
  P Img.Image_default -> Forall (event_images P) (finish K).
Proof.
  intros HP. unfold finish, for_each_device.
  apply Forall_app. split; [|apply Forall_app; split].
  - apply Forall_fmap, Forall_forall. intros i _. exact HP.
  - apply Forall_fmap, Forall_forall. intros i _. exact I.
  - constructor; [exact HP|constructor].
Qed.

(** [process] pushes the Image it was given, or the sentinels. *)
Lemma process_images (P : Image -> Prop) img :
  P Img.Image_default -> P img ->
  (forall st st' evs,
      H2D.process img st = Returns (st', evs) -> Forall (event_images P) evs)
  /\ (forall st st' evs,
        Attenuation.process img st = Returns (st', evs) ->
        Forall (event_images P) evs)
  /\ (forall st st' evs,
        D2H.process img st = Returns (st', evs) ->
        Forall (event_images P) evs).
Proof.
  intros Hs Himg. split; [|split]; intros st st' evs.
  - unfold H2D.process. destruct img as [sz ix pl dt mp stt [] dv]; simpl.
    + destruct (decide _); [discriminate|].
      intros [= _ <-]. constructor; [exact Himg|constructor].
    + intros [= _ <-]. now apply finish_images.
  - unfold Attenuation.process.
    destruct img as [sz ix pl dt mp stt [] dv]; simpl.
    + intros [= _ <-]. constructor; [exact Himg|constructor].
    + intros [= _ <-]. now apply finish_images.
  - unfold D2H.process. destruct img as [sz ix pl dt mp stt [] dv]; simpl.
    + intros [= _ <-]. constructor; [exact Himg|constructor].
    + intros [= _ <-]. now apply finish_images.
Qed.

Lemma process_stream_images {S : Type} (P : Image -> Prop)
    (process : Image -> S -> outcome (S * list event)) :
  (forall img st st' evs,
      P img -> process img st = Returns (st', evs) ->
      Forall (event_images P) evs) ->
  forall stream st st' evs,
    Forall P stream ->
    process_stream process stream st = Returns (st', evs) ->
    Forall (event_images P) evs.
Proof.
  intros Hstep stream.
  induction stream as [|img stream IH]; intros st st' evs Hall; cbn.
  - intros [= _ <-]. constructor.
  - apply Forall_cons in Hall as [Himg Hall].
    destruct (process img st) as [[st1 evs1]| | |] eqn:H1;
      cbn [mbind outcome_bind]; try discriminate.
    destruct (process_stream process stream st1) as [[st2 evs2]| | |] eqn:H2;
      cbn [mbind outcome_bind mret outcome_ret]; try discriminate.
    intros [= _ <-]. apply Forall_app. split.
    + now apply (Hstep img st st1).
    + now apply (IH st1 st2).
Qed.

(** What a worker publishes and what it leaves in its queue when it has
    left its loop. *)
Lemma worker_images (P : Image -> Prop) stamp poolIdx queue pin pout :
  (forall i out, P i -> P (stamp i out)) ->
  Forall P queue ->
  Forall P (published (worker_loop stamp poolIdx queue pin pout))
  /\ Forall P (queue_left (worker_loop stamp poolIdx queue pin pout)).
Proof.
  intros Hstamp. revert pin pout.
  induction queue as [|input rest IH]; intros pin pout Hall; cbn.
  - split; constructor.
  - apply Forall_cons in Hall as [Hin Hall].
    destruct (Img.valid input); cbn.
    + destruct (MemoryPool.requestMemory poolIdx pout) as [[out pout']| | |];
        cbn; try (split; [constructor|exact Hall]).
      destruct (IH (Image_dtor input pin) pout' Hall) as [Hpub Hleft].
      split; [|exact Hleft]. constructor; [now apply Hstamp|exact Hpub].
    + split; [constructor|exact Hall].
Qed.

Section StageKeeps.

Variable P : Image -> Prop.
Variable processor : Z -> list Image -> MemoryPool.MemoryPool ->
                     MemoryPool.MemoryPool -> worker_result.
Hypothesis processor_is_worker : forall t queue pin pout,
  exists stamp poolIdx,
    processor t queue pin pout = worker_loop stamp poolIdx queue pin pout
    /\ forall i out, P i -> P (stamp i out).

Lemma run_event_images ev s s' :
  event_images P ev -> held_images P s ->
  run_event processor ev s = Returns s' -> held_images P s'.
Proof.
  intros Hev [Hq Hres]. destruct ev as [q img|t|img]; cbn.
  - intros [= <-]. split; [|exact Hres]. cbn. intros q' imgs.
    destruct (decide (q' = q)) as [->|Hne].
    + rewrite lookup_insert_eq. intros [= <-].
      apply Forall_app. split; [|now constructor].
      destruct (queues s !! q) as [old|] eqn:Hold; cbn; [|constructor].
      now apply (Hq q).
    + rewrite lookup_insert_ne by congruence. apply Hq.
  - destruct (processor_is_worker t (default [] (queues s !! t))
                (run_in_pool s) (run_out_pool s))
      as (stamp & poolIdx & -> & Hstamp).
    assert (Hqueue : Forall P (default [] (queues s !! t))).
    { destruct (queues s !! t) as [old|] eqn:Hold; cbn; [|constructor].
      now apply (Hq t). }
    destruct (worker_images P stamp poolIdx _ (run_in_pool s)
                (run_out_pool s) Hstamp Hqueue) as [Hpub Hleft].
    destruct (status _); try discriminate.
    intros [= <-]. split; cbn.
    + intros q' imgs. destruct (decide (q' = t)) as [->|Hne].
      * rewrite lookup_insert_eq. now intros [= <-].
      * rewrite lookup_insert_ne by congruence. apply Hq.
    + apply Forall_app. now split.
  - intros [= <-]. split; [exact Hq|]. cbn.
    apply Forall_app. split; [exact Hres|now constructor].
Qed.

Lemma run_events_images evs : forall s s',
  Forall (event_images P) evs -> held_images P s ->
  run_events processor evs s = Returns s' -> held_images P s'.
Proof.
  induction evs as [|ev evs IH]; intros s s' Hall Hheld; cbn.
  - now intros [= <-].
  - apply Forall_cons in Hall as [Hev Hall].
    destruct (run_event processor ev s) as [s1| | |] eqn:H1;
      cbn [mbind outcome_bind]; try discriminate.
    apply IH; [exact Hall|]. now apply (run_event_images ev s s1).
Qed.

End StageKeeps.

(** H2D, Attenuation and D2H keep the relation of plane and index. *)
Lemma stages_keep_plane :
  plane_as_configured 2 Img.Image_default
  /\ (forall st,
        stage_keeps (plane_as_configured 2) H2D.process (H2D.processor st))
  /\ (forall st,
        stage_keeps (plane_as_configured 2) Attenuation.process
          (Attenuation.processor st))
  /\ (forall st,
        stage_keeps (plane_as_configured 2) D2H.process (D2H.processor st)).
Proof.
  assert (Hs : plane_as_configured 2 Img.Image_default) by reflexivity.
  split; [exact Hs|].
  split; [|split]; intros st0; (split; [|split]).
  - intros stream st st' evs Hall Hrun.
    apply (process_stream_images _ H2D.process) with stream st st';
      try assumption.
    intros img st1 st2 evs1 Himg.
    now apply (process_images (plane_as_configured 2) img Hs Himg).
  - intros t queue pin pout Hall. apply worker_images; [|exact Hall].
    intros i out Hi. now apply (stamps_keep_plane t i out).
  - intros evs s s' Hevs Hheld Hrun.
    apply (run_events_images _ (H2D.processor st0)) with evs s;
      try assumption.
    intros t queue pin pout. eexists _, _. split; [reflexivity|].
    intros i out Hi. now apply (stamps_keep_plane t i out).
  - intros stream st st' evs Hall Hrun.
    apply (process_stream_images _ Attenuation.process) with stream st st';
      try assumption.
    intros img st1 st2 evs1 Himg.
    now apply (process_images (plane_as_configured 2) img Hs Himg).
  - intros t queue pin pout Hall. apply worker_images; [|exact Hall].
    intros i out Hi. now apply (stamps_keep_plane t i out).
  - intros evs s s' Hevs Hheld Hrun.
    apply (run_events_images _ (Attenuation.processor st0)) with evs s;
      try assumption.
    intros t queue pin pout. eexists _, _. split; [reflexivity|].
    intros i out Hi. now apply (stamps_keep_plane t i out).
  - intros stream st st' evs Hall Hrun.
    apply (process_stream_images _ D2H.process) with stream st st';
      try assumption.
    intros img st1 st2 evs1 Himg.
    now apply (process_images (plane_as_configured 2) img Hs Himg).
  - intros t queue pin pout Hall. apply worker_images; [|exact Hall].
    intros i out Hi. now apply (stamps_keep_plane t i out).
  - intros evs s s' Hevs Hheld Hrun.
    apply (run_events_images _ (D2H.processor st0)) with evs s;
      try assumption.
    intros t queue pin pout. eexists _, _. split; [reflexivity|].
    intros i out Hi. now apply (stamps_keep_plane t i out).
Qed.

(** C2 (as amended).  The Image [loadImage] produces for the frame index
    [k] has plane [k mod 2], which is its index modulo 2.  H2D, Attenuation
    and D2H keep this relation: when it holds of every Image passed to
    [process], it holds of every Image [process] pushes to a worker queue
    or to the output queue; a worker on a queue of such Images publishes
    such Images and leaves such Images in its queue; so a stage that held
    such Images holds such Images after the events of [process] and its
    workers have run.  The sentinel has the relation as well.  It is
    [plane == index mod number_of_planes] when two planes are configured. *)
Theorem loadImage_plane_is_index_mod_2
    (r : Receiver.Receiver) (k now number_of_planes : Z)
    (pool pool' : MemoryPool.MemoryPool) (m m' : Memory) (img : Image) :
  0 <= k < Int.SIZE_MAX ->
  number_of_planes = 2 ->
  Receiver.loadImage r k now pool m = Returns (img, pool', m') ->
  Img.plane img = k mod 2
  /\ Img.plane img = k mod number_of_planes
  /\ plane_as_configured number_of_planes img
  /\ (forall deviceID b1 b2 b3,
        plane_as_configured number_of_planes
          (pipeline_output deviceID img b1 b2 b3))
  /\ plane_as_configured number_of_planes Img.Image_default
  /\ (forall st,
        stage_keeps (plane_as_configured number_of_planes) H2D.process
          (H2D.processor st))
  /\ (forall st,
        stage_keeps (plane_as_configured number_of_planes)
          Attenuation.process (Attenuation.processor st))
  /\ (forall st,
        stage_keeps (plane_as_configured number_of_planes) D2H.process
          (D2H.processor st)).
Proof.
  intros Hk -> Hload.
  destruct (loadImage_plane r k now pool m img pool' m') as [Hidx Hplane];
    [lia | exact Hload |].
  assert (Himg : plane_as_configured 2 img).
  { unfold plane_as_configured. now rewrite Hidx, to_uint_mod_2. }
  split; [exact Hplane|]. split; [exact Hplane|]. split; [exact Himg|].
  split; [|exact stages_keep_plane].
  intros deviceID b1 b2 b3. unfold pipeline_output.
  destruct (stamps_keep_plane deviceID img b1 Himg) as (H1 & _ & _).
  destruct (stamps_keep_plane deviceID _ b2 H1) as (_ & H2 & _).
  destruct (stamps_keep_plane deviceID _ b3 H2) as (_ & _ & H3).
  exact H3.
Qed.

Lemma loadImage_plane_is_index_mod_2_witness :
  Img.plane (mkImage 64 5 1 (Some 0%nat) 0 77 true 0) = 5 mod 2
  /\ Img.plane (mkImage 64 5 1 (Some 0%nat) 0 77 true 0) = 5 mod 2
  /\ plane_as_configured 2 (mkImage 64 5 1 (Some 0%nat) 0 77 true 0)
  /\ (forall deviceID b1 b2 b3,
        plane_as_configured 2
          (pipeline_output deviceID
            (mkImage 64 5 1 (Some 0%nat) 0 77 true 0) b1 b2 b3))
  /\ plane_as_configured 2 Img.Image_default
  /\ (forall st,
        stage_keeps (plane_as_configured 2) H2D.process (H2D.processor st))
  /\ (forall st,
        stage_keeps (plane_as_configured 2) Attenuation.process
          (Attenuation.processor st))
  /\ (forall st,
        stage_keeps (plane_as_configured 2) D2H.process (D2H.processor st)).
Proof.
  apply (loadImage_plane_is_index_mod_2 receiver_32_2 5 77 2
           receiver_32_2_pool.1 receiver_pool_left receiver_32_2_pool.2
           (mkMemory 2%nat
              {[0%nat := seqZ 64 32 ++ seqZ 1064 32; 1%nat := replicate 64 0]})).
  - unfold Int.SIZE_MAX, Int.size_t_bits. lia.
  - reflexivity.
  - vm_compute. reflexivity.
Defined.

(** The Image of frame 5 and the sentinel through the H2D stage on one
    device: both reach the output queue, frame 5 with plane 1. *)
Example h2d_stage_keeps_plane_of_frame_5 :
  exists st evs s,
    process_stream H2D.process
      [mkImage 64 5 1 (Some 0%nat) 0 77 true 0; Img.Image_default]
      (H2D.init 1 {[0 := 0]}) = Returns (st, evs)
    /\ run_events (H2D.processor st) evs (mkRun ∅ [] [[]] pool_of_two.1)
       = Returns s
    /\ (Img.index <$> results s) = [5; 0]
    /\ (Img.plane <$> results s) = [1; 0]
    /\ (Img.valid <$> results s) = [true; false].
Proof.
  eexists _, _, _. split; [vm_compute; reflexivity|].
  split; [vm_compute; reflexivity|]. repeat split.
Qed.

(** C2 (as stated) fails when three planes are configured: the Image of
    frame 2 has plane 0, not 2; and when one plane is configured: the
    Image of frame 1 has plane 1, not 0. *)
Lemma loadImage_plane_ignores_number_of_planes :
  (exists img pool m',
      Receiver.loadImage receiver_32_2 2 77 receiver_32_2_pool.1
        receiver_32_2_pool.2 = Returns (img, pool, m')
      /\ Img.index img = 2 /\ Img.plane img = 0
      /\ ~ plane_as_configured 3 img)
  /\ (exists img pool m',
        Receiver.loadImage receiver_32_2 1 77 receiver_32_2_pool.1
          receiver_32_2_pool.2 = Returns (img, pool, m')
        /\ Img.index img = 1 /\ Img.plane img = 1
        /\ ~ plane_as_configured 1 img).
Proof.
  split.
  - eexists _, _, _. split; [vm_compute; reflexivity|].
    repeat split. unfold plane_as_configured. vm_compute. discriminate.
  - eexists _, _, _. split; [vm_compute; reflexivity|].
    repeat split. unfold plane_as_configured. vm_compute. discriminate.
Qed.

(** ** A stream through H2D

    Three frames and the sentinel on two devices, the workers scheduled at
    their joins: the frames leave in per-device order with their indices,
    on the device round-robin gave them, and the one sentinel comes last. *)
Example h2d_three_frames_then_sentinel :
  exists st evs run,
    H2D.process_all [frame 1; frame 2; frame 3; Img.Image_default]
      (H2D.init 2 {[0 := 0; 1 := 1]}) = Returns (st, evs)
    /\ run_events (H2D.processor st) evs
         (mkRun ∅ [] [[]] device_pool.1) = Returns run
    /\ (Img.valid <$> results run) = [true; true; true; false]
    /\ (Img.index <$> results run) = [1; 3; 2; 0]
    /\ (Img.device <$> results run) = [0; 0; 1; 0]
    /\ queues run = {[0 := []; 1 := []]}
    /\ H2D.lostSinos_ st = 0.
Proof.
  eexists _, _, _. split; [vm_compute; reflexivity|].
  split; [vm_compute; reflexivity|]. vm_compute. repeat split.
Qed.

(** ** Metadata across a worker: one output per input *)




(** The run of the witness: the D2H worker with two free buffers publishes
    the frames 1 and 2 and leaves at the sentinel; with the frame 3 queued
    as well it publishes the same two and waits for memory. *)
Example worker_publishes_each_frame :
  let r := D2H.processor (D2H.mkD2H 1 0 0) 0
             [frame 1; frame 2; Img.Image_default] [[]] pool_of_two.1 in
  let r' := D2H.processor (D2H.mkD2H 1 0 0) 0
              [frame 1; frame 2; frame 3; Img.Image_default] [[]]
              pool_of_two.1 in
  status r = Exited /\ queue_left r = []
  /\ (Img.index <$> published r) = [1; 2]
  /\ (Img.plane <$> published r) = [1; 0]
  /\ status r' = WaitingForMemory /\ queue_left r' = [Img.Image_default]
  /\ (Img.index <$> published r') = [1; 2].
Proof. vm_compute. repeat split. Qed.


(** * Further properties of the sources *)

(** ** Image: ownership across moves, copy assignment *)

(** X1.  A move hands the duty to return the buffer over: the destruction
    of the moved-from source leaves the pool as it is, and the destruction
    of the destination does to the pool what the destruction of the
    original would have done, for the move constructor and for the move
    assignment; so the buffer goes back to the pool once. *)
Theorem image_move_returns_buffer_once
    (other this : Image) (pool : MemoryPool.MemoryPool) :
  Image_dtor (Img.Image_move other).2 pool = pool
  /\ Image_dtor (Img.Image_move other).1 pool = Image_dtor other pool
  /\ Image_dtor (Img.Image_move_assign this other).2 pool = pool
  /\ Image_dtor (Img.Image_move_assign this other).1 pool
     = Image_dtor other pool
  /\ Image_dtor (Img.Image_move (Img.Image_move other).1).1 pool
     = Image_dtor other pool
  /\ Image_dtor (Img.Image_move (Img.Image_move other).2).1 pool = pool.
Proof. destruct other; repeat split. Qed.

Lemma image_copy_assign_fresh this rhs m src :
  data_ rhs = Some src ->
  allocated m src ->
  length (deref m src) = Z.to_nat (size_ rhs) ->
  exists p,
    data_ (Img.Image_copy_assign this rhs m).1 = Some p
    /\ ~ allocated m p
    /\ deref (Img.Image_copy_assign this rhs m).2 p = deref m src
    /\ deref (Img.Image_copy_assign this rhs m).2 src = deref m src.
Proof.
  intros Hd Ha Hl. unfold Img.Image_copy_assign. rewrite Hd. simpl.
  unfold allocated in *. exists (next_free m). repeat split.
  - lia.
  - unfold copy, deref; simpl. rewrite lookup_insert_eq; simpl.
    rewrite lookup_insert_eq; simpl.
    rewrite lookup_insert_ne by lia.
    fold (deref m src). rewrite overwrite_all.
    + apply take_ge. lia.
    + rewrite length_replicate, length_take. lia.
  - unfold copy, deref; simpl.
    rewrite !lookup_insert_ne by lia. reflexivity.
Qed.

(** X2.  The copy assignment [a = rhs] of an Image with a buffer gives [a]
    the size, index, plane, validity and start time of [rhs] and a fresh
    buffer with the content of the buffer of [rhs], which stays as it is;
    [a] keeps its own pool index and device.  The copy constructor, on the
    same Image, keeps pool index and device of the source and drops the
    start time. *)
Theorem image_copy_assign_keeps_pool_index
    (this rhs : Image) (m : Memory) (src : addr) :
  data_ rhs = Some src ->
  allocated m src ->
  length (deref m src) = Z.to_nat (size_ rhs) ->
  (Img.size (Img.Image_copy_assign this rhs m).1 = Img.size rhs
   /\ Img.index (Img.Image_copy_assign this rhs m).1 = Img.index rhs
   /\ Img.plane (Img.Image_copy_assign this rhs m).1 = Img.plane rhs
   /\ Img.valid (Img.Image_copy_assign this rhs m).1 = Img.valid rhs
   /\ Img.start (Img.Image_copy_assign this rhs m).1 = Img.start rhs)
  /\ (Img.memoryPoolIndex (Img.Image_copy_assign this rhs m).1
      = Img.memoryPoolIndex this
      /\ Img.device (Img.Image_copy_assign this rhs m).1 = Img.device this)
  /\ (exists p,
        data_ (Img.Image_copy_assign this rhs m).1 = Some p
        /\ ~ allocated m p
        /\ deref (Img.Image_copy_assign this rhs m).2 p = deref m src
        /\ deref (Img.Image_copy_assign this rhs m).2 src = deref m src)
  /\ (Img.memoryPoolIndex (Img.Image_copy rhs m).1 = Img.memoryPoolIndex rhs
      /\ Img.device (Img.Image_copy rhs m).1 = Img.device rhs
      /\ Img.start (Img.Image_copy rhs m).1 = 0).
Proof.
  intros Hd Ha Hl.
  split; [|split; [|split]].
  - unfold Img.Image_copy_assign. rewrite Hd. repeat split.
  - unfold Img.Image_copy_assign. rewrite Hd. repeat split.
  - now apply image_copy_assign_fresh.
  - unfold Img.Image_copy. rewrite Hd. repeat split.
Qed.

Lemma image_copy_assign_keeps_pool_index_witness :
  (Img.size (Img.Image_copy_assign (frame 9) image_of_three.1
               image_of_three.2).1 = Img.size image_of_three.1
   /\ Img.index (Img.Image_copy_assign (frame 9) image_of_three.1
                   image_of_three.2).1 = Img.index image_of_three.1
   /\ Img.plane (Img.Image_copy_assign (frame 9) image_of_three.1
                   image_of_three.2).1 = Img.plane image_of_three.1
   /\ Img.valid (Img.Image_copy_assign (frame 9) image_of_three.1
                   image_of_three.2).1 = Img.valid image_of_three.1
   /\ Img.start (Img.Image_copy_assign (frame 9) image_of_three.1
                   image_of_three.2).1 = Img.start image_of_three.1)
  /\ (Img.memoryPoolIndex (Img.Image_copy_assign (frame 9) image_of_three.1
                             image_of_three.2).1
      = Img.memoryPoolIndex (frame 9)
      /\ Img.device (Img.Image_copy_assign (frame 9) image_of_three.1
                       image_of_three.2).1 = Img.device (frame 9))
  /\ (exists p,
        data_ (Img.Image_copy_assign (frame 9) image_of_three.1
                 image_of_three.2).1 = Some p
        /\ ~ allocated image_of_three.2 p
        /\ deref (Img.Image_copy_assign (frame 9) image_of_three.1
                    image_of_three.2).2 p = deref image_of_three.2 0%nat
        /\ deref (Img.Image_copy_assign (frame 9) image_of_three.1
                    image_of_three.2).2 0%nat = deref image_of_three.2 0%nat)
  /\ (Img.memoryPoolIndex (Img.Image_copy image_of_three.1
                             image_of_three.2).1
      = Img.memoryPoolIndex image_of_three.1
      /\ Img.device (Img.Image_copy image_of_three.1 image_of_three.2).1
         = Img.device image_of_three.1
      /\ Img.start (Img.Image_copy image_of_three.1 image_of_three.2).1 = 0).
Proof.
  apply (image_copy_assign_keeps_pool_index (frame 9) image_of_three.1
           image_of_three.2 0%nat).
  - reflexivity.
  - unfold allocated; simpl. lia.
  - reflexivity.
Defined.

(** ** The frame index along the pipeline *)

Lemma to_uint_idempotent z : Int.to_uint (Int.to_uint z) = Int.to_uint z.
Proof. apply to_uint_small, to_uint_range. Qed.

(** X3.  The index is narrowed once: whatever index the input of the first
    worker has, the Image a later worker (Attenuation, D2H) publishes has
    the index, plane and start of the Image the worker before it
    published, and the Image that leaves H2D, Attenuation and D2H in turn
    has the index of the input modulo [2 ^ 32], its plane and its start. *)
Theorem index_narrowed_once (deviceID : Z) (img b1 b2 b3 : Image) :
  same_frame (H2D.stamp deviceID img b1)
    (Attenuation.stamp deviceID (H2D.stamp deviceID img b1) b2)
  /\ same_frame (Attenuation.stamp deviceID (H2D.stamp deviceID img b1) b2)
       (pipeline_output deviceID img b1 b2 b3)
  /\ same_frame_narrowed img (pipeline_output deviceID img b1 b2 b3)
  /\ 0 <= Img.index (pipeline_output deviceID img b1 b2 b3) < 2 ^ 32.
Proof.
  unfold same_frame, same_frame_narrowed, pipeline_output. simpl.
  rewrite !to_uint_idempotent. repeat split; apply to_uint_range.
Qed.

(** ** Volume: slices, copies and moves *)

(** A slice of a volume whose buffer holds all its elements. *)
Lemma volume_slice_content v i m base :
  vdata_ v = Some base ->
  allocated m base ->
  0 <= width_ v -> 0 <= height_ v ->
  0 <= i < depth_ v ->
  width_ v * height_ v * depth_ v <= Z.of_nat (length (deref m base)) ->
  width_ v * height_ v * depth_ v < 2 ^ 64 ->
  exists img m',
    Vol.operator_idx v i m = Returns (img, m')
    /\ Img.valid img = true
    /\ Img.container img = Some (next_free m)
    /\ deref m' (next_free m)
       = take (Z.to_nat (width_ v * height_ v))
           (drop (Z.to_nat (i * (width_ v * height_ v))) (deref m base))
    /\ deref m' base = deref m base
    /\ next_free m' = S (next_free m).
Proof.
  intros Hd Ha Hw Hh Hi Hlen Hsmall. unfold allocated in Ha.
  set (n := width_ v * height_ v) in *.
  assert (Hn : 0 <= n) by (unfold n; nia).
  assert (Hin : i * n + n <= n * depth_ v) by nia.
  unfold Vol.operator_idx, Vol.elements. rewrite decide_False by lia.
  rewrite Hd.
  replace (i * width_ v * height_ v) with (i * n) by (unfold n; ring).
  fold n. rewrite !to_size_t_small by nia.
  unfold read_range. rewrite decide_True by nia.
  unfold Vol.make_ptr_2D. fold n. simpl.
  eexists _, _. split; [reflexivity|]. simpl. repeat split.
  - unfold deref at 1. simpl. rewrite lookup_insert_eq. simpl.
    unfold deref at 1. simpl. rewrite lookup_insert_eq. simpl.
    apply overwrite_all.
    rewrite length_replicate, length_take, length_drop. nia.
  - unfold deref. simpl. rewrite !lookup_insert_ne by lia. reflexivity.
Qed.

(** X4.  For a slice index below the depth, [operator[]] of a Volume whose
    buffer holds all [width * height * depth] elements returns a valid
    Image on a buffer that was not allocated before; the buffer holds the
    [width * height] elements of the Volume from [i * width * height] on,
    and the buffer of the Volume keeps its content. *)
Theorem volume_slice_is_fresh_copy
    (v : Volume) (i : Z) (m : Memory) (base : addr) :
  vdata_ v = Some base ->
  allocated m base ->
  0 <= width_ v -> 0 <= height_ v ->
  0 <= i < depth_ v ->
  width_ v * height_ v * depth_ v <= Z.of_nat (length (deref m base)) ->
  width_ v * height_ v * depth_ v < 2 ^ 64 ->
  exists img m' p,
    Vol.operator_idx v i m = Returns (img, m')
    /\ Img.valid img = true
    /\ Img.container img = Some p
    /\ ~ allocated m p /\ p <> base
    /\ read_range (deref m base) (i * (width_ v * height_ v))
         (width_ v * height_ v) = Some (deref m' p)
    /\ deref m' base = deref m base.
Proof.
  intros Hd Ha Hw Hh Hi Hlen Hsmall.
  destruct (volume_slice_content v i m base)
    as (img & m' & Hrun & Hv & Hc & Hcontent & Hbase & _); try assumption.
  exists img, m', (next_free m). unfold allocated in *.
  repeat split; try assumption; try lia.
  unfold read_range. rewrite decide_True by nia. now rewrite Hcontent.
Qed.

Lemma volume_slice_is_fresh_copy_witness :
  exists img m' p,
    Vol.operator_idx volume_2_3_4.1 3 volume_2_3_4.2 = Returns (img, m')
    /\ Img.valid img = true
    /\ Img.container img = Some p
    /\ ~ allocated volume_2_3_4.2 p /\ p <> 0%nat
    /\ read_range (deref volume_2_3_4.2 0%nat)
         (3 * (width_ volume_2_3_4.1 * height_ volume_2_3_4.1))
         (width_ volume_2_3_4.1 * height_ volume_2_3_4.1)
       = Some (deref m' p)
    /\ deref m' 0%nat = deref volume_2_3_4.2 0%nat.
Proof.
  apply (volume_slice_is_fresh_copy volume_2_3_4.1 3 volume_2_3_4.2 0%nat).
  - reflexivity.
  - unfold allocated; simpl. lia.
  - simpl. lia.
  - simpl. lia.
  - simpl. lia.
  - vm_compute. discriminate.
  - simpl. lia.
Defined.

(** Slice access through a null buffer pointer: [nullptr + sliceIdx] and
    the copy of [width_ * height_] elements from there are defined only
    for the empty range. *)
Lemma volume_slice_null v i m :
  vdata_ v = None ->
  i < depth_ v ->
  (Int.to_size_t (width_ v * height_ v) <> 0 ->
   Vol.operator_idx v i m = Undefined)
  /\ (Int.to_size_t (width_ v * height_ v) = 0 ->
      exists img m',
        Vol.operator_idx v i m = Returns (img, m')
        /\ Img.valid img = true
        /\ Img.container img = Some (next_free m)).
Proof.
  intros Hd Hi. unfold Vol.operator_idx, Vol.elements.
  rewrite decide_False by lia. rewrite Hd.
  pose proof (to_size_t_range (width_ v * height_ v)) as Hn.
  pose proof (to_size_t_range (i * width_ v * height_ v)) as Hs.
  split; intros Harea.
  - unfold read_range. rewrite decide_False; [reflexivity|].
    cbn [length]. lia.
  - assert (Hzero : Int.to_size_t (i * width_ v * height_ v) = 0).
    { unfold Int.to_size_t in *.
      replace (i * width_ v * height_ v) with (i * (width_ v * height_ v))
        by ring.
      rewrite Z.mul_mod by (unfold Int.size_t_bits; lia).
      rewrite Harea, Z.mul_0_r. reflexivity. }
    rewrite Hzero, Harea. cbn [read_range].
    eexists _, _. split; [reflexivity|]. split; reflexivity.
Qed.

(** X5.  The move constructor of Volume takes the buffer and leaves the
    validity flag of the source as it was: a valid source still reports
    [valid()] and its depth, and slice access to it below the depth goes
    through a null pointer: it reads [width * height] elements from it,
    which is undefined unless that product, as a [size_type], is 0 (then
    nothing is read and an Image on a fresh buffer is returned).  The move
    assignment ends with the source invalid.  Both hand buffer, dimensions
    and validity to the destination. *)
Theorem volume_move_leaves_source_flag
    (other this : Volume) (i : Z) (m : Memory) :
  0 <= i < depth_ other ->
  (Vol.Volume_move other).1 = other
  /\ (Vol.Volume_move_assign this other).1 = other
  /\ vvalid_ (Vol.Volume_move other).2 = vvalid_ other
  /\ vvalid_ (Vol.Volume_move_assign this other).2 = false
  /\ depth_ (Vol.Volume_move other).2 = depth_ other
  /\ vdata_ (Vol.Volume_move other).2 = None
  /\ (Int.to_size_t (width_ other * height_ other) <> 0 ->
      Vol.operator_idx (Vol.Volume_move other).2 i m = Undefined)
  /\ (Int.to_size_t (width_ other * height_ other) = 0 ->
      exists img m',
        Vol.operator_idx (Vol.Volume_move other).2 i m = Returns (img, m')
        /\ Img.valid img = true
        /\ Img.container img = Some (next_free m)).
Proof.
  intros Hi. destruct other as [w h d p valid]; simpl in *.
  do 6 (split; [reflexivity|]).
  apply (volume_slice_null (mkVolume w h d None valid) i m);
    [reflexivity | simpl; lia].
Qed.

Lemma volume_move_leaves_source_flag_witness :
  (Vol.Volume_move volume_2_3_4.1).1 = volume_2_3_4.1
  /\ (Vol.Volume_move_assign Vol.Volume_default volume_2_3_4.1).1
     = volume_2_3_4.1
  /\ vvalid_ (Vol.Volume_move volume_2_3_4.1).2 = vvalid_ volume_2_3_4.1
  /\ vvalid_ (Vol.Volume_move_assign Vol.Volume_default volume_2_3_4.1).2
     = false
  /\ depth_ (Vol.Volume_move volume_2_3_4.1).2 = depth_ volume_2_3_4.1
  /\ vdata_ (Vol.Volume_move volume_2_3_4.1).2 = None
  /\ (Int.to_size_t (width_ volume_2_3_4.1 * height_ volume_2_3_4.1) <> 0 ->
      Vol.operator_idx (Vol.Volume_move volume_2_3_4.1).2 1 volume_2_3_4.2
      = Undefined)
  /\ (Int.to_size_t (width_ volume_2_3_4.1 * height_ volume_2_3_4.1) = 0 ->
      exists img m',
        Vol.operator_idx (Vol.Volume_move volume_2_3_4.1).2 1 volume_2_3_4.2
        = Returns (img, m')
        /\ Img.valid img = true
        /\ Img.container img = Some (next_free volume_2_3_4.2)).
Proof.
  apply (volume_move_leaves_source_flag volume_2_3_4.1 Vol.Volume_default 1
           volume_2_3_4.2).
  simpl. lia.
Defined.

(** The two cases on samples: the moved-from Volume of 2 x 3 x 4 elements,
    and a moved-from Volume of width 0. *)
Example volume_slice_after_move :
  Vol.operator_idx (Vol.Volume_move volume_2_3_4.1).2 1 volume_2_3_4.2
  = Undefined
  /\ Vol.operator_idx (Vol.Volume_move (mkVolume 0 3 4 (Some 0%nat) true)).2
       1 volume_2_3_4.2
     = Returns (mkImage 0 3 1 (Some 1%nat) 0 0 true 0,
                mkMemory 2%nat
                  (<[1%nat := []]> (cells volume_2_3_4.2))).
Proof. split; vm_compute; reflexivity. Qed.

Lemma take_drop_take {A} (l : list A) (k n N : nat) :
  (k + n <= N)%nat -> take n (drop k (take N l)) = take n (drop k l).
Proof.
  intros H. rewrite !take_drop_commute, take_take.
  now replace (min (k + n) N) with (k + n)%nat by lia.
Qed.

Lemma volume_copy_content v m base :
  vdata_ v = Some base ->
  allocated m base ->
  width_ v * height_ v * depth_ v <= Z.of_nat (length (deref m base)) ->
  vdata_ (Vol.Volume_copy v m).1 = Some (next_free m)
  /\ deref (Vol.Volume_copy v m).2 (next_free m)
     = take (Z.to_nat (width_ v * height_ v * depth_ v)) (deref m base)
  /\ deref (Vol.Volume_copy v m).2 base = deref m base
  /\ next_free (Vol.Volume_copy v m).2 = S (next_free m).
Proof.
  intros Hd Ha Hlen. unfold allocated in Ha.
  unfold Vol.Volume_copy. rewrite Hd. simpl. repeat split.
  - unfold Vol.copy_3D, copy, deref. simpl. rewrite lookup_insert_eq. simpl.
    rewrite lookup_insert_eq. simpl. rewrite lookup_insert_ne by lia.
    fold (deref m base). apply overwrite_all.
    rewrite length_replicate, length_take. lia.
  - unfold Vol.copy_3D, copy, deref. simpl.
    rewrite !lookup_insert_ne by lia. reflexivity.
Qed.

(** X6.  The copy constructor of Volume gives a Volume of the same
    dimensions and validity on a buffer of its own whose slices are the
    slices of the source: slice [i] of the copy holds the [width * height]
    elements of the source from [i * width * height] on.  The copy
    assignment makes the same copy but keeps the validity flag of the
    Volume assigned to. *)
Theorem volume_copy_has_same_slices
    (v this : Volume) (i : Z) (m : Memory) (base : addr) :
  vdata_ v = Some base ->
  allocated m base ->
  0 <= width_ v -> 0 <= height_ v ->
  0 <= i < depth_ v ->
  width_ v * height_ v * depth_ v <= Z.of_nat (length (deref m base)) ->
  width_ v * height_ v * depth_ v < 2 ^ 64 ->
  (exists img m' p,
      Vol.operator_idx (Vol.Volume_copy v m).1 i (Vol.Volume_copy v m).2
      = Returns (img, m')
      /\ Img.container img = Some p
      /\ read_range (deref m base) (i * (width_ v * height_ v))
           (width_ v * height_ v) = Some (deref m' p))
  /\ vvalid_ (Vol.Volume_copy v m).1 = vvalid_ v
  /\ depth_ (Vol.Volume_copy v m).1 = depth_ v
  /\ vdata_ (Vol.Volume_copy v m).1 <> Some base
  /\ deref (Vol.Volume_copy v m).2 base = deref m base
  /\ vvalid_ (Vol.Volume_copy_assign this v m).1 = vvalid_ this
  /\ vdata_ (Vol.Volume_copy_assign this v m).1
     = vdata_ (Vol.Volume_copy v m).1
  /\ (Vol.Volume_copy_assign this v m).2 = (Vol.Volume_copy v m).2.
Proof.
  intros Hd Ha Hw Hh Hi Hlen Hsmall.
  destruct (volume_copy_content v m base Hd Ha Hlen)
    as (Hcd & Hcc & Hcb & Hnext).
  assert (Hdims : width_ (Vol.Volume_copy v m).1 = width_ v
                  /\ height_ (Vol.Volume_copy v m).1 = height_ v
                  /\ depth_ (Vol.Volume_copy v m).1 = depth_ v
                  /\ vvalid_ (Vol.Volume_copy v m).1 = vvalid_ v).
  { unfold Vol.Volume_copy. rewrite Hd. simpl. repeat split. }
  destruct Hdims as (Hcw & Hch & Hcdp & Hcv).
  set (n := width_ v * height_ v) in *.
  assert (Hn : 0 <= n) by (unfold n; nia).
  assert (Hin : i * n + n <= n * depth_ v) by nia.
  split; [|repeat split].
  - destruct (volume_slice_content (Vol.Volume_copy v m).1 i
                (Vol.Volume_copy v m).2 (next_free m))
      as (img & m' & Hrun & _ & Hc & Hcontent & _ & _).
    + exact Hcd.
    + unfold allocated. rewrite Hnext. lia.
    + now rewrite Hcw.
    + now rewrite Hch.
    + now rewrite Hcdp.
    + rewrite Hcw, Hch, Hcdp, Hcc, length_take. fold n. lia.
    + now rewrite Hcw, Hch, Hcdp.
    + exists img, m', (next_free (Vol.Volume_copy v m).2).
      split; [exact Hrun|]. split; [exact Hc|].
      rewrite Hcontent, Hcw, Hch, Hcc. fold n.
      unfold read_range. rewrite decide_True by nia. f_equal.
      symmetry. apply take_drop_take. nia.
  - exact Hcv.
  - exact Hcdp.
  - rewrite Hcd. unfold allocated in Ha. intros [= H]. lia.
  - exact Hcb.
  - unfold Vol.Volume_copy_assign. now rewrite Hd.
  - unfold Vol.Volume_copy_assign, Vol.Volume_copy. now rewrite Hd.
  - unfold Vol.Volume_copy_assign, Vol.Volume_copy. now rewrite Hd.
Qed.

Lemma volume_copy_has_same_slices_witness :
  (exists img m' p,
      Vol.operator_idx (Vol.Volume_copy volume_2_3_4.1 volume_2_3_4.2).1 2
        (Vol.Volume_copy volume_2_3_4.1 volume_2_3_4.2).2
      = Returns (img, m')
      /\ Img.container img = Some p
      /\ read_range (deref volume_2_3_4.2 0%nat)
           (2 * (width_ volume_2_3_4.1 * height_ volume_2_3_4.1))
           (width_ volume_2_3_4.1 * height_ volume_2_3_4.1)
         = Some (deref m' p))
  /\ vvalid_ (Vol.Volume_copy volume_2_3_4.1 volume_2_3_4.2).1
     = vvalid_ volume_2_3_4.1
  /\ depth_ (Vol.Volume_copy volume_2_3_4.1 volume_2_3_4.2).1
     = depth_ volume_2_3_4.1
  /\ vdata_ (Vol.Volume_copy volume_2_3_4.1 volume_2_3_4.2).1 <> Some 0%nat
  /\ deref (Vol.Volume_copy volume_2_3_4.1 volume_2_3_4.2).2 0%nat
     = deref volume_2_3_4.2 0%nat
  /\ vvalid_ (Vol.Volume_copy_assign Vol.Volume_default volume_2_3_4.1
                volume_2_3_4.2).1 = vvalid_ Vol.Volume_default
  /\ vdata_ (Vol.Volume_copy_assign Vol.Volume_default volume_2_3_4.1
               volume_2_3_4.2).1
     = vdata_ (Vol.Volume_copy volume_2_3_4.1 volume_2_3_4.2).1
  /\ (Vol.Volume_copy_assign Vol.Volume_default volume_2_3_4.1
        volume_2_3_4.2).2
     = (Vol.Volume_copy volume_2_3_4.1 volume_2_3_4.2).2.
Proof.
  apply (volume_copy_has_same_slices volume_2_3_4.1 Vol.Volume_default 2
           volume_2_3_4.2 0%nat).
  - reflexivity.
  - unfold allocated; simpl. lia.
  - simpl. lia.
  - simpl. lia.
  - simpl. lia.
  - vm_compute. discriminate.
  - simpl. lia.
Defined.

(** ** The worker loop *)

Lemma worker_all_valid_never_exits stamp poolIdx queue : forall pin pout,
  Forall (fun i => Img.valid i = true) queue ->
  status (worker_loop stamp poolIdx queue pin pout) <> Exited.
Proof.
  induction queue as [|input rest IH]; intros pin pout Hall; simpl.
  - discriminate.
  - apply Forall_cons in Hall as [Hv Hall]. rewrite Hv. simpl.
    destruct (MemoryPool.requestMemory poolIdx pout) as [[out pout']| | |];
      simpl; try discriminate.
    now apply IH.
Qed.

Lemma worker_exit_shape stamp poolIdx queue : forall pin pout,
  status (worker_loop stamp poolIdx queue pin pout) = Exited ->
  exists taken s,
    queue = taken ++ s :: queue_left (worker_loop stamp poolIdx queue pin pout)
    /\ Forall (fun i => Img.valid i = true) taken
    /\ Img.valid s = false
    /\ length (published (worker_loop stamp poolIdx queue pin pout))
       = length taken.
Proof.
  induction queue as [|input rest IH]; intros pin pout; simpl.
  - discriminate.
  - destruct (Img.valid input) eqn:Hv; simpl.
    + destruct (MemoryPool.requestMemory poolIdx pout) as [[out pout']| | |];
        simpl; try discriminate.
      intros Hst.
      destruct (IH _ _ Hst) as (taken & s & Hq & Hall & Hs & Hlen).
      exists (input :: taken), s. repeat split.
      * simpl. now rewrite <- Hq.
      * now constructor.
      * exact Hs.
      * simpl. now rewrite Hlen.
    + intros _. exists [], input. repeat split; [constructor | exact Hv].
Qed.

(** X7.  A worker leaves its loop only by taking an invalid Image: when the
    loop has been left, the queue was a run of valid Images, one output
    published for each, then an invalid Image, and what came after the
    invalid Image is still in the queue, neither taken nor published.  On a
    queue of valid Images only the loop is never left. *)
Theorem worker_leaves_only_on_sentinel
    (stamp : Image -> Image -> Image) (poolIdx : Z) (queue : list Image)
    (pin pout : MemoryPool.MemoryPool) :
  status (worker_loop stamp poolIdx queue pin pout) = Exited ->
  (exists taken s,
    queue = taken ++ s :: queue_left (worker_loop stamp poolIdx queue pin pout)
    /\ Forall (fun i => Img.valid i = true) taken
    /\ Img.valid s = false
    /\ length (published (worker_loop stamp poolIdx queue pin pout))
       = length taken)
  /\ ~ Forall (fun i => Img.valid i = true) queue.
Proof.
  intros Hst. split.
  - now apply worker_exit_shape.
  - intros Hall.
    now apply (worker_all_valid_never_exits stamp poolIdx queue pin pout).
Qed.

Lemma worker_leaves_only_on_sentinel_witness :
  status (worker_loop D2H.stamp 0 [frame 1; Img.Image_default; frame 2]
            pool_of_two.1 pool_of_two.1) = Exited
  /\ ((exists taken s,
        [frame 1; Img.Image_default; frame 2]
        = taken ++ s :: queue_left (worker_loop D2H.stamp 0
                                      [frame 1; Img.Image_default; frame 2]
                                      pool_of_two.1 pool_of_two.1)
        /\ Forall (fun i => Img.valid i = true) taken
        /\ Img.valid s = false
        /\ length (published (worker_loop D2H.stamp 0
                                [frame 1; Img.Image_default; frame 2]
                                pool_of_two.1 pool_of_two.1))
           = length taken)
      /\ ~ Forall (fun i => Img.valid i = true)
             [frame 1; Img.Image_default; frame 2]).
Proof.
  split.
  - reflexivity.
  - apply (worker_leaves_only_on_sentinel D2H.stamp 0
             [frame 1; Img.Image_default; frame 2]
             pool_of_two.1 pool_of_two.1).
    reflexivity.
Defined.

Lemma request_free_count idx pool out pool' :
  MemoryPool.requestMemory idx pool = Returns (out, pool') ->
  MemoryPool.free_count idx pool = S (MemoryPool.free_count idx pool')
  /\ forall j, j <> Z.to_nat idx -> pool' !! j = pool !! j.
Proof.
  unfold MemoryPool.requestMemory, MemoryPool.free_count.
  destruct (pool !! Z.to_nat idx) as [[|b free]|] eqn:Hl; try discriminate.
  intros [= <- <-]. split.
  - rewrite list_lookup_insert_eq by (now apply lookup_lt_Some in Hl).
    reflexivity.
  - intros j Hj. now rewrite list_lookup_insert_ne.
Qed.

Lemma request_blocks_free_count idx pool :
  (forall r, MemoryPool.requestMemory idx pool <> Returns r) ->
  MemoryPool.free_count idx pool = 0%nat.
Proof.
  unfold MemoryPool.requestMemory, MemoryPool.free_count.
  destruct (pool !! Z.to_nat idx) as [[|b free]|]; try reflexivity.
  intros H. exfalso. now eapply H.
Qed.

(** X8.  The buffers of a worker loop are accounted for, whatever the queue
    and the pools: every published output took one buffer from the free list
    of the worker's registration and from no other registration; a worker
    that waits for memory has used up that free list; the inputs that were
    worked through, and only these, were destroyed, in the order of the
    queue; and the queue is left without the Images taken (the invalid Image
    or the input held while waiting for memory being one of them). *)
Theorem worker_buffers_accounted
    (stamp : Image -> Image -> Image) (poolIdx : Z) (queue : list Image)
    (pin pout : MemoryPool.MemoryPool) :
  (MemoryPool.free_count poolIdx
     (out_pool (worker_loop stamp poolIdx queue pin pout))
   + length (published (worker_loop stamp poolIdx queue pin pout))
   = MemoryPool.free_count poolIdx pout)%nat
  /\ (status (worker_loop stamp poolIdx queue pin pout) = WaitingForMemory ->
      MemoryPool.free_count poolIdx
        (out_pool (worker_loop stamp poolIdx queue pin pout)) = 0%nat)
  /\ (forall j, j <> Z.to_nat poolIdx ->
      out_pool (worker_loop stamp poolIdx queue pin pout) !! j = pout !! j)
  /\ in_pool (worker_loop stamp poolIdx queue pin pout)
     = foldl (fun p i => Image_dtor i p) pin
         (take (length (published (worker_loop stamp poolIdx queue pin pout)))
               queue)
  /\ queue_left (worker_loop stamp poolIdx queue pin pout)
     = drop (length (published (worker_loop stamp poolIdx queue pin pout))
             + match status (worker_loop stamp poolIdx queue pin pout) with
               | WaitingForInput => 0
               | _ => 1
               end)%nat queue.
Proof.
  revert pin pout.
  induction queue as [|input rest IH]; intros pin pout; simpl.
  - split; [lia|]. split; [discriminate|]. now repeat split.
  - destruct (Img.valid input) eqn:Hv; simpl.
    + destruct (MemoryPool.requestMemory poolIdx pout) as [[out pout']| | |]
        eqn:Hreq; simpl.
      * destruct (request_free_count _ _ _ _ Hreq) as [Hfree Hother].
        destruct (IH (Image_dtor input pin) pout')
          as (Hcount & Hwait & Hrest & Hin & Hleft).
        repeat split.
        -- lia.
        -- exact Hwait.
        -- intros j Hj. now rewrite Hrest, Hother.
        -- exact Hin.
        -- exact Hleft.
      * split; [lia|]. split; [|now repeat split].
        intros _. apply request_blocks_free_count. intros r. now rewrite Hreq.
      * split; [lia|]. split; [|now repeat split].
        intros _. apply request_blocks_free_count. intros r. now rewrite Hreq.
      * split; [lia|]. split; [|now repeat split].
        intros _. apply request_blocks_free_count. intros r. now rewrite Hreq.
    + split; [lia|]. split; [discriminate|]. now repeat split.
Qed.

(** ** H2D over a stream *)

Lemma to_uint_add_congr a b c :
  Int.to_uint a = Int.to_uint b -> Int.to_uint (a + c) = Int.to_uint (b + c).
Proof.
  unfold Int.to_uint. intros H.
  rewrite <- (Zplus_mod_idemp_l a), H. now rewrite Zplus_mod_idemp_l.
Qed.

Lemma to_uint_to_size_t z : Int.to_uint (Int.to_size_t z) = Int.to_uint z.
Proof.
  unfold Int.to_uint, Int.to_size_t, Int.int_bits, Int.size_t_bits.
  apply Z.mod_mod_divide. exists (2 ^ 32). reflexivity.
Qed.

Lemma to_uint_to_int z : Int.to_uint (Int.to_int z) = Int.to_uint z.
Proof.
  unfold Int.to_uint, Int.to_int, Int.int_bits. change (32 - 1) with 31.
  rewrite Zminus_mod_idemp_l. f_equal. lia.
Qed.

Lemma to_size_t_add_l a b :
  Int.to_size_t (Int.to_size_t a + b) = Int.to_size_t (a + b).
Proof. unfold Int.to_size_t. apply Zplus_mod_idemp_l. Qed.

(** The state of H2D after a stream of valid images, from any state whose
    [lastDevice_] is a device. *)
Lemma h2d_process_all_valid stream : forall st,
  0 < H2D.numberOfDevices_ st ->
  0 <= H2D.lastDevice_ st < H2D.numberOfDevices_ st ->
  Forall (fun i => Img.valid i = true) stream ->
  exists st',
    H2D.process_all stream st
    = Returns (st',
               imap (fun i img =>
                       Push ((H2D.lastDevice_ st + Z.of_nat i)
                             mod H2D.numberOfDevices_ st) img) stream)
    /\ H2D.numberOfDevices_ st' = H2D.numberOfDevices_ st
    /\ H2D.memoryPoolIdxs_ st' = H2D.memoryPoolIdxs_ st
    /\ H2D.lastDevice_ st'
       = (H2D.lastDevice_ st + Z.of_nat (length stream))
         mod H2D.numberOfDevices_ st
    /\ (0 <= H2D.count_ st < 2 ^ 64 ->
        H2D.count_ st'
        = Int.to_size_t (H2D.count_ st + Z.of_nat (length stream)))
    /\ Int.to_uint (H2D.lostSinos_ st' - H2D.lastIndex_ st'
                    + Z.of_nat (length stream))
       = Int.to_uint (H2D.lostSinos_ st - H2D.lastIndex_ st).
Proof.
  induction stream as [|img stream IH]; intros st HK Hl Hall.
  - exists st. simpl. repeat split.
    + rewrite Z.add_0_r. symmetry. now apply Z.mod_small.
    + intros Hc. rewrite Z.add_0_r. symmetry. now apply to_size_t_small.
    + f_equal. lia.
  - apply Forall_cons in Hall as [Hv Hall].
    assert (HK0 : H2D.numberOfDevices_ st <> 0) by lia.
    pose proof (h2d_process_valid img st Hv HK0) as Hstep.
    remember (H2D.mkH2D (H2D.numberOfDevices_ st)
                (Z.rem (H2D.lastDevice_ st + 1) (H2D.numberOfDevices_ st))
                (Img.index img)
                (Int.to_size_t
                   (H2D.lostSinos_ st
                    + Int.to_int (Img.index img - H2D.lastIndex_ st - 1)))
                (Int.to_size_t (H2D.count_ st + 1))
                (H2D.memoryPoolIdxs_ st)) as st1 eqn:Est1.
    assert (Hrem : H2D.lastDevice_ st1
                   = (H2D.lastDevice_ st + 1) mod H2D.numberOfDevices_ st).
    { rewrite Est1. simpl. apply Z.rem_mod_nonneg; lia. }
    assert (HK1 : H2D.numberOfDevices_ st1 = H2D.numberOfDevices_ st)
      by now rewrite Est1.
    assert (Hm1 : H2D.memoryPoolIdxs_ st1 = H2D.memoryPoolIdxs_ st)
      by now rewrite Est1.
    assert (Hc1 : H2D.count_ st1 = Int.to_size_t (H2D.count_ st + 1))
      by now rewrite Est1.
    assert (Hi1 : H2D.lastIndex_ st1 = Img.index img) by now rewrite Est1.
    assert (Hl1 : H2D.lostSinos_ st1
                  = Int.to_size_t
                      (H2D.lostSinos_ st
                       + Int.to_int (Img.index img - H2D.lastIndex_ st - 1)))
      by now rewrite Est1.
    clear Est1.
    destruct (IH st1) as (st' & Hrun & HK' & Hidx & Hlast & Hcount & Hlost).
    { now rewrite HK1. }
    { rewrite Hrem, HK1. apply Z.mod_pos_bound. lia. }
    { exact Hall. }
    exists st'. cbn [H2D.process_all]. rewrite Hstep.
    cbn [mbind outcome_bind]. rewrite Hrun. cbn [mbind outcome_bind mret outcome_ret].
    split; [|repeat split].
    + f_equal. f_equal. cbn [app]. rewrite imap_cons. f_equal.
      * f_equal. now rewrite Z.add_0_r, Z.mod_small.
      * apply imap_ext. intros i x _. simpl. f_equal. rewrite Hrem, HK1.
        rewrite Zplus_mod_idemp_l. f_equal. lia.
    + now rewrite HK', HK1.
    + now rewrite Hidx, Hm1.
    + rewrite Hlast, Hrem, HK1.
      rewrite Zplus_mod_idemp_l. f_equal. simpl length. lia.
    + intros _. rewrite Hcount by (rewrite Hc1; apply to_size_t_range).
      rewrite Hc1, to_size_t_add_l. f_equal. simpl length. lia.
    + replace (H2D.lostSinos_ st' - H2D.lastIndex_ st'
               + Z.of_nat (length (img :: stream)))
        with (H2D.lostSinos_ st' - H2D.lastIndex_ st'
              + Z.of_nat (length stream) + 1) by (simpl length; lia).
      rewrite (to_uint_add_congr _ _ 1 Hlost). rewrite Hl1, Hi1.
      replace (Int.to_size_t
                 (H2D.lostSinos_ st
                  + Int.to_int (Img.index img - H2D.lastIndex_ st - 1))
               - Img.index img + 1)
        with (Int.to_size_t
                (H2D.lostSinos_ st
                 + Int.to_int (Img.index img - H2D.lastIndex_ st - 1))
              + (1 - Img.index img)) by lia.
      rewrite (to_uint_add_congr _ _ _ (to_uint_to_size_t _)).
      replace (H2D.lostSinos_ st
               + Int.to_int (Img.index img - H2D.lastIndex_ st - 1)
               + (1 - Img.index img))
        with (Int.to_int (Img.index img - H2D.lastIndex_ st - 1)
              + (H2D.lostSinos_ st + 1 - Img.index img)) by lia.
      rewrite (to_uint_add_congr _ _ _ (to_uint_to_int _)).
      f_equal. lia.
Qed.

Lemma pushed_to_imap_other q (f : nat -> Z) (l : list Image) :
  (forall i, f i <> q) ->
  pushed_to q (imap (fun i img => Push (f i) img) l) = [].
Proof.
  revert f. induction l as [|x l IH]; intros f Hf; [reflexivity|].
  rewrite imap_cons. cbn [pushed_to].
  rewrite decide_False by apply Hf.
  apply (IH (f ∘ S)). intros i. apply Hf.
Qed.

(** X9.  H2D hands a stream of valid Images to its devices in turn: from a
    state whose [lastDevice_] is a device, the i-th Image of the stream
    (counted from 0) is pushed to the worker queue
    [(lastDevice_ + i) mod numberOfDevices_], whatever device, index or
    plane the Images name; nothing is pushed to a queue that is no device,
    nothing is joined or written to the output, and [lastDevice_] is a
    device again afterwards. *)
Theorem h2d_round_robin_over_stream (stream : list Image) (st : H2D.H2D) :
  0 < H2D.numberOfDevices_ st ->
  0 <= H2D.lastDevice_ st < H2D.numberOfDevices_ st ->
  Forall (fun i => Img.valid i = true) stream ->
  exists st' evs,
    H2D.process_all stream st = Returns (st', evs)
    /\ evs = imap (fun i img =>
                     Push ((H2D.lastDevice_ st + Z.of_nat i)
                           mod H2D.numberOfDevices_ st) img) stream
    /\ (forall q, ~ 0 <= q < H2D.numberOfDevices_ st -> pushed_to q evs = [])
    /\ H2D.numberOfDevices_ st' = H2D.numberOfDevices_ st
    /\ H2D.memoryPoolIdxs_ st' = H2D.memoryPoolIdxs_ st
    /\ H2D.lastDevice_ st'
       = (H2D.lastDevice_ st + Z.of_nat (length stream))
         mod H2D.numberOfDevices_ st
    /\ 0 <= H2D.lastDevice_ st' < H2D.numberOfDevices_ st.
Proof.
  intros HK Hl Hall.
  destruct (h2d_process_all_valid stream st HK Hl Hall)
    as (st' & Hrun & HK' & Hidx & Hlast & _ & _).
  exists st', (imap (fun i img =>
                       Push ((H2D.lastDevice_ st + Z.of_nat i)
                             mod H2D.numberOfDevices_ st) img) stream).
  repeat split; try assumption.
  - intros q Hq. apply pushed_to_imap_other. intros i Heq. apply Hq.
    rewrite <- Heq. apply Z.mod_pos_bound. lia.
  - rewrite Hlast. apply Z.mod_pos_bound. lia.
  - rewrite Hlast. apply Z.mod_pos_bound. lia.
Qed.

Lemma h2d_round_robin_over_stream_witness :
  exists st' evs,
    H2D.process_all [frame_on_device 1 5; frame_on_device 1 6;
                     frame_on_device 0 7] (H2D.init 2 ∅)
    = Returns (st', evs)
    /\ evs = imap (fun i img =>
                     Push ((H2D.lastDevice_ (H2D.init 2 ∅) + Z.of_nat i)
                           mod H2D.numberOfDevices_ (H2D.init 2 ∅)) img)
               [frame_on_device 1 5; frame_on_device 1 6; frame_on_device 0 7]
    /\ (forall q, ~ 0 <= q < H2D.numberOfDevices_ (H2D.init 2 ∅) ->
                  pushed_to q evs = [])
    /\ H2D.numberOfDevices_ st' = H2D.numberOfDevices_ (H2D.init 2 ∅)
    /\ H2D.memoryPoolIdxs_ st' = H2D.memoryPoolIdxs_ (H2D.init 2 ∅)
    /\ H2D.lastDevice_ st'
       = (H2D.lastDevice_ (H2D.init 2 ∅)
          + Z.of_nat (length [frame_on_device 1 5; frame_on_device 1 6;
                              frame_on_device 0 7]))
         mod H2D.numberOfDevices_ (H2D.init 2 ∅)
    /\ 0 <= H2D.lastDevice_ st' < H2D.numberOfDevices_ (H2D.init 2 ∅).
Proof.
  apply (h2d_round_robin_over_stream
           [frame_on_device 1 5; frame_on_device 1 6; frame_on_device 0 7]
           (H2D.init 2 ∅)).
  - simpl. lia.
  - simpl. lia.
  - repeat constructor.
Defined.

(** X10.  The low 32 bits of the lost-frame counter of H2D follow the
    frame indices whatever their order: after any stream of valid Images,
    [lostSinos_ - lastIndex_ + (number of Images)] agrees modulo 2^32 with
    [lostSinos_ - lastIndex_] before the stream, also when indices repeat,
    fall or start at 0, and [count_] has grown by the number of Images
    (modulo 2^64). *)
Theorem h2d_lost_counter_low_bits (stream : list Image) (st : H2D.H2D) :
  0 < H2D.numberOfDevices_ st ->
  0 <= H2D.lastDevice_ st < H2D.numberOfDevices_ st ->
  0 <= H2D.count_ st < 2 ^ 64 ->
  Forall (fun i => Img.valid i = true) stream ->
  exists st' evs,
    H2D.process_all stream st = Returns (st', evs)
    /\ Int.to_uint (H2D.lostSinos_ st' - H2D.lastIndex_ st'
                    + Z.of_nat (length stream))
       = Int.to_uint (H2D.lostSinos_ st - H2D.lastIndex_ st)
    /\ H2D.count_ st'
       = Int.to_size_t (H2D.count_ st + Z.of_nat (length stream)).
Proof.
  intros HK Hl Hc Hall.
  destruct (h2d_process_all_valid stream st HK Hl Hall)
    as (st' & Hrun & _ & _ & _ & Hcount & Hlost).
  exists st'. eexists. split; [exact Hrun|]. split; [exact Hlost|].
  now apply Hcount.
Qed.

Lemma h2d_lost_counter_low_bits_witness :
  exists st' evs,
    H2D.process_all [frame 0; frame 7; frame 3; frame 3] (H2D.init 2 ∅)
    = Returns (st', evs)
    /\ Int.to_uint (H2D.lostSinos_ st' - H2D.lastIndex_ st'
                    + Z.of_nat (length [frame 0; frame 7; frame 3; frame 3]))
       = Int.to_uint (H2D.lostSinos_ (H2D.init 2 ∅)
                      - H2D.lastIndex_ (H2D.init 2 ∅))
    /\ H2D.count_ st'
       = Int.to_size_t
           (H2D.count_ (H2D.init 2 ∅)
            + Z.of_nat (length [frame 0; frame 7; frame 3; frame 3])).
Proof.
  apply (h2d_lost_counter_low_bits [frame 0; frame 7; frame 3; frame 3]
           (H2D.init 2 ∅)).
  - simpl. lia.
  - simpl. lia.
  - simpl. lia.
  - repeat constructor.
Defined.

(** ** Streams through the stages that route by device *)

Section DeviceRouting.

Context {S : Type}.
Variable process : Image -> S -> outcome (S * list event).
Variable K : S -> Z.
Hypothesis process_valid : forall img st,
  Img.valid img = true ->
  exists st1, process img st = Returns (st1, [Push (Img.device img) img])
              /\ K st1 = K st.
Hypothesis process_invalid : forall img st,
  Img.valid img = false -> process img st = Returns (st, finish (K st)).

Lemma process_stream_valid stream : forall st,
  Forall (fun i => Img.valid i = true) stream ->
  exists st' evs,
    process_stream process stream st = Returns (st', evs)
    /\ K st' = K st
    /\ (forall q, pushed_to q evs = for_device q stream)
    /\ joined evs = [] /\ outputs evs = [].
Proof.
  induction stream as [|img stream IH]; intros st Hall.
  - exists st, []. now repeat split.
  - apply Forall_cons in Hall as [Hv Hall].
    destruct (process_valid img st Hv) as (st1 & Hstep & HK1).
    destruct (IH st1 Hall) as (st' & evs & Hrun & HK' & Hpush & Hjoin & Hout).
    exists st', (Push (Img.device img) img :: evs).
    cbn [process_stream]. rewrite Hstep. cbn [mbind outcome_bind].
    rewrite Hrun. cbn [mbind outcome_bind mret outcome_ret app].
    repeat split.
    + now rewrite HK', HK1.
    + intros q. cbn [pushed_to]. rewrite Hpush. unfold for_device.
      destruct (decide (Img.device img = q)) as [Hq|Hq].
      * now rewrite filter_cons_True.
      * now rewrite filter_cons_False.
    + exact Hjoin.
    + exact Hout.
Qed.

Lemma process_stream_shutdown stream s st :
  Forall (fun i => Img.valid i = true) stream ->
  Img.valid s = false ->
  exists st' evs,
    process_stream process (stream ++ [s]) st = Returns (st', evs)
    /\ K st' = K st
    /\ (forall q, pushed_to q evs
                  = for_device q stream
                    ++ if decide (0 <= q < K st) then [Img.Image_default]
                       else [])
    /\ joined evs = seqZ 0 (K st)
    /\ outputs evs = [Img.Image_default].
Proof.
  revert st. induction stream as [|img stream IH]; intros st Hall Hs.
  - exists st, (finish (K st)). cbn [app process_stream].
    rewrite (process_invalid s st Hs). cbn [mbind outcome_bind mret outcome_ret].
    rewrite app_nil_r.
    destruct (finish_protocol (K st)) as (_ & _ & Hpush & Hjoin & Hout & _).
    now repeat split.
  - apply Forall_cons in Hall as [Hv Hall].
    destruct (process_valid img st Hv) as (st1 & Hstep & HK1).
    destruct (IH st1 Hall Hs)
      as (st' & evs & Hrun & HK' & Hpush & Hjoin & Hout).
    exists st', (Push (Img.device img) img :: evs).
    cbn [app process_stream]. rewrite Hstep. cbn [mbind outcome_bind].
    rewrite Hrun. cbn [mbind outcome_bind mret outcome_ret app].
    repeat split.
    + now rewrite HK', HK1.
    + intros q. cbn [pushed_to]. rewrite Hpush, HK1. unfold for_device.
      destruct (decide (Img.device img = q)) as [Hq|Hq].
      * now rewrite filter_cons_True.
      * now rewrite filter_cons_False.
    + cbn [joined]. now rewrite Hjoin, HK1.
    + exact Hout.
Qed.

End DeviceRouting.

(** X11.  D2H, Attenuation and the Template skeleton keep the order of a
    stream per device: when valid Images and then the sentinel have gone
    through [process], the worker queue of device [q] holds the Images that
    name [q], in the order they came, and after them the one invalid Image;
    the workers 0, ..., K-1 were joined and one invalid Image went to the
    output.  An Image that names no device of the stage sits in a queue
    that gets no invalid Image and whose worker is not joined. *)
Theorem stream_reaches_workers_in_order (stream : list Image) (s : Image) :
  Forall (fun i => Img.valid i = true) stream ->
  Img.valid s = false ->
  (forall st, exists st' evs,
      process_stream D2H.process (stream ++ [s]) st = Returns (st', evs)
      /\ shut_down_in_order (D2H.numberOfDevices_ st) stream evs)
  /\ (forall st, exists st' evs,
      process_stream Attenuation.process (stream ++ [s]) st
      = Returns (st', evs)
      /\ shut_down_in_order (Attenuation.numberOfDevices_ st) stream evs)
  /\ (forall st, exists st' evs,
      process_stream Template.process (stream ++ [s]) st = Returns (st', evs)
      /\ shut_down_in_order (Template.numberOfDevices_ st) stream evs).
Proof.
  intros Hall Hs. repeat split; intros st.
  - destruct (process_stream_shutdown D2H.process D2H.numberOfDevices_)
      with (stream := stream) (s := s) (st := st)
      as (st' & evs & Hrun & _ & Hrest); try assumption.
    + intros img st0 Hv. eexists. split; [now apply d2h_process_valid|].
      reflexivity.
    + intros img st0 Hv. unfold D2H.process. now rewrite Hv.
    + now exists st', evs.
  - destruct (process_stream_shutdown Attenuation.process
                Attenuation.numberOfDevices_)
      with (stream := stream) (s := s) (st := st)
      as (st' & evs & Hrun & _ & Hrest); try assumption.
    + intros img st0 Hv. eexists.
      split; [now apply attenuation_process_valid|]. reflexivity.
    + intros img st0 Hv. unfold Attenuation.process. now rewrite Hv.
    + now exists st', evs.
  - destruct (process_stream_shutdown Template.process
                Template.numberOfDevices_)
      with (stream := stream) (s := s) (st := st)
      as (st' & evs & Hrun & _ & Hrest); try assumption.
    + intros img st0 Hv. eexists.
      split; [now apply template_process_valid|]. reflexivity.
    + intros img st0 Hv. unfold Template.process. now rewrite Hv.
    + now exists st', evs.
Qed.

Lemma stream_reaches_workers_in_order_witness :
  (forall st, exists st' evs,
      process_stream D2H.process
        (frames_on_two_devices ++ [Img.Image_default]) st
      = Returns (st', evs)
      /\ shut_down_in_order (D2H.numberOfDevices_ st)
           frames_on_two_devices evs)
  /\ (forall st, exists st' evs,
      process_stream Attenuation.process
        (frames_on_two_devices ++ [Img.Image_default]) st
      = Returns (st', evs)
      /\ shut_down_in_order (Attenuation.numberOfDevices_ st)
           frames_on_two_devices evs)
  /\ (forall st, exists st' evs,
      process_stream Template.process
        (frames_on_two_devices ++ [Img.Image_default]) st
      = Returns (st', evs)
      /\ shut_down_in_order (Template.numberOfDevices_ st)
           frames_on_two_devices evs).
Proof.
  apply (stream_reaches_workers_in_order frames_on_two_devices
           Img.Image_default).
  - repeat constructor.
  - reflexivity.
Defined.

Lemma worker_runs_queue stamp poolIdx frames s rest : forall pin pout,
  Forall (fun i => Img.valid i = true) frames ->
  Img.valid s = false ->
  ((length frames <= MemoryPool.free_count poolIdx pout)%nat ->
   status (worker_loop stamp poolIdx (frames ++ s :: rest) pin pout) = Exited
   /\ queue_left (worker_loop stamp poolIdx (frames ++ s :: rest) pin pout)
      = rest
   /\ Forall2 (fun i o => exists b, o = stamp i b) frames
        (published (worker_loop stamp poolIdx (frames ++ s :: rest) pin pout)))
  /\ ((MemoryPool.free_count poolIdx pout < length frames)%nat ->
      status (worker_loop stamp poolIdx (frames ++ s :: rest) pin pout)
      = WaitingForMemory
      /\ length (published
                   (worker_loop stamp poolIdx (frames ++ s :: rest) pin pout))
         = MemoryPool.free_count poolIdx pout).
Proof.
  induction frames as [|input frames IH]; intros pin pout Hall Hs.
  - cbn [app]. rewrite worker_exits_on_invalid by exact Hs. split.
    + intros _. repeat split. constructor.
    + simpl. lia.
  - apply Forall_cons in Hall as [Hv Hall].
    cbn [app worker_loop]. rewrite Hv. cbn [negb].
    destruct (MemoryPool.requestMemory poolIdx pout) as [[out pout']| | |]
      eqn:Hreq.
    + destruct (request_free_count _ _ _ _ Hreq) as [Hfree _].
      destruct (IH (Image_dtor input pin) pout' Hall Hs) as [Henough Hshort].
      cbn [status queue_left published]. split.
      * intros Hle. destruct Henough as (Hst & Hleft & Hpub);
          [simpl in Hle; lia|].
        repeat split; try assumption.
        constructor; [now exists out | exact Hpub].
      * intros Hlt. destruct Hshort as (Hst & Hlen); [simpl in Hlt; lia|].
        split; [exact Hst|]. simpl. lia.
    + assert (Hzero : MemoryPool.free_count poolIdx pout = 0%nat).
      { apply request_blocks_free_count. intros r. now rewrite Hreq. }
      rewrite Hzero. cbn [status queue_left published]. split.
      * simpl. lia.
      * intros _. now split.
    + assert (Hzero : MemoryPool.free_count poolIdx pout = 0%nat).
      { apply request_blocks_free_count. intros r. now rewrite Hreq. }
      rewrite Hzero. cbn [status queue_left published]. split.
      * simpl. lia.
      * intros _. now split.
    + assert (Hzero : MemoryPool.free_count poolIdx pout = 0%nat).
      { apply request_blocks_free_count. intros r. now rewrite Hreq. }
      rewrite Hzero. cbn [status queue_left published]. split.
      * simpl. lia.
      * intros _. now split.
Qed.



(** ** The Receiver: what loadImage touches *)

Lemma stitch_module_Some r k d sino out :
  Receiver.stitch_module r k d sino = Some out ->
  0 <= 16 * Receiver.numberOfProjections_ r
  /\ 0 <= d * 16 * Receiver.numberOfProjections_ r
  /\ d * 16 * Receiver.numberOfProjections_ r
     + 16 * Receiver.numberOfProjections_ r <= Z.of_nat (length sino)
  /\ length out = length sino
  /\ forall i : nat,
       Z.of_nat i < d * 16 * Receiver.numberOfProjections_ r
       \/ d * 16 * Receiver.numberOfProjections_ r
          + 16 * Receiver.numberOfProjections_ r <= Z.of_nat i ->
       out !! i = sino !! i.
Proof.
  unfold Receiver.stitch_module, Receiver.numberOfDetectorsPerModule.
  destruct (decide _) as [|_]; [discriminate|].
  destruct (read_range _ _ _) as [stripe|] eqn:Hread; [|discriminate].
  cbn [mbind option_bind]. intros Hwrite.
  pose proof (read_range_Some _ _ _ _ Hread) as (_ & Hn & _ & _).
  pose proof (read_range_length _ _ _ _ Hread) as Hlen.
  pose proof (write_range_Some _ _ _ _ Hwrite) as (Hoff & Hfit & _).
  repeat split; try lia.
  - now apply write_range_length in Hwrite.
  - intros i Hi. rewrite (write_range_lookup _ _ _ _ _ Hwrite).
    rewrite decide_False by lia. reflexivity.
Qed.

Lemma stitch_Some r k modules : forall sino out,
  Receiver.stitch r k modules sino = Some out ->
  length out = length sino
  /\ (forall d, d ∈ modules ->
        0 <= d * 16 * Receiver.numberOfProjections_ r
        /\ d * 16 * Receiver.numberOfProjections_ r
           + 16 * Receiver.numberOfProjections_ r <= Z.of_nat (length sino))
  /\ (forall i : nat,
        (forall d, d ∈ modules ->
           Z.of_nat i < d * 16 * Receiver.numberOfProjections_ r
           \/ d * 16 * Receiver.numberOfProjections_ r
              + 16 * Receiver.numberOfProjections_ r <= Z.of_nat i) ->
        out !! i = sino !! i).
Proof.
  induction modules as [|d modules IH]; intros sino out; cbn [Receiver.stitch].
  - intros [= <-]. split; [reflexivity|]. split; [|reflexivity].
    intros d Hd. now apply elem_of_nil in Hd.
  - destruct (Receiver.stitch_module r k d sino) as [sino'|] eqn:Hmod;
      [|discriminate].
    cbn [mbind option_bind]. intros Hrest.
    destruct (stitch_module_Some _ _ _ _ _ Hmod)
      as (Hn & Hoff & Hfit & Hlen & Hframe).
    destruct (IH _ _ Hrest) as (Hlen' & Hfits & Hframe').
    split; [|split].
    + now rewrite Hlen', Hlen.
    + intros d' Hd'. apply elem_of_cons in Hd' as [->|Hin]; [now split|].
      rewrite <- Hlen. now apply Hfits.
    + intros i Hi. rewrite Hframe'.
      * apply Hframe, Hi, list_elem_of_here.
      * intros d' Hd'. apply Hi. now apply list_elem_of_further.
Qed.

(** What [loadImage] leaves as it was. *)
Lemma loadImage_frame
    (r : Receiver.Receiver) (k now : Z)
    (pool : MemoryPool.MemoryPool) (m : Memory) :
  k <> Int.SIZE_MAX ->
  (MemoryPool.free_count (Receiver.memoryPoolIndex_ r) pool = 0%nat ->
   Receiver.loadImage r k now pool m = Blocks)
  /\ (forall img pool' m',
      Receiver.loadImage r k now pool m = Returns (img, pool', m') ->
      exists p,
        Img.container img = Some p
        /\ Img.valid img = true
        /\ Img.memoryPoolIndex img = Receiver.memoryPoolIndex_ r
        /\ S (MemoryPool.free_count (Receiver.memoryPoolIndex_ r) pool')
           = MemoryPool.free_count (Receiver.memoryPoolIndex_ r) pool
        /\ next_free m' = next_free m
        /\ (forall q, q <> p -> deref m' q = deref m q)
        /\ length (deref m' p) = length (deref m p)
        /\ (0 < Receiver.numberOfDetectorModules_ r ->
            Receiver.numberOfDetectorModules_ r * 16
            * Receiver.numberOfProjections_ r
            <= Z.of_nat (length (deref m p)))
        /\ (forall i : nat,
              Receiver.numberOfDetectorModules_ r * 16
              * Receiver.numberOfProjections_ r <= Z.of_nat i ->
              deref m' p !! i = deref m p !! i)).
Proof.
  intros Hk. unfold Receiver.loadImage. rewrite decide_False by exact Hk.
  split.
  - unfold MemoryPool.free_count, MemoryPool.requestMemory.
    destruct (pool !! Z.to_nat (Receiver.memoryPoolIndex_ r)) as [[|b free]|];
      try reflexivity.
    discriminate.
  - intros img pool' m'.
    destruct (MemoryPool.requestMemory _ _) as [[sino pool1]| | |] eqn:Hreq;
      cbn [mbind outcome_bind]; try discriminate.
    destruct (request_gives_valid _ _ _ _ Hreq) as (Hvalid & Hidx & Hfree).
    destruct (Img.container sino) as [p|] eqn:Hp; [|discriminate].
    destruct (Receiver.stitch _ _ _ _) as [content|] eqn:Hstitch;
      [|discriminate].
    destruct (stitch_Some _ _ _ _ _ Hstitch) as (Hlen & Hfits & Hframe).
    destruct sino as [sz ix pl dt mp stt vl dv]. simpl in Hvalid, Hidx, Hp.
    subst vl mp dt. unfold Image_dtor. simpl.
    intros [= <- <- <-]. exists p. simpl.
    split; [reflexivity|]. split; [reflexivity|]. split; [reflexivity|].
    split; [exact Hfree|]. split; [reflexivity|].
    assert (Hderef : deref {| next_free := next_free m;
                              cells := <[p:=content]> (cells m) |} p
                     = content).
    { unfold deref. simpl. now rewrite lookup_insert_eq. }
    split; [|split; [|split]].
    + intros q Hq. unfold deref. simpl. now rewrite lookup_insert_ne.
    + now rewrite Hderef.
    + intros HM.
      destruct (Hfits (Receiver.numberOfDetectorModules_ r - 1)) as [_ Hlast].
      { apply elem_of_seqZ. lia. }
      lia.
    + intros i Hi. rewrite Hderef. apply Hframe.
      intros d Hd. apply elem_of_seqZ in Hd. right.
      destruct (Hfits d) as [_ Hd']; [apply elem_of_seqZ; lia|].
      destruct (Hfits 0) as [_ H0]; [apply elem_of_seqZ; lia|].
      nia.
Qed.

(** The buffer of the Image [loadImage] returns is one of the free list
    of the registration, and the free list has lost it and no other; the
    other registrations are as they were. *)
Lemma loadImage_takes_free_buffer
    (r : Receiver.Receiver) (k now : Z)
    (pool pool' : MemoryPool.MemoryPool) (m m' : Memory) (img : Image) :
  k <> Int.SIZE_MAX ->
  Receiver.loadImage r k now pool m = Returns (img, pool', m') ->
  exists b,
    Img.container img = MemoryPool.buf_ptr b
    /\ b ∈ default [] (pool !! Z.to_nat (Receiver.memoryPoolIndex_ r))
    /\ default [] (pool !! Z.to_nat (Receiver.memoryPoolIndex_ r))
       ≡ₚ b :: default [] (pool' !! Z.to_nat (Receiver.memoryPoolIndex_ r))
    /\ length pool' = length pool
    /\ forall j : nat,
         j <> Z.to_nat (Receiver.memoryPoolIndex_ r) -> pool' !! j = pool !! j.
Proof.
  intros Hk. unfold Receiver.loadImage. rewrite decide_False by exact Hk.
  unfold MemoryPool.requestMemory.
  destruct (pool !! Z.to_nat (Receiver.memoryPoolIndex_ r))
    as [[|b free]|] eqn:Hfree; cbn [mbind outcome_bind]; try discriminate.
  cbn [Img.container data_].
  destruct (MemoryPool.buf_ptr b) as [p|] eqn:Hp; [|discriminate].
  destruct (Receiver.stitch _ _ _ _) as [content|]; [|discriminate].
  unfold Image_dtor. simpl. intros [= <- <- <-]. exists b. simpl.
  split; [now rewrite Hp|]. split; [apply list_elem_of_here|].
  split; [|split].
  - rewrite list_lookup_insert_eq by (now apply lookup_lt_Some in Hfree).
    reflexivity.
  - apply length_insert.
  - intros j Hj. now rewrite list_lookup_insert_ne by congruence.
Qed.

(** X13.  What [Receiver::loadImage] touches, for a frame index that is not
    the shutdown value.  With no free buffer in its registration it blocks
    in [requestMemory].  When it returns, the Image is valid, names the
    registration of the Receiver and holds a buffer that was in the free
    list of that registration; the free list has lost this buffer and no
    other and is one shorter, and the other registrations are as they
    were.  Nothing was allocated, every other buffer has its content, the
    buffer has its length, it had room for the stripes of all modules, and
    its elements behind the last stripe (from
    [numberOfDetectorModules_ * 16 * numberOfProjections_] on) are what the
    buffer held before. *)
Theorem loadImage_touches_only_its_buffer
    (r : Receiver.Receiver) (k now : Z)
    (pool : MemoryPool.MemoryPool) (m : Memory) :
  k <> Int.SIZE_MAX ->
  (MemoryPool.free_count (Receiver.memoryPoolIndex_ r) pool = 0%nat ->
   Receiver.loadImage r k now pool m = Blocks)
  /\ (forall img pool' m',
      Receiver.loadImage r k now pool m = Returns (img, pool', m') ->
      exists p,
        Img.container img = Some p
        /\ (exists b,
              MemoryPool.buf_ptr b = Some p
              /\ b ∈ default []
                       (pool !! Z.to_nat (Receiver.memoryPoolIndex_ r))
              /\ default [] (pool !! Z.to_nat (Receiver.memoryPoolIndex_ r))
                 ≡ₚ b :: default []
                           (pool' !! Z.to_nat (Receiver.memoryPoolIndex_ r))
              /\ forall j : nat,
                   j <> Z.to_nat (Receiver.memoryPoolIndex_ r) ->
                   pool' !! j = pool !! j)
        /\ Img.valid img = true
        /\ Img.memoryPoolIndex img = Receiver.memoryPoolIndex_ r
        /\ S (MemoryPool.free_count (Receiver.memoryPoolIndex_ r) pool')
           = MemoryPool.free_count (Receiver.memoryPoolIndex_ r) pool
        /\ next_free m' = next_free m
        /\ (forall q, q <> p -> deref m' q = deref m q)
        /\ length (deref m' p) = length (deref m p)
        /\ (0 < Receiver.numberOfDetectorModules_ r ->
            Receiver.numberOfDetectorModules_ r * 16
            * Receiver.numberOfProjections_ r
            <= Z.of_nat (length (deref m p)))
        /\ (forall i : nat,
              Receiver.numberOfDetectorModules_ r * 16
              * Receiver.numberOfProjections_ r <= Z.of_nat i ->
              deref m' p !! i = deref m p !! i)).
Proof.
  intros Hk. destruct (loadImage_frame r k now pool m Hk) as [Hblock Hrun].
  split; [exact Hblock|].
  intros img pool' m' Hload.
  destruct (Hrun img pool' m' Hload) as (p & Hp & Hrest).
  destruct (loadImage_takes_free_buffer r k now pool pool' m m' img Hk Hload)
    as (b & Hb & Hin & Hperm & _ & Hother).
  exists p. split; [exact Hp|]. split; [|exact Hrest].
  exists b. split; [congruence|]. split; [exact Hin|].
  split; [exact Hperm|exact Hother].
Qed.

Lemma loadImage_touches_only_its_buffer_witness :
  5 <> Int.SIZE_MAX
  /\ (MemoryPool.free_count (Receiver.memoryPoolIndex_ receiver_32_2)
        receiver_32_2_pool.1 = 0%nat ->
      Receiver.loadImage receiver_32_2 5 9 receiver_32_2_pool.1
        receiver_32_2_pool.2 = Blocks)
  /\ (forall img pool' m',
      Receiver.loadImage receiver_32_2 5 9 receiver_32_2_pool.1
        receiver_32_2_pool.2 = Returns (img, pool', m') ->
      exists p,
        Img.container img = Some p
        /\ (exists b,
              MemoryPool.buf_ptr b = Some p
              /\ b ∈ default []
                       (receiver_32_2_pool.1
                          !! Z.to_nat
                               (Receiver.memoryPoolIndex_ receiver_32_2))
              /\ default []
                   (receiver_32_2_pool.1
                      !! Z.to_nat (Receiver.memoryPoolIndex_ receiver_32_2))
                 ≡ₚ b :: default []
                           (pool'
                              !! Z.to_nat
                                   (Receiver.memoryPoolIndex_ receiver_32_2))
              /\ forall j : nat,
                   j <> Z.to_nat (Receiver.memoryPoolIndex_ receiver_32_2) ->
                   pool' !! j = receiver_32_2_pool.1 !! j)
        /\ Img.valid img = true
        /\ Img.memoryPoolIndex img = Receiver.memoryPoolIndex_ receiver_32_2
        /\ S (MemoryPool.free_count (Receiver.memoryPoolIndex_ receiver_32_2)
                pool')
           = MemoryPool.free_count (Receiver.memoryPoolIndex_ receiver_32_2)
               receiver_32_2_pool.1
        /\ next_free m' = next_free receiver_32_2_pool.2
        /\ (forall q, q <> p -> deref m' q = deref receiver_32_2_pool.2 q)
        /\ length (deref m' p) = length (deref receiver_32_2_pool.2 p)
        /\ (0 < Receiver.numberOfDetectorModules_ receiver_32_2 ->
            Receiver.numberOfDetectorModules_ receiver_32_2 * 16
            * Receiver.numberOfProjections_ receiver_32_2
            <= Z.of_nat (length (deref receiver_32_2_pool.2 p)))
        /\ (forall i : nat,
              Receiver.numberOfDetectorModules_ receiver_32_2 * 16
              * Receiver.numberOfProjections_ receiver_32_2 <= Z.of_nat i ->
              deref m' p !! i = deref receiver_32_2_pool.2 p !! i)).
Proof.
  split.
  - vm_compute. discriminate.
  - apply (loadImage_touches_only_its_buffer receiver_32_2 5 9
             receiver_32_2_pool.1 receiver_32_2_pool.2).
    vm_compute. discriminate.
Defined.

(** ** The Receiver: the constructor and loadImage *)

Lemma preallocate_spec count elements device : forall m,
  length (MemoryPool.preallocate count elements device m).1 = count
  /\ next_free (MemoryPool.preallocate count elements device m).2
     = (next_free m + count)%nat
  /\ (forall q, (q < next_free m)%nat ->
        cells (MemoryPool.preallocate count elements device m).2 !! q
        = cells m !! q)
  /\ (forall i, (i < count)%nat ->
        (MemoryPool.preallocate count elements device m).1 !! i
        = Some (MemoryPool.mkBuffer (Some (next_free m + i)%nat)
                  elements device)
        /\ deref (MemoryPool.preallocate count elements device m).2
             (next_free m + i)%nat
           = replicate (Z.to_nat elements) 0).
Proof.
  induction count as [|count IH]; intros m.
  - simpl. split; [reflexivity|]. split; [lia|]. split; [reflexivity|].
    intros i Hi. lia.
  - cbn [MemoryPool.preallocate].
    destruct (make_ptr elements m) as [p m1] eqn:Hmk.
    assert (Hp : p = next_free m) by (unfold make_ptr in Hmk; congruence).
    assert (Hm1 : next_free m1 = S (next_free m))
      by (unfold make_ptr in Hmk; injection Hmk as _ <-; reflexivity).
    assert (Hc1 : cells m1
                  = <[next_free m := replicate (Z.to_nat elements) 0]>
                      (cells m))
      by (unfold make_ptr in Hmk; injection Hmk as _ <-; reflexivity).
    specialize (IH m1).
    destruct (MemoryPool.preallocate count elements device m1) as [bs m2].
    cbn [fst snd] in *. destruct IH as (Hlen & Hnext & Hold & Hbufs).
    split; [simpl; now rewrite Hlen|]. split; [lia|]. split.
    + intros q Hq. rewrite Hold by lia. rewrite Hc1.
      apply lookup_insert_ne. lia.
    + intros [|i] Hi.
      * split; [simpl; rewrite Hp; f_equal; f_equal; f_equal; lia|].
        unfold deref. rewrite Nat.add_0_r, Hold by lia.
        rewrite Hc1, lookup_insert_eq. reflexivity.
      * destruct (Hbufs i) as [Hb Hd]; [lia|].
        rewrite Hm1 in Hb, Hd.
        replace (next_free m + S i)%nat with (S (next_free m) + i)%nat by lia.
        split; [exact Hb | exact Hd].
Qed.

Lemma emplace_all_lookup v keys : forall (buffers : gmap Z (list Z)) d,
  foldl (fun b i => ReceiverStage.emplace i v b) buffers keys !! d
  = match buffers !! d with
    | Some x => Some x
    | None => if decide (d ∈ keys) then Some v else None
    end.
Proof.
  induction keys as [|i keys IH]; intros buffers d; cbn [foldl].
  - rewrite decide_False by apply not_elem_of_nil. now destruct (buffers !! d).
  - rewrite IH. unfold ReceiverStage.emplace.
    destruct (decide (d = i)) as [->|Hne].
    + rewrite (decide_True (P := i ∈ i :: keys)) by apply list_elem_of_here.
      destruct (buffers !! i) as [x|] eqn:Hi.
      * now rewrite Hi.
      * now rewrite lookup_insert_eq.
    + assert (Hsame : (match buffers !! i with
                       | Some _ => buffers
                       | None => <[i:=v]> buffers
                       end) !! d = buffers !! d).
      { destruct (buffers !! i); [reflexivity|]. now apply lookup_insert_ne. }
      rewrite Hsame. destruct (buffers !! d); [reflexivity|].
      destruct (decide (d ∈ keys)) as [Hin|Hin].
      * rewrite decide_True; [reflexivity|]. now apply list_elem_of_further.
      * rewrite decide_False; [reflexivity|].
        intros [?|?]%elem_of_cons; contradiction.
Qed.

(** The Receiver the constructor makes from members in the range of a
    configuration: ring buffers of the configured size for the modules
    0, ..., M-1 and a registration of 100 buffers of
    [numberOfDetectors_ * numberOfProjections_] elements. *)
Lemma constructor_body_built (ms : ReceiverConfig.members)
    (pool : MemoryPool.MemoryPool) (m : Memory) :
  1 <= ReceiverConfig.numberOfDetectorModules_ ms < 2 ^ 31 ->
  0 <= ReceiverConfig.numberOfDetectors_ ms ->
  1 <= ReceiverConfig.bufferSize_ ms ->
  1 <= ReceiverConfig.numberOfProjections_ ms ->
  ReceiverConfig.numberOfDetectors_ ms
  * ReceiverConfig.numberOfProjections_ ms < 2 ^ 31 ->
  ReceiverConfig.bufferSize_ ms
  * Z.quot (ReceiverConfig.numberOfDetectors_ ms)
           (ReceiverConfig.numberOfDetectorModules_ ms)
  * ReceiverConfig.numberOfProjections_ ms < 2 ^ 31 ->
  exists r pool' m' sino pool1,
    ReceiverStage.constructor_body ms pool m = ReceiverStage.Built (r, pool', m')
    /\ Receiver.numberOfDetectors_ r = ReceiverConfig.numberOfDetectors_ ms
    /\ Receiver.numberOfDetectorModules_ r
       = ReceiverConfig.numberOfDetectorModules_ ms
    /\ Receiver.bufferSize_ r = ReceiverConfig.bufferSize_ ms
    /\ Receiver.numberOfProjections_ r
       = ReceiverConfig.numberOfProjections_ ms
    /\ (forall d, 0 <= d < ReceiverConfig.numberOfDetectorModules_ ms ->
          Receiver.buffers_ r !! d
          = Some (replicate
                    (Z.to_nat
                       (ReceiverConfig.bufferSize_ ms
                        * Z.quot (ReceiverConfig.numberOfDetectors_ ms)
                                 (ReceiverConfig.numberOfDetectorModules_ ms)
                        * ReceiverConfig.numberOfProjections_ ms)) 0))
    /\ MemoryPool.free_count (Receiver.memoryPoolIndex_ r) pool' = 100%nat
    /\ MemoryPool.requestMemory (Receiver.memoryPoolIndex_ r) pool'
       = Returns (sino, pool1)
    /\ Img.container sino = Some (next_free m)
    /\ deref m' (next_free m)
       = replicate (Z.to_nat (ReceiverConfig.numberOfDetectors_ ms
                              * ReceiverConfig.numberOfProjections_ ms)) 0
    /\ pool_sized (Receiver.memoryPoolIndex_ r)
         (ReceiverConfig.numberOfDetectors_ ms
          * ReceiverConfig.numberOfProjections_ ms) pool' m'.
Proof.
  intros HM Hnd HB HP Hel Hring.
  set (M := ReceiverConfig.numberOfDetectorModules_ ms) in *.
  set (nd := ReceiverConfig.numberOfDetectors_ ms) in *.
  set (B := ReceiverConfig.bufferSize_ ms) in *.
  set (P := ReceiverConfig.numberOfProjections_ ms) in *.
  assert (Hq : 0 <= Z.quot nd M <= nd).
  { rewrite Z.quot_div_nonneg by lia. split.
    - apply Z.div_pos; lia.
    - apply Z.div_le_upper_bound; nia. }
  assert (HMu : Int.to_uint M = M) by (apply to_uint_small; lia).
  unfold ReceiverStage.constructor_body, ReceiverStage.make_buffers,
    ReceiverStage.ring_elements.
  fold M nd B P. rewrite HMu.
  rewrite (decide_False (P := M = 0)) by lia.
  rewrite decide_True by (unfold ReceiverStage.fits_int; nia).
  rewrite (decide_True (P := 0 <= B * Z.quot nd M * P)) by nia.
  rewrite (decide_False (P := M < 0)) by lia.
  rewrite decide_True by (unfold ReceiverStage.fits_int; nia).
  rewrite (decide_True (P := 0 <= nd * P)) by nia.
  unfold MemoryPool.registerStage.
  pose proof (preallocate_spec 100 (nd * P) 0 m) as (Hlen & _ & _ & Hbufs).
  change (Z.to_nat 100) with 100%nat.
  destruct (MemoryPool.preallocate 100 (nd * P) 0 m) as [bs m'] eqn:Hpre.
  cbn [fst snd] in *.
  assert (Hsized : Forall (fun b => exists p,
                      MemoryPool.buf_ptr b = Some p
                      /\ Z.of_nat (length (deref m' p)) = nd * P) bs).
  { apply Forall_lookup. intros i b Hb.
    destruct (Hbufs i) as [Hbi Hdi]; [apply lookup_lt_Some in Hb; lia|].
    rewrite Hbi in Hb. injection Hb as <-. eexists. split; [reflexivity|].
    rewrite Hdi, length_replicate. nia. }
  destruct (Hbufs 0%nat) as [Hb0 Hd0]; [lia|].
  rewrite Nat.add_0_r in Hb0, Hd0.
  destruct bs as [|b0 free]; [discriminate|].
  injection Hb0 as ->.
  assert (Hlook : (pool ++ [MemoryPool.mkBuffer (Some (next_free m)) (nd * P) 0
                            :: free])
                  !! Z.to_nat (Z.of_nat (length pool))
                  = Some (MemoryPool.mkBuffer (Some (next_free m)) (nd * P) 0
                          :: free)).
  { rewrite Nat2Z.id. now rewrite list_lookup_middle. }
  eexists _, _, _, _, _. split; [reflexivity|]. cbn [Receiver.numberOfDetectors_
    Receiver.numberOfDetectorModules_ Receiver.bufferSize_
    Receiver.numberOfProjections_ Receiver.buffers_ Receiver.memoryPoolIndex_].
  split; [reflexivity|]. split; [reflexivity|]. split; [reflexivity|].
  split; [reflexivity|]. split; [|split; [|split; [|split; [|split]]]].
  - intros d Hd. rewrite emplace_all_lookup, lookup_empty.
    rewrite decide_True; [reflexivity|]. apply elem_of_seqZ. lia.
  - unfold MemoryPool.free_count.
    match goal with
    | |- context [?l !! ?i] =>
        replace (l !! i)
          with (Some (MemoryPool.mkBuffer (Some (next_free m)) (nd * P) 0
                      :: free)) by (symmetry; exact Hlook)
    end.
    exact Hlen.
  - unfold MemoryPool.requestMemory.
    match goal with
    | |- context [?l !! ?i] =>
        replace (l !! i)
          with (Some (MemoryPool.mkBuffer (Some (next_free m)) (nd * P) 0
                      :: free)) by (symmetry; exact Hlook)
    end.
    reflexivity.
  - reflexivity.
  - exact Hd0.
  - unfold pool_sized.
    match goal with
    | |- context [?l !! ?i] =>
        replace (l !! i)
          with (Some (MemoryPool.mkBuffer (Some (next_free m)) (nd * P) 0
                      :: free)) by (symmetry; exact Hlook)
    end.
    exact Hsized.
Qed.

(** X14.  A Receiver configured with at least 16 detectors per module is
    sized for [loadImage]: for members in the range of a configuration with
    [16 * numberOfDetectorModules_ <= numberOfDetectors_], the constructor
    builds the ring buffers and registers 100 pooled buffers, and then,
    whatever the receiver modules have written to the ring buffers,
    [loadImage] returns for every frame index a valid Image with the index
    (modulo 2^32), plane [k mod 2] and the clock reading, stitched from
    stripes of 16 detectors, and leaves 99 buffers free. *)
Theorem receiver_sized_for_sixteen (ms : ReceiverConfig.members)
    (pool : MemoryPool.MemoryPool) (m : Memory) :
  1 <= ReceiverConfig.numberOfDetectorModules_ ms < 2 ^ 31 ->
  16 * ReceiverConfig.numberOfDetectorModules_ ms
  <= ReceiverConfig.numberOfDetectors_ ms ->
  1 <= ReceiverConfig.bufferSize_ ms ->
  1 <= ReceiverConfig.numberOfProjections_ ms ->
  ReceiverConfig.numberOfDetectors_ ms
  * ReceiverConfig.numberOfProjections_ ms < 2 ^ 31 ->
  ReceiverConfig.bufferSize_ ms
  * Z.quot (ReceiverConfig.numberOfDetectors_ ms)
           (ReceiverConfig.numberOfDetectorModules_ ms)
  * ReceiverConfig.numberOfProjections_ ms < 2 ^ 31 ->
  exists r pool' m',
    ReceiverStage.constructor_body ms pool m
    = ReceiverStage.Built (r, pool', m')
    /\ MemoryPool.free_count (Receiver.memoryPoolIndex_ r) pool' = 100%nat
    /\ forall r' k now,
         rings_filled r r' ->
         0 <= k < Int.SIZE_MAX ->
         exists img pool1 m1 p,
           Receiver.loadImage r' k now pool' m' = Returns (img, pool1, m1)
           /\ Img.valid img = true
           /\ Img.index img = Int.to_uint k
           /\ Img.plane img = k mod 2
           /\ Img.start img = now
           /\ Img.container img = Some p
           /\ stitched 16 r' k (deref m1 p)
           /\ MemoryPool.free_count (Receiver.memoryPoolIndex_ r) pool1
              = 99%nat.
Proof.
  intros HM Hwide HB HP Hel Hring.
  destruct (constructor_body_built ms pool m)
    as (r & pool' & m' & sino & pool1 & Hbuilt & Hnd & HMr & HBr & HPr
        & Hbufs & Hfree & Hreq & Hp & Hsino & _); try assumption; [lia|].
  exists r, pool', m'. split; [exact Hbuilt|]. split; [exact Hfree|].
  intros r' k now (Hnd' & HM' & HB' & HP' & Hidx' & Hlen') Hk.
  set (M := ReceiverConfig.numberOfDetectorModules_ ms) in *.
  set (nd := ReceiverConfig.numberOfDetectors_ ms) in *.
  set (B := ReceiverConfig.bufferSize_ ms) in *.
  set (P := ReceiverConfig.numberOfProjections_ ms) in *.
  assert (Hq : 16 <= Z.quot nd M).
  { rewrite Z.quot_div_nonneg by lia. apply Z.div_le_lower_bound; lia. }
  destruct (loadImage_stitches_16 r' k now pool' pool1 m' sino (next_free m))
    as (_ & img & m1 & Hload & Hv & Hi & Hpl & Hst & Hc & Hstitched).
  - exact Hk.
  - rewrite HB', HBr. fold B. lia.
  - rewrite HP', HPr. fold P. lia.
  - rewrite HB', HBr, HP', HPr. fold B P. nia.
  - rewrite Hidx'. exact Hreq.
  - exact Hp.
  - rewrite Hsino, length_replicate, HM', HMr, HP', HPr. fold M nd P. nia.
  - intros d Hd. rewrite Hlen', Hbufs by (rewrite HM', HMr in Hd; exact Hd).
    unfold default; cbn [from_option id].
    rewrite length_replicate, HB', HBr, HP', HPr.
    fold M nd B P. nia.
  - exists img, pool1, m1, (next_free m). repeat split; try assumption.
    destruct (request_gives_valid _ _ _ _ Hreq) as (_ & _ & Hcount). lia.
Qed.

Lemma receiver_sized_for_sixteen_witness :
  exists r pool' m',
    ReceiverStage.constructor_body members_64_2 [] empty_memory
    = ReceiverStage.Built (r, pool', m')
    /\ MemoryPool.free_count (Receiver.memoryPoolIndex_ r) pool' = 100%nat
    /\ forall r' k now,
         rings_filled r r' ->
         0 <= k < Int.SIZE_MAX ->
         exists img pool1 m1 p,
           Receiver.loadImage r' k now pool' m' = Returns (img, pool1, m1)
           /\ Img.valid img = true
           /\ Img.index img = Int.to_uint k
           /\ Img.plane img = k mod 2
           /\ Img.start img = now
           /\ Img.container img = Some p
           /\ stitched 16 r' k (deref m1 p)
           /\ MemoryPool.free_count (Receiver.memoryPoolIndex_ r) pool1
              = 99%nat.
Proof.
  apply (receiver_sized_for_sixteen members_64_2 [] empty_memory).
  - simpl. lia.
  - simpl. lia.
  - simpl. lia.
  - simpl. lia.
  - simpl. lia.
  - vm_compute. reflexivity.
Defined.

(** X15.  A Receiver configured with fewer than 16 detectors per module
    overruns its buffers: for members in the range of a configuration with
    [numberOfDetectors_ < 16 * numberOfDetectorModules_], the constructor
    builds the Receiver, and then, whatever the ring buffers hold, every
    call of [loadImage] for a frame index leaves defined behaviour: the
    copy of the stripes of 16 detectors reads beyond a ring buffer or
    writes beyond the pooled buffer of
    [numberOfDetectors_ * numberOfProjections_] elements. *)
Theorem receiver_overruns_narrow_modules (ms : ReceiverConfig.members)
    (pool : MemoryPool.MemoryPool) (m : Memory) :
  1 <= ReceiverConfig.numberOfDetectorModules_ ms < 2 ^ 31 ->
  0 <= ReceiverConfig.numberOfDetectors_ ms
    < 16 * ReceiverConfig.numberOfDetectorModules_ ms ->
  1 <= ReceiverConfig.bufferSize_ ms ->
  1 <= ReceiverConfig.numberOfProjections_ ms ->
  ReceiverConfig.numberOfDetectors_ ms
  * ReceiverConfig.numberOfProjections_ ms < 2 ^ 31 ->
  ReceiverConfig.bufferSize_ ms
  * Z.quot (ReceiverConfig.numberOfDetectors_ ms)
           (ReceiverConfig.numberOfDetectorModules_ ms)
  * ReceiverConfig.numberOfProjections_ ms < 2 ^ 31 ->
  exists r pool' m',
    ReceiverStage.constructor_body ms pool m
    = ReceiverStage.Built (r, pool', m')
    /\ forall r' k now,
         rings_filled r r' ->
         k <> Int.SIZE_MAX ->
         Receiver.loadImage r' k now pool' m' = Undefined.
Proof.
  intros HM Hnarrow HB HP Hel Hring.
  destruct (constructor_body_built ms pool m)
    as (r & pool' & m' & sino & pool1 & Hbuilt & Hnd & HMr & HBr & HPr
        & Hbufs & Hfree & Hreq & Hp & Hsino & _); try assumption; [lia|].
  exists r, pool', m'. split; [exact Hbuilt|].
  intros r' k now (Hnd' & HM' & HB' & HP' & Hidx' & Hlen') Hk.
  unfold Receiver.loadImage. rewrite decide_False by exact Hk.
  rewrite Hidx', Hreq. cbn [mbind outcome_bind]. rewrite Hp.
  destruct (Receiver.stitch _ _ _ _) as [content|] eqn:Hstitch;
    [exfalso|reflexivity].
  destruct (stitch_Some _ _ _ _ _ Hstitch) as (_ & Hfits & _).
  destruct (Hfits (Receiver.numberOfDetectorModules_ r' - 1)) as [_ Hlast].
  { apply elem_of_seqZ. rewrite HM', HMr. lia. }
  rewrite Hsino, length_replicate, HM', HMr, HP', HPr in Hlast.
  set (M := ReceiverConfig.numberOfDetectorModules_ ms) in *.
  set (nd := ReceiverConfig.numberOfDetectors_ ms) in *.
  set (P := ReceiverConfig.numberOfProjections_ ms) in *.
  nia.
Qed.

Lemma receiver_overruns_narrow_modules_witness :
  exists r pool' m',
    ReceiverStage.constructor_body members_16_2 [] empty_memory
    = ReceiverStage.Built (r, pool', m')
    /\ forall r' k now,
         rings_filled r r' ->
         k <> Int.SIZE_MAX ->
         Receiver.loadImage r' k now pool' m' = Undefined.
Proof.
  apply (receiver_overruns_narrow_modules members_16_2 [] empty_memory).
  - simpl. lia.
  - simpl. lia.
  - simpl. lia.
  - simpl. lia.
  - simpl. lia.
  - vm_compute. reflexivity.
Defined.

(** ** Reading the configuration *)

Ltac read_key :=
  match goal with
  | |- context [Config.assign ?x] =>
      destruct x eqn:?; cbn [Config.assign]; try discriminate
  | |- context [Config.read_local ?x] =>
      destruct x eqn:?; cbn [Config.read_local]; try discriminate
  end.

Lemma attenuation_read_keys_rates cfg this read sampling_rate scan_rate :
  AttenuationConfig.read_keys cfg this
  = Config.Done (read, sampling_rate, scan_rate) ->
  Config.get_int cfg "sampling_rate" = Some sampling_rate
  /\ Config.get_int cfg "scan_rate" = Some scan_rate.
Proof.
  unfold AttenuationConfig.read_keys. repeat read_key.
  intros [= _ <- <-]. now split.
Qed.

(** A member assigned before the throw has its new value when the handler
    returns: the first key of [Attenuation::readConfig]. *)
Lemma attenuation_read_keys_first cfg this ms v :
  AttenuationConfig.read_keys cfg this = Config.Caught ms ->
  Config.get_int cfg "number_of_fan_detectors" = Some v ->
  AttenuationConfig.numberOfDetectors_ ms = v.
Proof.
  unfold AttenuationConfig.read_keys. intros Hread Hfirst.
  rewrite Hfirst in Hread. cbn [Config.assign] in Hread. revert Hread.
  repeat read_key; now intros [= <-].
Qed.

(** X16.  A scan rate of 0 in the configuration is not rejected as a
    configuration error: [readConfig] of H2D, of Attenuation and of the
    Receiver returns no success code on it, and when the other keys are
    readable it does not return the failure code either, nor does the
    constructor throw; the number of projections is computed by a
    division by the scan rate, which leaves defined behaviour. *)
Theorem scan_rate_zero_is_divided_by (cfg : Config.read_json) :
  Config.get_int cfg "scan_rate" = Some 0 ->
  ReceiverConfig.lookupValue cfg "scanRate" = Some 0 ->
  (forall this,
      (forall r ms, H2DConfig.readConfig cfg this = Returns (r, ms) ->
                    r = Config.to_bool Config.EXIT_FAILURE)
      /\ (is_Some (Config.get_int cfg "number_of_fan_detectors") ->
          is_Some (Config.get_int cfg "mempoolsize_h2d") ->
          is_Some (Config.get_int cfg "sampling_rate") ->
          H2DConfig.readConfig cfg this = Undefined
          /\ H2DConfig.constructor cfg this = Undefined))
  /\ (forall this,
      (forall r ms, AttenuationConfig.readConfig cfg this = Returns (r, ms) ->
                    r = Config.to_bool Config.EXIT_FAILURE)
      /\ ((exists read sampling_rate scan_rate,
             AttenuationConfig.read_keys cfg this
             = Config.Done (read, sampling_rate, scan_rate)) ->
          AttenuationConfig.readConfig cfg this = Undefined
          /\ AttenuationConfig.constructor cfg this = Undefined))
  /\ (forall this,
      (forall r ms, ReceiverConfig.readConfig cfg this = Returns (r, ms) ->
                    r = Config.to_bool Config.EXIT_FAILURE)
      /\ (is_Some (ReceiverConfig.lookupValue cfg "samplingRate") ->
          is_Some (ReceiverConfig.lookupValue cfg "numberOfFanDetectors") ->
          is_Some (ReceiverConfig.lookupValue cfg "inputBufferSize") ->
          is_Some (ReceiverConfig.lookupValue cfg "numberOfDetectorModules") ->
          ReceiverConfig.readConfig cfg this = Undefined
          /\ ReceiverConfig.constructor cfg this = Undefined)).
Proof.
  intros Hscan HscanR. split; [|split]; intros this.
  - unfold H2DConfig.constructor, H2DConfig.readConfig, H2DConfig.read_keys.
    rewrite Hscan. split.
    + intros r ms.
      destruct (Config.get_int cfg "number_of_fan_detectors");
        cbn [Config.assign]; [|now intros [= <- _]].
      destruct (Config.get_int cfg "mempoolsize_h2d");
        cbn [Config.assign]; [|now intros [= <- _]].
      destruct (Config.get_int cfg "sampling_rate");
        cbn [Config.read_local]; [|now intros [= <- _]].
      discriminate.
    + intros [nd ->] [mp ->] [sr ->]. now split.
  - unfold AttenuationConfig.constructor, AttenuationConfig.readConfig.
    split.
    + intros r ms.
      destruct (AttenuationConfig.read_keys cfg this)
        as [[[read sr] sc]|caught] eqn:Hk;
        [|now intros [= <- _]].
      destruct (attenuation_read_keys_rates _ _ _ _ _ Hk) as [_ Hsc].
      rewrite Hscan in Hsc. injection Hsc as <-. discriminate.
    + intros (read & sr & sc & Hk). rewrite Hk.
      destruct (attenuation_read_keys_rates _ _ _ _ _ Hk) as [_ Hsc].
      rewrite Hscan in Hsc. injection Hsc as <-. now split.
  - unfold ReceiverConfig.constructor, ReceiverConfig.readConfig,
      ReceiverConfig.read_keys. rewrite HscanR. split.
    + intros r ms.
      destruct (ReceiverConfig.lookupValue cfg "samplingRate");
        cbn [Config.read_local]; [|now intros [= <- _]].
      destruct (ReceiverConfig.lookupValue cfg "numberOfFanDetectors");
        cbn [Config.assign Config.read_local]; [|now intros [= <- _]].
      destruct (ReceiverConfig.lookupValue cfg "inputBufferSize");
        cbn [Config.assign]; [|now intros [= <- _]].
      destruct (ReceiverConfig.lookupValue cfg "numberOfDetectorModules");
        cbn [Config.assign]; [|now intros [= <- _]].
      discriminate.
    + intros [sr ->] [nd ->] [B ->] [M ->]. now split.
Qed.

Lemma scan_rate_zero_is_divided_by_witness :
  (forall this,
      (forall r ms,
          H2DConfig.readConfig config_scan_rate_0 this = Returns (r, ms) ->
          r = Config.to_bool Config.EXIT_FAILURE)
      /\ (is_Some (Config.get_int config_scan_rate_0 "number_of_fan_detectors") ->
          is_Some (Config.get_int config_scan_rate_0 "mempoolsize_h2d") ->
          is_Some (Config.get_int config_scan_rate_0 "sampling_rate") ->
          H2DConfig.readConfig config_scan_rate_0 this = Undefined
          /\ H2DConfig.constructor config_scan_rate_0 this = Undefined))
  /\ (forall this,
      (forall r ms,
          AttenuationConfig.readConfig config_scan_rate_0 this
          = Returns (r, ms) ->
          r = Config.to_bool Config.EXIT_FAILURE)
      /\ ((exists read sampling_rate scan_rate,
             AttenuationConfig.read_keys config_scan_rate_0 this
             = Config.Done (read, sampling_rate, scan_rate)) ->
          AttenuationConfig.readConfig config_scan_rate_0 this = Undefined
          /\ AttenuationConfig.constructor config_scan_rate_0 this
             = Undefined))
  /\ (forall this,
      (forall r ms,
          ReceiverConfig.readConfig config_scan_rate_0 this
          = Returns (r, ms) ->
          r = Config.to_bool Config.EXIT_FAILURE)
      /\ (is_Some (ReceiverConfig.lookupValue config_scan_rate_0
                     "samplingRate") ->
          is_Some (ReceiverConfig.lookupValue config_scan_rate_0
                     "numberOfFanDetectors") ->
          is_Some (ReceiverConfig.lookupValue config_scan_rate_0
                     "inputBufferSize") ->
          is_Some (ReceiverConfig.lookupValue config_scan_rate_0
                     "numberOfDetectorModules") ->
          ReceiverConfig.readConfig config_scan_rate_0 this = Undefined
          /\ ReceiverConfig.constructor config_scan_rate_0 this = Undefined)).
Proof.
  apply (scan_rate_zero_is_divided_by config_scan_rate_0).
  - vm_compute. reflexivity.
  - vm_compute. reflexivity.
Defined.

Example attenuation_readConfig_assigns_as_read :
  AttenuationConfig.readConfig config_blocksize_spelt_out
    (AttenuationConfig.mkMembers 0 0 0 "d" "r" 0 (0, 0) 0 0 0 0 0 0
       (0, 0) (0, 0) 0 0 (0, 0) (0, 0) 0)
  = Returns (Config.to_bool Config.EXIT_FAILURE,
             AttenuationConfig.mkMembers 64 0 0 "d" "r" 0 (0, 0) 0 0 0 0 0 0
               (0, 0) (0, 0) 0 0 (0, 0) (0, 0) 0).
Proof. vm_compute. reflexivity. Qed.

(** X17.  [Attenuation::readConfig] has no default for any key: when one of
    the keys it asks for is not in the configuration, it returns the
    failure code and the constructor throws; the members whose keys were
    read before the missing one have been assigned by then (the number of
    detectors, read first, is the configured one when its key is
    readable).  The block size is asked for under the key
    [blocksize_2d_attenutation], so a configuration that has the block size
    under another spelling only is refused. *)
Theorem attenuation_config_needs_every_key
    (cfg : Config.read_json) (key : string)
    (this : AttenuationConfig.members) :
  key ∈ attenuation_keys ->
  cfg !! key = None ->
  "blocksize_2d_attenutation" ∈ attenuation_keys
  /\ (exists ms,
        AttenuationConfig.readConfig cfg this
        = Returns (Config.to_bool Config.EXIT_FAILURE, ms)
        /\ forall v,
             Config.get_int cfg "number_of_fan_detectors" = Some v ->
             AttenuationConfig.numberOfDetectors_ ms = v)
  /\ AttenuationConfig.constructor cfg this
     = Throws (runtime_error
         "recoLib::cuda::Attenuation: Configuration file could not be loaded successfully. Please check!").
Proof.
  intros Hin Hmiss. split.
  { unfold attenuation_keys. do 16 apply list_elem_of_further.
    apply list_elem_of_here. }
  assert (Hkeys : exists ms,
             AttenuationConfig.read_keys cfg this = Config.Caught ms).
  { unfold attenuation_keys in Hin.
    repeat (apply elem_of_cons in Hin as [->|Hin]);
      [..|now apply elem_of_nil in Hin];
      unfold AttenuationConfig.read_keys, Config.get_int, Config.get_uint,
        Config.get_real, Config.get_element_in_list;
      rewrite Hmiss; cbn [Config.assign Config.read_local];
      try (eexists; reflexivity);
      repeat (match goal with
              | |- context [Config.assign ?x] =>
                  destruct x; cbn [Config.assign Config.read_local];
                  try (eexists; reflexivity)
              | |- context [Config.read_local ?x] =>
                  destruct x; cbn [Config.assign Config.read_local];
                  try (eexists; reflexivity)
              end). }
  destruct Hkeys as [ms Hkeys].
  unfold AttenuationConfig.constructor, AttenuationConfig.readConfig.
  rewrite Hkeys. split; [|reflexivity].
  exists ms. split; [reflexivity|].
  intros v Hv. exact (attenuation_read_keys_first cfg this ms v Hkeys Hv).
Qed.

Lemma attenuation_config_needs_every_key_witness :
  "blocksize_2d_attenutation" ∈ attenuation_keys
  /\ (exists ms,
        AttenuationConfig.readConfig config_blocksize_spelt_out
          (AttenuationConfig.mkMembers 0 0 0 "d" "r" 0 (0, 0) 0 0 0 0 0 0
             (0, 0) (0, 0) 0 0 (0, 0) (0, 0) 0)
        = Returns (Config.to_bool Config.EXIT_FAILURE, ms)
        /\ forall v,
             Config.get_int config_blocksize_spelt_out
               "number_of_fan_detectors" = Some v ->
             AttenuationConfig.numberOfDetectors_ ms = v)
  /\ AttenuationConfig.constructor config_blocksize_spelt_out
       (AttenuationConfig.mkMembers 0 0 0 "d" "r" 0 (0, 0) 0 0 0 0 0 0
          (0, 0) (0, 0) 0 0 (0, 0) (0, 0) 0)
     = Throws (runtime_error
         "recoLib::cuda::Attenuation: Configuration file could not be loaded successfully. Please check!").
Proof.
  apply (attenuation_config_needs_every_key config_blocksize_spelt_out
           "blocksize_2d_attenutation").
  - unfold attenuation_keys. do 16 apply list_elem_of_further.
    apply list_elem_of_here.
  - vm_compute. reflexivity.
Defined.

(** ** The HIS loader *)

Section ReadBuffer.

Variable Wanted : Z -> Z.
Variables dest buf : list Z.
Variables width height : Z.

Hypothesis width_range : 0 <= width.
Hypothesis height_range : 0 <= height.
Hypothesis no_wrap : width * height <= 2 ^ 32.
Hypothesis buf_holds : width * height <= Z.of_nat (length buf).
Hypothesis dest_holds : width * height <= Z.of_nat (length dest).

(** The destination when its first [k] elements have been written. *)
Local Abbreviation written k :=
  ((Wanted <$> take (Z.to_nat k) buf) ++ drop (Z.to_nat k) dest).

Lemma store_next k :
  0 <= k < width * height ->
  exists v, buf !! Z.to_nat k = Some v
            /\ HIS.store (written k) k (Wanted v) = Some (written (k + 1)).
Proof.
  intros Hk.
  destruct (lookup_lt_is_Some_2 buf (Z.to_nat k)) as [v Hv]; [lia|].
  destruct (lookup_lt_is_Some_2 dest (Z.to_nat k)) as [d Hd]; [lia|].
  exists v. split; [exact Hv|].
  assert (Hlen : length (Wanted <$> take (Z.to_nat k) buf) = Z.to_nat k).
  { rewrite length_fmap, length_take. lia. }
  unfold HIS.store. rewrite decide_True.
  - f_equal. rewrite insert_app_r_alt by lia. rewrite Hlen, Nat.sub_diag.
    replace (Z.to_nat (k + 1)) with (S (Z.to_nat k)) by lia.
    rewrite (take_S_r _ _ _ Hv), fmap_app, <- app_assoc. f_equal.
    rewrite (drop_S _ _ _ Hd). reflexivity.
  - rewrite length_app, Hlen, length_drop. lia.
Qed.

Lemma readRow_written j (n : nat) : forall a,
  0 <= j -> 0 <= a -> a + Z.of_nat n <= width -> j < height ->
  HIS.readRow Wanted buf width j (seqZ a (Z.of_nat n)) (written (j * width + a))
  = Some (written (j * width + a + Z.of_nat n)).
Proof.
  induction n as [|n IH]; intros a Hj Ha Hn Hjh.
  - simpl. now rewrite Z.add_0_r.
  - rewrite seqZ_cons by lia. cbn [HIS.readRow].
    assert (Hk : 0 <= j * width + a < width * height) by nia.
    rewrite to_uint_small by lia.
    replace (a + j * width) with (j * width + a) by lia.
    destruct (store_next _ Hk) as (v & Hv & Hstore).
    rewrite Hv. cbn [mbind option_bind]. rewrite Hstore.
    cbn [mbind option_bind].
    replace (Z.pred (Z.of_nat (S n))) with (Z.of_nat n) by lia.
    replace (j * width + a + 1) with (j * width + Z.succ a) by lia.
    rewrite IH by lia. f_equal. f_equal; f_equal; f_equal; lia.
Qed.

Lemma readRows_written (n : nat) : forall b,
  0 <= b -> b + Z.of_nat n <= height ->
  HIS.readRows Wanted buf width (seqZ b (Z.of_nat n)) (written (b * width))
  = Some (written ((b + Z.of_nat n) * width)).
Proof.
  induction n as [|n IH]; intros b Hb Hn.
  - simpl. now rewrite Z.add_0_r.
  - rewrite seqZ_cons by lia. cbn [HIS.readRows].
    pose proof (readRow_written b (Z.to_nat width) 0) as Hrow.
    rewrite Z2Nat.id, !Z.add_0_r in Hrow by lia.
    rewrite Hrow by lia. cbn [mbind option_bind].
    replace (Z.pred (Z.of_nat (S n))) with (Z.of_nat n) by lia.
    replace (b * width + width) with (Z.succ b * width) by lia.
    rewrite IH by lia. f_equal. f_equal; f_equal; f_equal; lia.
Qed.

Lemma readBuffer_written :
  HIS.readBuffer Wanted dest buf width height
  = Some (written (width * height)).
Proof.
  unfold HIS.readBuffer.
  pose proof (readRows_written (Z.to_nat height) 0) as Hrows.
  rewrite Z2Nat.id in Hrows by lia.
  change (0 * width) with 0 in Hrows. change (Z.to_nat 0) with 0%nat in Hrows.
  rewrite take_0, drop_0, fmap_nil, app_nil_l in Hrows.
  rewrite Hrows by lia. f_equal. f_equal; f_equal; f_equal; lia.
Qed.

End ReadBuffer.

Lemma store_length destination k v out :
  HIS.store destination k v = Some out ->
  length out = length destination
  /\ 0 <= k < Z.of_nat (length destination).
Proof.
  unfold HIS.store. destruct (decide _) as [Hk|]; [|discriminate].
  intros [= <-]. now rewrite length_insert.
Qed.

Lemma readRow_Some Wanted buf width j columns : forall destination out,
  HIS.readRow Wanted buf width j columns destination = Some out ->
  length out = length destination
  /\ forall i, i ∈ columns ->
       Int.to_uint (i + j * width) < Z.of_nat (length destination)
       /\ Int.to_uint (i + j * width) < Z.of_nat (length buf).
Proof.
  induction columns as [|i columns IH]; intros destination out;
    cbn [HIS.readRow].
  - intros [= <-]. split; [reflexivity|].
    intros i Hi. now apply elem_of_nil in Hi.
  - destruct (buf !! Z.to_nat (Int.to_uint (i + j * width))) as [v|] eqn:Hv;
      [|discriminate].
    cbn [mbind option_bind].
    destruct (HIS.store destination _ _) as [dest'|] eqn:Hstore;
      [|discriminate].
    cbn [mbind option_bind]. intros Hrest.
    destruct (store_length _ _ _ _ Hstore) as [Hlen Hk].
    destruct (IH _ _ Hrest) as [Hlen' Hall].
    split; [now rewrite Hlen', Hlen|].
    intros i' Hi'. apply elem_of_cons in Hi' as [->|Hin].
    + split; [lia|]. apply lookup_lt_Some in Hv.
      pose proof (to_uint_range (i + j * width)). lia.
    + rewrite <- Hlen. now apply Hall.
Qed.

Lemma readRows_Some Wanted buf width rows : forall destination out,
  HIS.readRows Wanted buf width rows destination = Some out ->
  length out = length destination
  /\ forall j i, j ∈ rows -> i ∈ seqZ 0 width ->
       Int.to_uint (i + j * width) < Z.of_nat (length destination)
       /\ Int.to_uint (i + j * width) < Z.of_nat (length buf).
Proof.
  induction rows as [|j rows IH]; intros destination out; cbn [HIS.readRows].
  - intros [= <-]. split; [reflexivity|].
    intros j i Hj. now apply elem_of_nil in Hj.
  - destruct (HIS.readRow Wanted buf width j _ destination) as [dest'|]
      eqn:Hrow; [|discriminate].
    cbn [mbind option_bind]. intros Hrest.
    destruct (readRow_Some _ _ _ _ _ _ _ Hrow) as [Hlen Hcols].
    destruct (IH _ _ Hrest) as [Hlen' Hall].
    split; [now rewrite Hlen', Hlen|].
    intros j' i Hj' Hi. apply elem_of_cons in Hj' as [->|Hin].
    + now apply Hcols.
    + rewrite <- Hlen. now apply Hall.
Qed.

(** X18.  [HIS::readBuffer] is a flat converted copy: for a width and a
    height whose product does not wrap in [unsigned int], when source and
    destination hold [width * height] elements the two loops leave the
    destination with the first [width * height] elements of the source,
    each converted, in the same order, and with its other elements as they
    were; when the source or the destination holds fewer elements (and
    there is an element to copy), the loops run out of the buffer. *)
Theorem his_readBuffer_is_flat_copy
    (Wanted : Z -> Z) (dest buf : list Z) (width height : Z) :
  0 <= width -> 0 <= height ->
  width * height <= 2 ^ 32 ->
  (width * height <= Z.of_nat (length buf) ->
   width * height <= Z.of_nat (length dest) ->
   HIS.readBuffer Wanted dest buf width height
   = Some ((Wanted <$> take (Z.to_nat (width * height)) buf)
           ++ drop (Z.to_nat (width * height)) dest))
  /\ (0 < width * height ->
      Z.of_nat (length buf) < width * height
      \/ Z.of_nat (length dest) < width * height ->
      HIS.readBuffer Wanted dest buf width height = None).
Proof.
  intros Hw Hh Hwrap. split.
  - intros Hbuf Hdest. now apply readBuffer_written.
  - intros Hpos Hshort.
    destruct (HIS.readBuffer Wanted dest buf width height) as [out|] eqn:Hrun;
      [exfalso|reflexivity].
    apply readRows_Some in Hrun as [_ Hall].
    destruct (Hall (height - 1) (width - 1)) as [Hd Hb].
    + apply elem_of_seqZ. nia.
    + apply elem_of_seqZ. nia.
    + rewrite to_uint_small in Hd, Hb by nia. nia.
Qed.

Lemma his_readBuffer_is_flat_copy_witness :
  (3 * 2 <= Z.of_nat (length [1; 2; 3; 4; 5; 6; 7]) ->
   3 * 2 <= Z.of_nat (length [0; 0; 0; 0; 0; 0; 9; 9]) ->
   HIS.readBuffer (fun v => 10 * v) [0; 0; 0; 0; 0; 0; 9; 9]
     [1; 2; 3; 4; 5; 6; 7] 3 2
   = Some (((fun v => 10 * v) <$> take (Z.to_nat (3 * 2)) [1; 2; 3; 4; 5; 6; 7])
           ++ drop (Z.to_nat (3 * 2)) [0; 0; 0; 0; 0; 0; 9; 9]))
  /\ (0 < 3 * 2 ->
      Z.of_nat (length [1; 2; 3; 4; 5; 6; 7]) < 3 * 2
      \/ Z.of_nat (length [0; 0; 0; 0; 0; 0; 9; 9]) < 3 * 2 ->
      HIS.readBuffer (fun v => 10 * v) [0; 0; 0; 0; 0; 0; 9; 9]
        [1; 2; 3; 4; 5; 6; 7] 3 2 = None).
Proof.
  apply (his_readBuffer_is_flat_copy (fun v => 10 * v)
           [0; 0; 0; 0; 0; 0; 9; 9] [1; 2; 3; 4; 5; 6; 7] 3 2).
  - lia.
  - lia.
  - vm_compute. discriminate.
Defined.

(** X19.  [HIS::loadImage], from the reading of the image data on: for a
    type of numbers it implements and a file that holds the
    [width * height] elements, it returns a valid Image on a fresh buffer
    of [width * height] elements that holds the elements of the file,
    converted, in file order; the Image is built by
    [Image(width, height, index, buffer)], so its [size()] is the width, its
    [index()] the height and its [plane()] the index the caller passed.
    For another type of numbers it returns an invalid Image. *)
Theorem his_loadImage_index_is_height
    (Wanted : Z -> Z) (type_of_numbers width height index : Z)
    (buffer : list Z) (m : Memory) :
  0 <= width -> 0 <= height ->
  width * height <= 2 ^ 32 ->
  width * height <= Z.of_nat (length buffer) ->
  (type_of_numbers ∈ [HIS.tn_unsigned_char; HIS.tn_unsigned_short;
                      HIS.tn_dword; HIS.tn_double; HIS.tn_float] ->
   exists img m',
     HIS.loadImage Wanted type_of_numbers width height index buffer m
     = Returns (img, m')
     /\ Img.valid img = true
     /\ Img.size img = width
     /\ Img.index img = height
     /\ Img.plane img = index
     /\ Img.container img = Some (next_free m)
     /\ ~ allocated m (next_free m)
     /\ deref m' (next_free m)
        = Wanted <$> take (Z.to_nat (width * height)) buffer)
  /\ (type_of_numbers ∉ [HIS.tn_unsigned_char; HIS.tn_unsigned_short;
                         HIS.tn_dword; HIS.tn_double; HIS.tn_float] ->
      exists m',
        HIS.loadImage Wanted type_of_numbers width height index buffer m
        = Returns (Img.Image_default, m')
        /\ Img.valid Img.Image_default = false).
Proof.
  intros Hw Hh Hwrap Hfile.
  unfold HIS.loadImage, Vol.make_ptr_2D, make_ptr. split; intros Htype.
  - rewrite decide_True by exact Htype.
    assert (Hfresh : deref {| next_free := S (next_free m);
                              cells := <[next_free m:=
                                           replicate (Z.to_nat (width * height)) 0]>
                                         (cells m) |} (next_free m)
                     = replicate (Z.to_nat (width * height)) 0).
    { unfold deref. simpl. now rewrite lookup_insert_eq. }
    rewrite Hfresh.
    rewrite (readBuffer_written Wanted _ buffer width height)
      by (try assumption; rewrite length_replicate; lia).
    rewrite drop_ge, app_nil_r by (rewrite length_replicate; lia).
    eexists _, _. split; [reflexivity|]. simpl.
    repeat split.
    + unfold allocated. lia.
    + unfold deref. simpl. now rewrite lookup_insert_eq.
  - rewrite decide_False by exact Htype. eexists. split; reflexivity.
Qed.

Lemma his_loadImage_index_is_height_witness :
  (HIS.tn_unsigned_short ∈ [HIS.tn_unsigned_char; HIS.tn_unsigned_short;
                            HIS.tn_dword; HIS.tn_double; HIS.tn_float] ->
   exists img m',
     HIS.loadImage (fun v => v) HIS.tn_unsigned_short 3 2 7
       [1; 2; 3; 4; 5; 6] empty_memory
     = Returns (img, m')
     /\ Img.valid img = true
     /\ Img.size img = 3
     /\ Img.index img = 2
     /\ Img.plane img = 7
     /\ Img.container img = Some (next_free empty_memory)
     /\ ~ allocated empty_memory (next_free empty_memory)
     /\ deref m' (next_free empty_memory)
        = (fun v => v) <$> take (Z.to_nat (3 * 2)) [1; 2; 3; 4; 5; 6])
  /\ (HIS.tn_unsigned_short ∉ [HIS.tn_unsigned_char; HIS.tn_unsigned_short;
                               HIS.tn_dword; HIS.tn_double; HIS.tn_float] ->
      exists m',
        HIS.loadImage (fun v => v) HIS.tn_unsigned_short 3 2 7
          [1; 2; 3; 4; 5; 6] empty_memory
        = Returns (Img.Image_default, m')
        /\ Img.valid Img.Image_default = false).
Proof.
  apply (his_loadImage_index_is_height (fun v => v) HIS.tn_unsigned_short
           3 2 7 [1; 2; 3; 4; 5; 6] empty_memory).
  - lia.
  - lia.
  - vm_compute. discriminate.
  - simpl. lia.
Defined.

(** ** A stage from the first frame to the sentinel *)

Lemma run_events_app processor evs1 : forall evs2 s,
  run_events processor (evs1 ++ evs2) s
  = s1 ← run_events processor evs1 s; run_events processor evs2 s1.
Proof.
  induction evs1 as [|ev evs1 IH]; intros evs2 s; [reflexivity|].
  cbn [app run_events].
  destruct (run_event processor ev s) as [s1| | |]; try reflexivity.
  cbn [mbind outcome_bind]. apply IH.
Qed.

Lemma run_events_pushes processor evs : forall s,
  Forall (fun ev => exists q img, ev = Push q img) evs ->
  run_events processor evs s
  = Returns (mkRun (enqueue evs (queues s)) (results s)
                   (run_in_pool s) (run_out_pool s)).
Proof.
  induction evs as [|ev evs IH]; intros s Hall.
  - now destruct s.
  - apply Forall_cons in Hall as [(q & img & ->) Hall].
    cbn [run_events run_event mbind outcome_bind]. now rewrite IH.
Qed.

Lemma worker_free_count stamp poolIdx queue : forall pin pout,
  (MemoryPool.free_count poolIdx
     (out_pool (worker_loop stamp poolIdx queue pin pout))
   + length (published (worker_loop stamp poolIdx queue pin pout))
   = MemoryPool.free_count poolIdx pout)%nat.
Proof.
  induction queue as [|input rest IH]; intros pin pout; simpl; [lia|].
  destruct (Img.valid input); simpl; [|lia].
  destruct (MemoryPool.requestMemory poolIdx pout) as [[out pout']| | |]
    eqn:Hreq; simpl; try lia.
  destruct (request_free_count _ _ _ _ Hreq) as [Hfree _].
  specialize (IH (Image_dtor input pin) pout'). lia.
Qed.

(** One block of [x] more in the block of its key. *)
Lemma concat_blocks_cons {A} (key : A -> Z) (x : A) (block : Z -> list A)
    (ts : list Z) :
  NoDup ts -> key x ∈ ts ->
  concat ((fun t => if decide (key x = t) then x :: block t else block t)
          <$> ts)
  ≡ₚ x :: concat (block <$> ts).
Proof.
  induction 1 as [|t ts Ht Hnd IH]; intros Hin.
  - now apply elem_of_nil in Hin.
  - rewrite !fmap_cons. cbn [concat].
    destruct (decide (key x = t)) as [Heq|Hne].
    + assert (Hsame : (fun t0 => if decide (key x = t0) then x :: block t0
                                 else block t0) <$> ts = block <$> ts).
      { apply list_fmap_ext. intros i t0 Ht0.
        rewrite decide_False; [reflexivity|].
        intros Hk. apply Ht. rewrite <- Heq, Hk.
        now apply list_elem_of_lookup_2 in Ht0. }
      now rewrite Hsame.
    + apply elem_of_cons in Hin as [Hin|Hin]; [contradiction|].
      rewrite (IH Hin). symmetry. apply Permutation_middle.
Qed.

(** Every frame that names one of the devices is in the block of its
    device, once. *)
Lemma frames_by_device_perm K stream :
  Forall (fun i => 0 <= Img.device i < K) stream ->
  frames_by_device K stream ≡ₚ stream.
Proof.
  unfold frames_by_device. induction 1 as [|x stream Hx Hall IH].
  - induction (seqZ 0 K) as [|t ts IHts]; [reflexivity|exact IHts].
  - etransitivity; [|apply perm_skip; exact IH].
    rewrite <- (concat_blocks_cons Img.device x
                  (fun t => for_device t stream) (seqZ 0 K)).
    + apply reflexive_eq. reflexivity.
    + apply NoDup_seqZ.
    + apply elem_of_seqZ. lia.
Qed.

Lemma pushed_to_by_device q stream :
  pushed_to q ((fun img => Push (Img.device img) img) <$> stream)
  = for_device q stream.
Proof.
  induction stream as [|img stream IH]; [reflexivity|].
  rewrite fmap_cons. cbn [pushed_to]. rewrite IH. unfold for_device.
  destruct (decide (Img.device img = q)) as [Hq|Hq].
  - now rewrite filter_cons_True.
  - now rewrite filter_cons_False.
Qed.

Section StageRun.

Context {S : Type}.
Variable process : Image -> S -> outcome (S * list event).
Variable K : S -> Z.
Hypothesis process_valid : forall img st,
  Img.valid img = true ->
  exists st1, process img st = Returns (st1, [Push (Img.device img) img])
              /\ K st1 = K st.
Hypothesis process_invalid : forall img st,
  Img.valid img = false -> process img st = Returns (st, finish (K st)).

(** The workers of the stage: one loop body and one registration. *)
Variable stamp : Image -> Image -> Image.
Variable poolIdx : Z.

Local Abbreviation processor :=
  (fun (_ : Z) queue pin pout => worker_loop stamp poolIdx queue pin pout).

Lemma process_stream_events stream s : forall st,
  Forall (fun i => Img.valid i = true) stream ->
  Img.valid s = false ->
  exists st',
    process_stream process (stream ++ [s]) st
    = Returns (st', ((fun img => Push (Img.device img) img) <$> stream)
                    ++ finish (K st))
    /\ K st' = K st.
Proof.
  induction stream as [|img stream IH]; intros st Hall Hs.
  - exists st. cbn [app process_stream].
    rewrite (process_invalid s st Hs).
    cbn [mbind outcome_bind mret outcome_ret]. now rewrite app_nil_r.
  - apply Forall_cons in Hall as [Hv Hall].
    destruct (process_valid img st Hv) as (st1 & Hstep & HK1).
    destruct (IH st1 Hall Hs) as (st' & Hrun & HK').
    exists st'. cbn [app process_stream]. rewrite Hstep.
    cbn [mbind outcome_bind]. rewrite Hrun.
    cbn [mbind outcome_bind mret outcome_ret]. rewrite HK1. split.
    + reflexivity.
    + now rewrite HK', HK1.
Qed.

Lemma run_joins (frames : Z -> list Image) ts :
  NoDup ts ->
  (forall t, Forall (fun i => Img.valid i = true) (frames t)) ->
  forall s,
    (forall t, t ∈ ts ->
       queues s !! t = Some (frames t ++ [Img.Image_default])) ->
    (length (concat (frames <$> ts))
     <= MemoryPool.free_count poolIdx (run_out_pool s))%nat ->
    exists s' outs,
      run_events processor (Join <$> ts) s = Returns s'
      /\ results s' = results s ++ outs
      /\ Forall2 (fun i o => exists b, o = stamp i b)
           (concat (frames <$> ts)) outs
      /\ (forall t, t ∈ ts -> queues s' !! t = Some [])
      /\ (forall q, q ∉ ts -> queues s' !! q = queues s !! q)
      /\ (MemoryPool.free_count poolIdx (run_out_pool s') + length outs
          = MemoryPool.free_count poolIdx (run_out_pool s))%nat.
Proof.
  intros Hnd Hvalid. induction Hnd as [|t ts Ht Hnd IH]; intros s Hq Hfree.
  - exists s, []. cbn [fmap list_fmap run_events concat].
    rewrite app_nil_r. split; [reflexivity|]. split; [reflexivity|].
    split; [constructor|]. split; [|split; [reflexivity|simpl; lia]].
    intros t Ht. now apply elem_of_nil in Ht.
  - rewrite fmap_cons in Hfree. cbn [concat] in Hfree.
    rewrite length_app in Hfree.
    rewrite fmap_cons. cbn [run_events run_event].
    rewrite (Hq t) by apply list_elem_of_here. cbn [default from_option id].
    set (r := worker_loop stamp poolIdx (frames t ++ [Img.Image_default])
                (run_in_pool s) (run_out_pool s)).
    destruct (worker_runs_queue stamp poolIdx (frames t) Img.Image_default []
                (run_in_pool s) (run_out_pool s) (Hvalid t) eq_refl)
      as [Henough _].
    destruct Henough as (Hst & Hleft & Hpub); [lia|]. fold r in Hst, Hleft, Hpub.
    pose proof (worker_free_count stamp poolIdx
                  (frames t ++ [Img.Image_default])
                  (run_in_pool s) (run_out_pool s)) as Hcount.
    fold r in Hcount.
    pose proof (Forall2_length _ _ _ Hpub) as Hlen.
    rewrite Hst, Hleft. cbn [mbind outcome_bind].
    destruct (IH (mkRun (<[t:=[]]> (queues s)) (results s ++ published r)
                        (in_pool r) (out_pool r)))
      as (s' & outs & Hrun & Hres & Hstamped & Hempty & Hother & Hfree').
    + intros t' Ht'. cbn [queues]. rewrite lookup_insert_ne.
      * apply Hq. now apply list_elem_of_further.
      * intros ->. contradiction.
    + cbn [run_out_pool]. lia.
    + exists s', (published r ++ outs). split; [exact Hrun|].
      cbn [results queues run_out_pool] in Hres, Hother, Hfree'.
      split; [now rewrite Hres, app_assoc|].
      split; [rewrite fmap_cons; cbn [concat]; now apply Forall2_app|].
      split; [|split].
      * intros t' Ht'. apply elem_of_cons in Ht' as [->|Ht'].
        -- rewrite Hother by exact Ht. now rewrite lookup_insert_eq.
        -- now apply Hempty.
      * intros q Hq'. rewrite Hother.
        -- apply lookup_insert_ne. intros ->. apply Hq', list_elem_of_here.
        -- intros Hin. apply Hq'. now apply list_elem_of_further.
      * rewrite length_app. lia.
Qed.

Lemma stage_drains stream (st : S) pin pout :
  Forall (fun i => Img.valid i = true) stream ->
  (length (frames_by_device (K st) stream)
   <= MemoryPool.free_count poolIdx pout)%nat ->
  exists st' evs run outs,
    process_stream process (stream ++ [Img.Image_default]) st
    = Returns (st', evs)
    /\ run_events processor evs (mkRun ∅ [] pin pout) = Returns run
    /\ results run = outs ++ [Img.Image_default]
    /\ Forall2 (fun i o => exists b, o = stamp i b)
         (frames_by_device (K st) stream) outs
    /\ (forall t, 0 <= t < K st -> queues run !! t = Some [])
    /\ (MemoryPool.free_count poolIdx (run_out_pool run) + length outs
        = MemoryPool.free_count poolIdx pout)%nat.
Proof.
  intros Hall Hfree.
  destruct (process_stream_events stream Img.Image_default st Hall eq_refl)
    as (st' & Hrun & _).
  set (pushes := (fun img => Push (Img.device img) img) <$> stream) in *.
  set (sentinels := (fun i => Push i Img.Image_default) <$> seqZ 0 (K st)).
  assert (Hpushes : forall (l : list Image) (f : Image -> Z),
             Forall (fun ev => exists q img, ev = Push q img)
                    ((fun img => Push (f img) img) <$> l)).
  { intros l f. apply Forall_fmap, Forall_forall. intros img _.
    now exists (f img), img. }
  assert (Hsent : Forall (fun ev => exists q img, ev = Push q img) sentinels).
  { apply Forall_fmap, Forall_forall. intros i _.
    now exists i, Img.Image_default. }
  destruct (run_joins (fun t => for_device t stream) (seqZ 0 (K st))
              (NoDup_seqZ _ _))
    with (s := mkRun (enqueue sentinels (enqueue pushes ∅)) [] pin pout)
    as (s' & outs & Hjoins & Hres & Hstamped & Hempty & _ & Hcount).
  - intros t. unfold for_device. apply Forall_forall. intros i Hi.
    apply list_elem_of_filter in Hi as [_ Hi].
    rewrite Forall_forall in Hall. now apply Hall.
  - intros t Ht. cbn [queues].
    rewrite enqueue_pushed_to. unfold sentinels.
    rewrite pushed_to_each by apply NoDup_seqZ.
    rewrite decide_True by exact Ht.
    rewrite enqueue_pushed_to, lookup_empty. unfold pushes.
    rewrite pushed_to_by_device.
    destruct (for_device t stream); reflexivity.
  - exact Hfree.
  - exists st', (pushes ++ finish (K st)), 
      (mkRun (queues s') (results s' ++ [Img.Image_default])
             (run_in_pool s') (run_out_pool s')), outs.
    split; [exact Hrun|]. split.
    + unfold finish, for_each_device. fold sentinels.
      rewrite run_events_app.
      rewrite (run_events_pushes _ pushes) by apply Hpushes.
      cbn [mbind outcome_bind queues results run_in_pool run_out_pool].
      rewrite run_events_app.
      rewrite (run_events_pushes _ sentinels) by exact Hsent.
      cbn [mbind outcome_bind queues results run_in_pool run_out_pool].
      rewrite run_events_app, Hjoins. reflexivity.
    + cbn [results queues run_out_pool]. cbn [results] in Hres.
      split; [now rewrite Hres|]. split; [exact Hstamped|].
      split; [|exact Hcount].
      intros t Ht. apply Hempty, elem_of_seqZ. lia.
Qed.

End StageRun.

Lemma d2h_process_stream_pool stream : forall st st' evs,
  process_stream D2H.process stream st = Returns (st', evs) ->
  D2H.memoryPoolIdx_ st' = D2H.memoryPoolIdx_ st
  /\ D2H.numberOfDevices_ st' = D2H.numberOfDevices_ st.
Proof.
  induction stream as [|img stream IH]; intros st st' evs;
    cbn [process_stream].
  - intros [= <- _]. now split.
  - destruct (D2H.process img st) as [[st1 evs1]| | |] eqn:Hstep;
      cbn [mbind outcome_bind]; try discriminate.
    destruct (process_stream D2H.process stream st1) as [[st2 evs2]| | |]
      eqn:Hrest; cbn [mbind outcome_bind mret outcome_ret];
      try discriminate.
    intros [= <- _]. destruct (IH _ _ _ Hrest) as [Hidx HK].
    assert (Hst1 : D2H.memoryPoolIdx_ st1 = D2H.memoryPoolIdx_ st
                   /\ D2H.numberOfDevices_ st1 = D2H.numberOfDevices_ st).
    { unfold D2H.process in Hstep.
      destruct (Img.valid img); destruct img; simpl in Hstep;
        injection Hstep as <- _; now split. }
    destruct Hst1 as [Hidx1 HK1]. now rewrite Hidx, HK, Hidx1, HK1.
Qed.

(** X20.  D2H from the first frame to the sentinel, the workers scheduled
    as they are joined: when valid Images that name devices of the stage,
    and then the sentinel, have gone through [process], with a free host
    buffer for every Image, the run ends with every worker queue empty and
    the results are one output for every Image of the stream (those of
    device 0 first, in the order they came, then those of device 1, and so
    on), each with the index (narrowed to 32 bits), plane and start of its
    Image, and then the one invalid Image, last; each output took one
    buffer of the registration. *)
Theorem d2h_stage_drains_before_sentinel
    (st : D2H.D2H) (stream : list Image)
    (pin pout : MemoryPool.MemoryPool) :
  Forall (fun i => Img.valid i = true) stream ->
  Forall (fun i => 0 <= Img.device i < D2H.numberOfDevices_ st) stream ->
  (length stream <= MemoryPool.free_count (D2H.memoryPoolIdx_ st) pout)%nat ->
  exists st' evs run outs,
    process_stream D2H.process (stream ++ [Img.Image_default]) st
    = Returns (st', evs)
    /\ run_events (D2H.processor st') evs (mkRun ∅ [] pin pout) = Returns run
    /\ results run = outs ++ [Img.Image_default]
    /\ Forall2 same_frame_narrowed
         (frames_by_device (D2H.numberOfDevices_ st) stream) outs
    /\ frames_by_device (D2H.numberOfDevices_ st) stream ≡ₚ stream
    /\ length outs = length stream
    /\ (forall t, 0 <= t < D2H.numberOfDevices_ st ->
          queues run !! t = Some [])
    /\ (MemoryPool.free_count (D2H.memoryPoolIdx_ st) (run_out_pool run)
        + length stream
        = MemoryPool.free_count (D2H.memoryPoolIdx_ st) pout)%nat.
Proof.
  intros Hall Hdev Hfree.
  pose proof (frames_by_device_perm _ _ Hdev) as Hperm.
  destruct (stage_drains D2H.process D2H.numberOfDevices_)
    with (stamp := D2H.stamp) (poolIdx := D2H.memoryPoolIdx_ st)
         (stream := stream) (st := st) (pin := pin) (pout := pout)
    as (st' & evs & run & outs & Hrun & Hevents & Hres & Hstamped & Hempty
        & Hcount).
  - intros img st0 Hv. eexists. split; [now apply d2h_process_valid|].
    reflexivity.
  - intros img st0 Hv. unfold D2H.process. now rewrite Hv.
  - exact Hall.
  - now rewrite Hperm.
  - assert (Hlen : length outs = length stream).
    { rewrite <- (Forall2_length _ _ _ Hstamped). now rewrite Hperm. }
    destruct (d2h_process_stream_pool _ _ _ _ Hrun) as [Hidx _].
    exists st', evs, run, outs. split; [exact Hrun|]. split.
    + destruct st' as [K' c' idx']. cbn [D2H.memoryPoolIdx_] in Hidx.
      subst idx'. exact Hevents.
    + split; [exact Hres|]. split.
      * eapply Forall2_impl; [exact Hstamped|].
        intros i o [b ->]. apply d2h_stamp_frame.
      * split; [exact Hperm|]. split; [exact Hlen|]. split; [exact Hempty|].
        now rewrite <- Hlen.
Qed.

Lemma d2h_stage_drains_before_sentinel_witness :
  exists st' evs run outs,
    process_stream D2H.process (frames_on_two_devices ++ [Img.Image_default])
      (D2H.mkD2H 2 0 0)
    = Returns (st', evs)
    /\ run_events (D2H.processor st') evs (mkRun ∅ [] [[]] pool_of_four.1)
       = Returns run
    /\ results run = outs ++ [Img.Image_default]
    /\ Forall2 same_frame_narrowed
         (frames_by_device (D2H.numberOfDevices_ (D2H.mkD2H 2 0 0))
            frames_on_two_devices) outs
    /\ frames_by_device (D2H.numberOfDevices_ (D2H.mkD2H 2 0 0))
         frames_on_two_devices ≡ₚ frames_on_two_devices
    /\ length outs = length frames_on_two_devices
    /\ (forall t, 0 <= t < D2H.numberOfDevices_ (D2H.mkD2H 2 0 0) ->
          queues run !! t = Some [])
    /\ (MemoryPool.free_count (D2H.memoryPoolIdx_ (D2H.mkD2H 2 0 0))
          (run_out_pool run)
        + length frames_on_two_devices
        = MemoryPool.free_count (D2H.memoryPoolIdx_ (D2H.mkD2H 2 0 0))
            pool_of_four.1)%nat.
Proof.
  apply (d2h_stage_drains_before_sentinel (D2H.mkD2H 2 0 0)
           frames_on_two_devices [[]] pool_of_four.1).
  - repeat constructor.
  - repeat constructor; vm_compute; discriminate.
  - vm_compute. lia.
Defined.

(** ** H2D: the registrations of the constructor and the destructor *)





(** ** Attenuation: the dark average *)

Lemma for_each_fixed {St : Type} range (body : Z -> St -> option St) (s : St) :
  (forall i, i ∈ range -> body i s = Some s) ->
  AttenuationInit.for_each range body s = Some s.
Proof.
  induction range as [|i range IH]; intros Hbody; [reflexivity|].
  cbn [AttenuationInit.for_each].
  rewrite Hbody by apply list_elem_of_here. cbn [mbind option_bind].
  apply IH. intros i' Hi'. apply Hbody. now apply list_elem_of_further.
Qed.

(** X22.  [Attenuation::computeDarkAverage] returns zeros: the factor is
    set to 0.0 before the loops, so for dark values that hold the
    [numberOfDarkFrames_ * numberOfPlanes_ * numberOfDetectors_ *
    numberOfProjections_] samples the loops read, the average of an empty
    vector comes out as [numberOfDetectors_ * numberOfPlanes_] times 0.0,
    whatever the samples are; and the interpolation of [init], which
    replaces averages above 300, leaves these zeros as they are.  The
    arithmetic enters by [0.0 + v * 0.0 = 0.0] for a sample [v] and by
    [0.0 > 300.0] being false. *)
Theorem dark_average_is_zero {F : Type} (zero : F) (add mul : F -> F -> F)
    (of_value : Z -> F) (exceeds_300 : F -> bool) (mean : F -> F -> F)
    (numberOfDarkFrames numberOfPlanes numberOfDetectors
     numberOfProjections : Z) (values : list Z) :
  (forall v, add zero (mul (of_value v) zero) = zero) ->
  exceeds_300 zero = false ->
  0 <= numberOfDarkFrames -> 0 <= numberOfPlanes ->
  0 <= numberOfDetectors -> 0 <= numberOfProjections ->
  numberOfDarkFrames * numberOfPlanes * numberOfDetectors
  * numberOfProjections <= Z.of_nat (length values) ->
  Z.of_nat (length values) < 2 ^ 31 ->
  numberOfDetectors * numberOfPlanes < 2 ^ 31 ->
  AttenuationInit.computeDarkAverage zero add mul of_value
    numberOfDarkFrames numberOfPlanes numberOfDetectors numberOfProjections
    values []
  = Some (replicate (Z.to_nat (numberOfDetectors * numberOfPlanes)) zero)
  /\ AttenuationInit.interpolate_dark exceeds_300 mean
       numberOfPlanes numberOfDetectors
       (replicate (Z.to_nat (numberOfDetectors * numberOfPlanes)) zero)
     = Some (replicate (Z.to_nat (numberOfDetectors * numberOfPlanes)) zero).
Proof.
  intros Harith Hbelow Hframes Hplanes Hnd HP Hvalues Hint Hsize.
  set (N := Z.to_nat (numberOfDetectors * numberOfPlanes)).
  assert (Hcell : forall detInd planeInd,
            0 <= detInd < numberOfDetectors ->
            0 <= planeInd < numberOfPlanes ->
            0 <= detInd + planeInd * numberOfDetectors
              < numberOfDetectors * numberOfPlanes) by (intros; nia).
  split.
  - unfold AttenuationInit.computeDarkAverage, AttenuationInit.resize.
    rewrite take_nil, app_nil_l. cbn [length]. rewrite Nat.sub_0_r. fold N.
    apply for_each_fixed. intros i Hi. apply elem_of_seqZ in Hi.
    apply for_each_fixed. intros planeInd Hp. apply elem_of_seqZ in Hp.
    apply for_each_fixed. intros detInd Hd. apply elem_of_seqZ in Hd.
    apply for_each_fixed. intros projInd Hj. apply elem_of_seqZ in Hj.
    specialize (Hcell detInd planeInd ltac:(lia) ltac:(lia)).
    assert (Hidx : 0 <= detInd + numberOfDetectors * projInd
                   + (i * numberOfPlanes + planeInd)
                     * numberOfDetectors * numberOfProjections
                   < Z.of_nat (length values)).
    { assert (0 <= i * numberOfPlanes + planeInd
              <= numberOfDarkFrames * numberOfPlanes - 1) by nia.
      assert (0 <= detInd + numberOfDetectors * projInd
              <= numberOfDetectors * numberOfProjections - 1) by nia.
      assert (0 <= numberOfDetectors * numberOfProjections) by nia.
      nia. }
    unfold AttenuationInit.at_index, AttenuationInit.set_index.
    rewrite decide_True by lia.
    destruct (lookup_lt_is_Some_2 values
                (Z.to_nat (detInd + numberOfDetectors * projInd
                           + (i * numberOfPlanes + planeInd)
                             * numberOfDetectors * numberOfProjections)))
      as [val ->]; [lia|].
    cbn [mbind option_bind]. rewrite decide_True by lia.
    rewrite lookup_replicate_2 by (unfold N; lia).
    cbn [mbind option_bind].
    rewrite decide_True by (rewrite length_replicate; unfold N; lia).
    now rewrite Harith, insert_replicate.
  - unfold AttenuationInit.interpolate_dark. fold N.
    apply for_each_fixed. intros j Hj. apply elem_of_seqZ in Hj.
    apply for_each_fixed. intros i Hi. apply elem_of_seqZ in Hi.
    specialize (Hcell i j ltac:(lia) ltac:(lia)).
    assert (Hhere : AttenuationInit.at_index (replicate N zero)
                      (i + j * numberOfDetectors) = Some zero).
    { unfold AttenuationInit.at_index. rewrite decide_True by lia.
      apply lookup_replicate_2. unfold N. lia. }
    rewrite Hhere. cbn [mbind option_bind]. now rewrite Hbelow.
Qed.

Lemma dark_average_is_zero_witness :
  AttenuationInit.computeDarkAverage 0 Z.add Z.mul (fun v => v)
    2 2 3 2 (seqZ 100 24) []
  = Some (replicate (Z.to_nat (3 * 2)) 0)
  /\ AttenuationInit.interpolate_dark (fun a => bool_decide (300 < a))
       (fun a b => (a + b) / 2) 2 3 (replicate (Z.to_nat (3 * 2)) 0)
     = Some (replicate (Z.to_nat (3 * 2)) 0).
Proof.
  apply (dark_average_is_zero 0 Z.add Z.mul (fun v => v)
           (fun a => bool_decide (300 < a)) (fun a b => (a + b) / 2)
           2 2 3 2 (seqZ 100 24)).
  - intros v. lia.
  - reflexivity.
  - lia.
  - lia.
  - lia.
  - lia.
  - vm_compute. discriminate.
  - vm_compute. reflexivity.
  - vm_compute. reflexivity.
Defined.

(** X23.  The interpolation of the dark averages in [Attenuation::init]
    reads before the vector when the first average is above 300: with at
    least two detectors and one plane, at detector 0 of plane 0 the left
    neighbour is taken at [(0 - 1) % numberOfDetectors_], which is -1 in
    [int], so [avgDark_[-1]] is read. *)
Theorem dark_interpolation_reads_before_first {F : Type}
    (exceeds_300 : F -> bool) (mean : F -> F -> F)
    (numberOfPlanes numberOfDetectors : Z) (avgDark : list F) (first : F) :
  1 <= numberOfPlanes ->
  2 <= numberOfDetectors ->
  avgDark !! 0%nat = Some first ->
  exceeds_300 first = true ->
  AttenuationInit.interpolate_dark exceeds_300 mean
    numberOfPlanes numberOfDetectors avgDark = None.
Proof.
  intros Hplanes Hnd Hfirst Habove.
  unfold AttenuationInit.interpolate_dark.
  rewrite (seqZ_cons 0 numberOfPlanes) by lia.
  cbn [AttenuationInit.for_each].
  rewrite (seqZ_cons 0 numberOfDetectors) by lia.
  cbn [AttenuationInit.for_each].
  assert (Hhere : AttenuationInit.at_index avgDark (0 + 0 * numberOfDetectors)
                  = Some first).
  { unfold AttenuationInit.at_index. rewrite decide_True by lia.
    replace (Z.to_nat (0 + 0 * numberOfDetectors)) with 0%nat by lia.
    exact Hfirst. }
  rewrite Hhere. cbn [mbind option_bind]. rewrite Habove.
  assert (Hprev : AttenuationInit.at_index avgDark
                    (numberOfDetectors * 0 + Z.rem (0 - 1) numberOfDetectors)
                  = None).
  { unfold AttenuationInit.at_index. rewrite decide_False; [reflexivity|].
    change (0 - 1) with (- (1)). rewrite Z.rem_opp_l by lia.
    rewrite Z.rem_small by lia. lia. }
  rewrite Hprev.
  destruct (AttenuationInit.at_index avgDark
              (numberOfDetectors * 0 + Z.rem (0 + 1) numberOfDetectors));
    reflexivity.
Qed.

Lemma dark_interpolation_reads_before_first_witness :
  AttenuationInit.interpolate_dark (fun a => bool_decide (300 < a))
    (fun a b => (a + b) / 2) 2 3 [301; 0; 0; 0; 0; 0] = None.
Proof.
  apply (dark_interpolation_reads_before_first
           (fun a => bool_decide (300 < a)) (fun a b => (a + b) / 2)
           2 3 [301; 0; 0; 0; 0; 0] 301).
  - lia.
  - lia.
  - reflexivity.
  - reflexivity.
Defined.

(** ** Attenuation: the reference average *)

Lemma for_each_foldl {St : Type} (Inv : St -> Prop) range
    (body : Z -> St -> option St) (g : Z -> St -> St) : forall s,
  (forall i s, i ∈ range -> Inv s -> body i s = Some (g i s) /\ Inv (g i s)) ->
  Inv s ->
  AttenuationInit.for_each range body s
  = Some (foldl (fun s i => g i s) s range)
  /\ Inv (foldl (fun s i => g i s) s range).
Proof.
  induction range as [|i range IH]; intros s Hbody Hs; [now split|].
  cbn [AttenuationInit.for_each foldl].
  destruct (Hbody i s) as [Hstep Hinv]; [apply list_elem_of_here|exact Hs|].
  rewrite Hstep. cbn [mbind option_bind]. apply IH; [|exact Hinv].
  intros i' s' Hi'. apply Hbody. now apply list_elem_of_further.
Qed.

Section ComputeAverage.

Context {F : Type}.
Variable zero : F.
Variables add mul : F -> F -> F.
Variable of_value : Z -> F.
Variable factor : F.
Variable values : list Z.
Variables planes nd P : Z.

Hypothesis planes_range : 0 <= planes.
Hypothesis nd_range : 0 <= nd.
Hypothesis P_range : 0 <= P.
Hypothesis values_fit : Z.of_nat (length values) < 2 ^ 31.

Local Abbreviation add_frame :=
  (AttenuationInit.add_frame add mul of_value factor values nd P).

Local Abbreviation body i :=
  (fun planeInd average =>
     AttenuationInit.for_each (seqZ 0 (nd * P))
       (fun index average =>
          val ← AttenuationInit.at_index values
                  ((i + planeInd) * P * nd + index);
          old ← AttenuationInit.at_index average
                  (index + planeInd * nd * P);
          AttenuationInit.set_index average (index + planeInd * nd * P)
            (add old (mul (of_value val) factor)))
       average).

(** The averages when the first [c] cells have got their sample of frame
    [i]. *)
Local Abbreviation partial i average c :=
  (take (Z.to_nat c) (add_frame i average) ++ drop (Z.to_nat c) average).

Lemma add_frame_length i average :
  length (add_frame i average) = length average.
Proof. unfold AttenuationInit.add_frame. apply length_imap. Qed.

Lemma cell_step i average k :
  0 <= i ->
  Z.of_nat (length average) = P * nd * planes ->
  i * (nd * P) + P * nd * planes <= Z.of_nat (length values) ->
  0 <= k < P * nd * planes ->
  exists val old,
    AttenuationInit.at_index values (i * (nd * P) + k) = Some val
    /\ AttenuationInit.at_index (partial i average k) k = Some old
    /\ AttenuationInit.set_index (partial i average k) k
         (add old (mul (of_value val) factor))
       = Some (partial i average (k + 1)).
Proof.
  intros Hi Hlen Hvalues Hk.
  assert (Hin : (Z.to_nat (i * (nd * P) + k) < length values)%nat) by nia.
  destruct (lookup_lt_is_Some_2 average (Z.to_nat k)) as [old Hold]; [lia|].
  exists (values !!! Z.to_nat (i * (nd * P) + k)), old.
  assert (Htake : length (take (Z.to_nat k) (add_frame i average))
                  = Z.to_nat k).
  { rewrite length_take, add_frame_length. lia. }
  split; [|split].
  - unfold AttenuationInit.at_index. rewrite decide_True by nia.
    now apply list_lookup_lookup_total_lt.
  - unfold AttenuationInit.at_index. rewrite decide_True by lia.
    rewrite lookup_app_r by lia. rewrite Htake, Nat.sub_diag.
    now rewrite lookup_drop, Nat.add_0_r.
  - unfold AttenuationInit.set_index. rewrite decide_True.
    + f_equal. rewrite insert_app_r_alt by lia.
      rewrite Htake, Nat.sub_diag.
      replace (Z.to_nat (k + 1)) with (S (Z.to_nat k)) by lia.
      assert (Hnew : add_frame i average !! Z.to_nat k
                     = Some (add old
                               (mul (of_value
                                       (values !!! Z.to_nat (i * (nd * P) + k)))
                                    factor))).
      { unfold AttenuationInit.add_frame. rewrite list_lookup_imap, Hold. cbn.
        do 5 f_equal. lia. }
      rewrite (take_S_r _ _ _ Hnew), <- app_assoc. f_equal.
      rewrite (drop_S _ _ _ Hold). reflexivity.
    + rewrite length_app, Htake, length_drop. lia.
Qed.

Lemma index_loop i average p (n : nat) : forall a,
  0 <= i ->
  Z.of_nat (length average) = P * nd * planes ->
  i * (nd * P) + P * nd * planes <= Z.of_nat (length values) ->
  0 <= p < planes -> 0 <= a -> a + Z.of_nat n <= nd * P ->
  AttenuationInit.for_each (seqZ a (Z.of_nat n))
    (fun index average =>
       val ← AttenuationInit.at_index values ((i + p) * P * nd + index);
       old ← AttenuationInit.at_index average (index + p * nd * P);
       AttenuationInit.set_index average (index + p * nd * P)
         (add old (mul (of_value val) factor)))
    (partial i average (p * (nd * P) + a))
  = Some (partial i average (p * (nd * P) + a + Z.of_nat n)).
Proof.
  induction n as [|n IH]; intros a Hi Hlen Hvalues Hp Ha Hn.
  - rewrite seqZ_nil by lia. cbn. now rewrite Z.add_0_r.
  - rewrite seqZ_cons by lia. cbn [AttenuationInit.for_each].
    destruct (cell_step i average (p * (nd * P) + a))
      as (val & old & Hval & Hold & Hset); try assumption; [nia|].
    replace ((i + p) * P * nd + a) with (i * (nd * P) + (p * (nd * P) + a))
      by lia.
    replace (a + p * nd * P) with (p * (nd * P) + a) by lia.
    rewrite Hval. cbn [mbind option_bind]. rewrite Hold.
    cbn [mbind option_bind]. rewrite Hset. cbn [mbind option_bind].
    replace (Z.pred (Z.of_nat (S n))) with (Z.of_nat n) by lia.
    replace (p * (nd * P) + a + 1) with (p * (nd * P) + Z.succ a) by lia.
    rewrite IH by lia. do 2 f_equal; f_equal; f_equal; lia.
Qed.

Lemma plane_loop i average (n : nat) : forall b,
  0 <= i ->
  Z.of_nat (length average) = P * nd * planes ->
  i * (nd * P) + P * nd * planes <= Z.of_nat (length values) ->
  0 <= b -> b + Z.of_nat n <= planes ->
  AttenuationInit.for_each (seqZ b (Z.of_nat n)) (body i)
    (partial i average (b * (nd * P)))
  = Some (partial i average ((b + Z.of_nat n) * (nd * P))).
Proof.
  induction n as [|n IH]; intros b Hi Hlen Hvalues Hb Hn.
  - rewrite seqZ_nil by lia. cbn. now rewrite Z.add_0_r.
  - rewrite seqZ_cons by lia. cbn [AttenuationInit.for_each].
    pose proof (index_loop i average b (Z.to_nat (nd * P)) 0) as Hrow.
    rewrite Z2Nat.id, !Z.add_0_r in Hrow by nia.
    rewrite Hrow by (try assumption; nia). cbn [mbind option_bind].
    replace (Z.pred (Z.of_nat (S n))) with (Z.of_nat n) by lia.
    replace (b * (nd * P) + nd * P) with (Z.succ b * (nd * P)) by lia.
    rewrite IH by lia. do 2 f_equal; f_equal; f_equal; lia.
Qed.

Lemma frame_step i average :
  0 <= i ->
  Z.of_nat (length average) = P * nd * planes ->
  i * (nd * P) + P * nd * planes <= Z.of_nat (length values) ->
  AttenuationInit.for_each (seqZ 0 planes) (body i) average
  = Some (add_frame i average).
Proof.
  intros Hi Hlen Hvalues.
  pose proof (plane_loop i average (Z.to_nat planes) 0 Hi Hlen Hvalues) as H.
  rewrite Z2Nat.id in H by lia.
  change (0 * (nd * P)) with 0 in H. change (Z.to_nat 0) with 0%nat in H.
  rewrite take_0, drop_0, app_nil_l in H. rewrite H by lia.
  f_equal. rewrite take_ge, drop_ge, app_nil_r.
  - reflexivity.
  - lia.
  - rewrite add_frame_length. lia.
Qed.

Lemma add_frames_lookup frames : forall average (k : nat),
  foldl (fun average i => add_frame i average) average frames !! k
  = (fun start =>
       foldl (fun acc i =>
                add acc (mul (of_value (values !!! Z.to_nat (i * (nd * P)
                                                             + Z.of_nat k)))
                             factor))
             start frames) <$> average !! k.
Proof.
  induction frames as [|i frames IH]; intros average k; cbn [foldl].
  - now destruct (average !! k).
  - rewrite IH. unfold AttenuationInit.add_frame. rewrite list_lookup_imap.
    now destruct (average !! k).
Qed.

End ComputeAverage.

Lemma foldl_ext_all {A B : Type} (f g : A -> B -> A) (l : list B) : forall a,
  (forall a x, f a x = g a x) -> foldl f a l = foldl g a l.
Proof.
  induction l as [|x l IH]; intros a Hfg; [reflexivity|].
  cbn [foldl]. rewrite Hfg. now apply IH.
Qed.

(** X24.  [Attenuation::computeAverage] adds, for reference frame [i] and
    plane [planeInd], the block [i + planeInd] of the values to the average
    of the plane (the block of frame [i] and plane [planeInd] in the order
    [readInput] gives the values is [planeInd + i * numberOfPlanes_], the one
    [computeDarkAverage] reads): the average of an empty vector comes out
    with one cell for every plane and sample position, and the cell of
    plane [planeInd] at position [index] is the sum, over the frames in
    turn from 0.0, of the sample at [(i + planeInd) * numberOfDetectors_ *
    numberOfProjections_ + index] times the factor.  So no sample from
    block [numberOfRefFrames_ + numberOfPlanes_ - 1] on is read. *)
Theorem reference_average_adds_block_i_plus_plane {F : Type}
    (zero : F) (add mul : F -> F -> F) (of_value : Z -> F)
    (reciprocal : Z -> F)
    (numberOfRefFrames numberOfPlanes numberOfDetectors
     numberOfProjections : Z) (values : list Z) :
  0 <= numberOfRefFrames -> 0 <= numberOfPlanes ->
  0 <= numberOfDetectors -> 0 <= numberOfProjections ->
  (numberOfRefFrames + numberOfPlanes - 1)
  * (numberOfDetectors * numberOfProjections) <= Z.of_nat (length values) ->
  Z.of_nat (length values) < 2 ^ 31 ->
  exists average,
    AttenuationInit.computeAverage zero add mul of_value reciprocal
      numberOfRefFrames numberOfPlanes numberOfDetectors numberOfProjections
      values []
    = Some average
    /\ Z.of_nat (length average)
       = numberOfProjections * numberOfDetectors * numberOfPlanes
    /\ forall planeInd index,
         0 <= planeInd < numberOfPlanes ->
         0 <= index < numberOfDetectors * numberOfProjections ->
         average !! Z.to_nat (index + planeInd * numberOfDetectors
                                      * numberOfProjections)
         = Some (AttenuationInit.accumulated zero add mul of_value
                   (reciprocal numberOfRefFrames) values numberOfRefFrames
                   (fun i => (i + planeInd)
                             * (numberOfDetectors * numberOfProjections)
                             + index)).
Proof.
  intros HR Hplanes Hnd HP Hvalues Hint.
  set (S := numberOfDetectors * numberOfProjections) in *.
  set (N := numberOfProjections * numberOfDetectors * numberOfPlanes).
  assert (HS : 0 <= S) by (unfold S; nia).
  assert (HN : N = numberOfPlanes * S) by (unfold N, S; lia).
  unfold AttenuationInit.computeAverage, AttenuationInit.resize.
  rewrite take_nil, app_nil_l. cbn [length]. rewrite Nat.sub_0_r. fold N.
  destruct (for_each_foldl
              (fun s : list F => Z.of_nat (length s) = N)
              (seqZ 0 numberOfRefFrames)
              (fun i average =>
                 AttenuationInit.for_each (seqZ 0 numberOfPlanes)
                   (fun planeInd average =>
                      AttenuationInit.for_each (seqZ 0 S)
                        (fun index average =>
                           val ← AttenuationInit.at_index values
                                   ((i + planeInd) * numberOfProjections
                                    * numberOfDetectors + index);
                           old ← AttenuationInit.at_index average
                                   (index + planeInd * numberOfDetectors
                                            * numberOfProjections);
                           AttenuationInit.set_index average
                             (index + planeInd * numberOfDetectors
                                      * numberOfProjections)
                             (add old (mul (of_value val)
                                           (reciprocal numberOfRefFrames))))
                        average) average)
              (AttenuationInit.add_frame add mul of_value
                 (reciprocal numberOfRefFrames) values
                 numberOfDetectors numberOfProjections)
              (replicate (Z.to_nat N) zero))
    as [Hrun Hlen].
  - intros i s Hi Hs. apply elem_of_seqZ in Hi. split.
    + apply frame_step; try assumption; try lia.
      fold S. fold N. rewrite HN. nia.
    + rewrite add_frame_length. exact Hs.
  - rewrite length_replicate. unfold N. nia.
  - eexists. split; [exact Hrun|]. split; [exact Hlen|].
    intros planeInd index Hp Hindex.
    rewrite add_frames_lookup.
    rewrite lookup_replicate_2 by (rewrite HN; nia).
    cbn [fmap option_fmap option_map]. f_equal.
    unfold AttenuationInit.accumulated. apply foldl_ext_all.
    intros acc i. fold S. do 4 f_equal. nia.
Qed.

Lemma reference_average_adds_block_i_plus_plane_witness :
  exists average,
    AttenuationInit.computeAverage 0 Z.add Z.mul (fun v => v) (fun n => 1)
      2 2 3 1 (seqZ 100 12) []
    = Some average
    /\ Z.of_nat (length average) = 1 * 3 * 2
    /\ forall planeInd index,
         0 <= planeInd < 2 ->
         0 <= index < 3 * 1 ->
         average !! Z.to_nat (index + planeInd * 3 * 1)
         = Some (AttenuationInit.accumulated 0 Z.add Z.mul (fun v => v)
                   ((fun n => 1) 2) (seqZ 100 12) 2
                   (fun i => (i + planeInd) * (3 * 1) + index)).
Proof.
  apply (reference_average_adds_block_i_plus_plane 0 Z.add Z.mul
           (fun v => v) (fun n => 1) 2 2 3 1 (seqZ 100 12)).
  - lia.
  - lia.
  - lia.
  - lia.
  - vm_compute. discriminate.
  - vm_compute. reflexivity.
Defined.

(** ** Attenuation: the sorting of the input files *)

Lemma unchanged_outside_wider lo hi lo' hi' (s s' : list Z) :
  unchanged_outside lo hi s s' -> lo' <= lo -> hi <= hi' ->
  unchanged_outside lo' hi' s s'.
Proof.
  intros [Hlen Hout] Hlo Hhi. split; [exact Hlen|].
  intros pos Hpos. apply Hout. lia.
Qed.

Section Windows.

(** A loop whose iteration [j] writes in the window [lo j, lo (j + 1)) only
    and establishes [Post j], which depends on that window only. *)
Variable body : Z -> list Z -> option (list Z).
Variable lo : Z -> Z.
Variable Post : Z -> list Z -> Prop.
Variables first last : Z.
Variable len : nat.

Hypothesis lo_monotone : forall j k, first <= j <= k -> k <= last ->
  lo j <= lo k.
Hypothesis body_window : forall j s,
  first <= j < last -> length s = len ->
  exists s', body j s = Some s'
             /\ unchanged_outside (lo j) (lo (j + 1)) s s'
             /\ Post j s'.
Hypothesis Post_window : forall j s s',
  first <= j < last -> Post j s -> length s' = length s ->
  (forall pos : nat, lo j <= Z.of_nat pos < lo (j + 1) ->
     s' !! pos = s !! pos) ->
  Post j s'.

Lemma for_each_windows (n : nat) : forall a s,
  first <= a -> a + Z.of_nat n <= last -> length s = len ->
  exists s',
    AttenuationInit.for_each (seqZ a (Z.of_nat n)) body s = Some s'
    /\ unchanged_outside (lo a) (lo (a + Z.of_nat n)) s s'
    /\ forall j, a <= j < a + Z.of_nat n -> Post j s'.
Proof.
  induction n as [|n IH]; intros a s Ha Hn Hlen.
  - exists s. rewrite seqZ_nil by lia. split; [reflexivity|]. split.
    + now split.
    + intros j Hj. lia.
  - rewrite seqZ_cons by lia. cbn [AttenuationInit.for_each].
    destruct (body_window a s) as (s1 & Hstep & [Hlen1 Hout1] & Hpost);
      [lia|exact Hlen|].
    rewrite Hstep. cbn [mbind option_bind].
    replace (Z.pred (Z.of_nat (S n))) with (Z.of_nat n) by lia.
    destruct (IH (Z.succ a) s1) as (s' & Hrun & [Hlen' Hout'] & Hposts);
      [lia|lia|congruence|].
    exists s'. split; [exact Hrun|].
    pose proof (lo_monotone a (a + 1) ltac:(lia) ltac:(lia)) as Hm1.
    pose proof (lo_monotone (a + 1) (a + Z.of_nat (S n)) ltac:(lia)
                  ltac:(lia)) as Hm2.
    replace (Z.succ a) with (a + 1) in * by lia.
    replace (a + 1 + Z.of_nat n) with (a + Z.of_nat (S n)) in * by lia.
    split; [split|].
    + congruence.
    + intros pos Hpos. rewrite Hout' by lia. apply Hout1. lia.
    + intros j Hj. destruct (decide (j = a)) as [->|Hne].
      * apply (Post_window a s1); [lia|exact Hpost|exact Hlen'|].
        intros pos Hpos. apply Hout'. lia.
      * apply Hposts. lia.
Qed.

End Windows.

Section ReadInput.

Variables M nd planes P frames : Z.
Variable files : list (list Z).
Variable len : nat.

Local Abbreviation npm := (Z.quot nd M).

Hypothesis M_range : 1 <= M < 2 ^ 31.
Hypothesis nd_range : 0 <= nd.
Hypothesis planes_range : 0 <= planes.
Hypothesis P_range : 0 <= P.
Hypothesis frames_range : 0 <= frames.
Hypothesis files_length : Z.of_nat (length files) = M.
Hypothesis files_hold : forall (module : nat) content,
  files !! module = Some content ->
  frames * planes * npm * P <= Z.of_nat (length content).
Hypothesis values_hold : frames * planes * nd * P <= Z.of_nat len < 2 ^ 31.

(** Where detector [d] of module [module] stands in [values] for frame
    [i], plane [planeInd] and projection [projInd], and where it stands in
    the file of the module. *)
Local Abbreviation sorted i planeInd projInd module d :=
  (module * npm + projInd * nd + (planeInd + i * planes) * nd * P + d).
Local Abbreviation unsorted i planeInd projInd d :=
  (projInd * npm + (planeInd + i * planes) * npm * P + d).

Local Abbreviation cell i planeInd projInd module d :=
  (fun values : list Z =>
     exists content,
       files !! Z.to_nat module = Some content
       /\ values !! Z.to_nat (sorted i planeInd projInd module d)
          = content !! Z.to_nat (unsorted i planeInd projInd d)).

Local Abbreviation module_body i planeInd projInd :=
  (fun detModInd values =>
     startIndex ←
       AttenuationInit.int_index
         (projInd * npm + (planeInd + i * planes) * npm * P);
     indexSorted ←
       AttenuationInit.int_index
         (detModInd * npm + projInd * nd + (planeInd + i * planes) * nd * P);
     content ← AttenuationInit.at_index files detModInd;
     chunk ← read_range content startIndex npm;
     write_range values indexSorted chunk).
Local Abbreviation projection_body i planeInd :=
  (fun projInd values =>
     AttenuationInit.for_each (seqZ 0 M) (module_body i planeInd projInd)
       values).
Local Abbreviation plane_body i :=
  (fun planeInd values =>
     AttenuationInit.for_each (seqZ 0 P) (projection_body i planeInd) values).
Local Abbreviation frame_body :=
  (fun i values =>
     AttenuationInit.for_each (seqZ 0 planes) (plane_body i) values).

Lemma per_module : 0 <= npm /\ M * npm <= nd.
Proof.
  rewrite Z.quot_div_nonneg by lia. split.
  - apply Z.div_pos; lia.
  - apply Z.mul_div_le. lia.
Qed.

Lemma block_range i planeInd :
  0 <= i < frames -> 0 <= planeInd < planes ->
  0 <= planeInd + i * planes /\ planeInd + i * planes + 1 <= frames * planes.
Proof. intros Hi Hp. nia. Qed.

Lemma module_step i planeInd projInd j s :
  0 <= i < frames -> 0 <= planeInd < planes -> 0 <= projInd < P ->
  0 <= j < M -> length s = len ->
  exists s',
    module_body i planeInd projInd j s = Some s'
    /\ unchanged_outside (sorted i planeInd projInd j 0)
         (sorted i planeInd projInd (j + 1) 0) s s'
    /\ forall d, 0 <= d < npm -> cell i planeInd projInd j d s'.
Proof.
  intros Hi Hp Hproj Hj Hlen.
  destruct per_module as [Hnpm HMnpm].
  destruct (block_range i planeInd Hi Hp) as [Hb0 Hb1].
  set (b := planeInd + i * planes) in *.
  assert (Hsrc : 0 <= projInd * npm + b * npm * P
                 /\ projInd * npm + b * npm * P + npm
                    <= frames * planes * npm * P).
  { assert (0 <= npm * P) by nia.
    assert ((b + 1) * (npm * P) <= frames * planes * (npm * P)) by nia.
    nia. }
  assert (Hdst : 0 <= j * npm + projInd * nd + b * nd * P
                 /\ j * npm + projInd * nd + b * nd * P + npm
                    <= frames * planes * nd * P).
  { assert (0 <= nd * P) by nia.
    assert ((b + 1) * (nd * P) <= frames * planes * (nd * P)) by nia.
    assert ((j + 1) * npm <= M * npm) by nia.
    nia. }
  destruct (lookup_lt_is_Some_2 files (Z.to_nat j)) as [content Hcontent];
    [lia|].
  pose proof (files_hold _ _ Hcontent) as Hhold.
  assert (Hle : frames * planes * npm * P <= frames * planes * nd * P).
  { assert (npm <= nd) by nia. assert (0 <= frames * planes) by nia.
    assert (0 <= frames * planes * P) by nia. nia. }
  unfold AttenuationInit.int_index, AttenuationInit.at_index.
  rewrite decide_True by lia. cbn [mbind option_bind].
  rewrite decide_True by lia. cbn [mbind option_bind].
  rewrite decide_True by lia. rewrite Hcontent. cbn [mbind option_bind].
  rewrite !to_uint_small by lia.
  destruct (read_range_is_Some content (projInd * npm + b * npm * P) npm)
    as [chunk Hchunk]; [lia|lia|lia|].
  rewrite Hchunk. cbn [mbind option_bind].
  pose proof (read_range_length _ _ _ _ Hchunk) as Hclen.
  pose proof (read_range_Some _ _ _ _ Hchunk) as (_ & _ & _ & Hceq).
  assert (Hwrite : is_Some (write_range s
                              (j * npm + projInd * nd + b * nd * P) chunk)).
  { unfold write_range. rewrite decide_True by lia. eauto. }
  destruct Hwrite as [s' Hwrite]. exists s'. split; [exact Hwrite|].
  split; [split|].
  - now apply write_range_length in Hwrite.
  - intros pos Hpos. rewrite (write_range_lookup _ _ _ _ _ Hwrite).
    rewrite decide_False by lia. reflexivity.
  - intros d Hd. exists content. split; [reflexivity|].
    rewrite (write_range_lookup _ _ _ _ _ Hwrite).
    rewrite decide_True by lia.
    rewrite Hceq, lookup_take_lt, lookup_drop by lia. f_equal. lia.
Qed.

Lemma projection_step i planeInd projInd s :
  0 <= i < frames -> 0 <= planeInd < planes -> 0 <= projInd < P ->
  length s = len ->
  exists s',
    projection_body i planeInd projInd s = Some s'
    /\ unchanged_outside (sorted i planeInd projInd 0 0)
         (sorted i planeInd (projInd + 1) 0 0) s s'
    /\ forall module d, 0 <= module < M -> 0 <= d < npm ->
         cell i planeInd projInd module d s'.
Proof.
  intros Hi Hp Hproj Hlen. destruct per_module as [Hnpm HMnpm].
  destruct (for_each_windows (module_body i planeInd projInd)
              (fun j => sorted i planeInd projInd j 0)
              (fun j values =>
                 forall d, 0 <= d < npm ->
                   cell i planeInd projInd j d values)
              0 M len)
    with (n := Z.to_nat M) (a := 0) (s := s)
    as (s' & Hrun & Hout & Hcells); try lia.
  - intros j k Hjk Hk. nia.
  - intros j s0 Hj Hs0. now apply module_step.
  - intros j s0 s1 Hj Hpost Hlen1 Hsame d Hd.
    destruct (Hpost d Hd) as (content & Hc & Hv).
    exists content. split; [exact Hc|]. rewrite Hsame; [exact Hv|].
    destruct (block_range i planeInd Hi Hp) as [Hb0 _].
    assert (0 <= j * npm) by nia. assert (0 <= projInd * nd) by nia.
    assert (0 <= (planeInd + i * planes) * nd * P) by nia.
    lia.
  - rewrite Z2Nat.id in Hrun, Hout, Hcells by lia.
    exists s'. split; [exact Hrun|]. split.
    + eapply unchanged_outside_wider; [exact Hout|lia|lia].
    + intros module d Hm Hd. apply Hcells; lia.
Qed.

Lemma plane_step i planeInd s :
  0 <= i < frames -> 0 <= planeInd < planes -> length s = len ->
  exists s',
    plane_body i planeInd s = Some s'
    /\ unchanged_outside (sorted i planeInd 0 0 0)
         (sorted i (planeInd + 1) 0 0 0) s s'
    /\ forall projInd module d,
         0 <= projInd < P -> 0 <= module < M -> 0 <= d < npm ->
         cell i planeInd projInd module d s'.
Proof.
  intros Hi Hp Hlen. destruct per_module as [Hnpm HMnpm].
  destruct (block_range i planeInd Hi Hp) as [Hb0 _].
  destruct (for_each_windows (projection_body i planeInd)
              (fun projInd => sorted i planeInd projInd 0 0)
              (fun projInd values =>
                 forall module d, 0 <= module < M -> 0 <= d < npm ->
                   cell i planeInd projInd module d values)
              0 P len)
    with (n := Z.to_nat P) (a := 0) (s := s)
    as (s' & Hrun & Hout & Hcells); try lia.
  - intros j k Hjk Hk. nia.
  - intros j s0 Hj Hs0. now apply projection_step.
  - intros j s0 s1 Hj Hpost Hlen1 Hsame module d Hm Hd.
    destruct (Hpost module d Hm Hd) as (content & Hc & Hv).
    exists content. split; [exact Hc|]. rewrite Hsame; [exact Hv|].
    assert (0 <= module * npm) by nia.
    assert ((module + 1) * npm <= M * npm) by nia.
    assert (0 <= j * nd) by nia.
    assert (0 <= (planeInd + i * planes) * nd * P) by nia.
    lia.
  - rewrite Z2Nat.id in Hrun, Hout, Hcells by lia.
    exists s'. split; [exact Hrun|]. split.
    + eapply unchanged_outside_wider; [exact Hout|lia|lia].
    + intros projInd module d Hj Hm Hd. apply Hcells; lia.
Qed.

Lemma frame_step_sorted i s :
  0 <= i < frames -> length s = len ->
  exists s',
    frame_body i s = Some s'
    /\ unchanged_outside (sorted i 0 0 0 0) (sorted (i + 1) 0 0 0 0) s s'
    /\ forall planeInd projInd module d,
         0 <= planeInd < planes -> 0 <= projInd < P ->
         0 <= module < M -> 0 <= d < npm ->
         cell i planeInd projInd module d s'.
Proof.
  intros Hi Hlen. destruct per_module as [Hnpm HMnpm].
  assert (HndP : 0 <= nd * P) by nia.
  destruct (for_each_windows (plane_body i)
              (fun planeInd => sorted i planeInd 0 0 0)
              (fun planeInd values =>
                 forall projInd module d,
                   0 <= projInd < P -> 0 <= module < M -> 0 <= d < npm ->
                   cell i planeInd projInd module d values)
              0 planes len)
    with (n := Z.to_nat planes) (a := 0) (s := s)
    as (s' & Hrun & Hout & Hcells); try lia.
  - intros j k Hjk Hk. nia.
  - intros j s0 Hj Hs0. now apply plane_step.
  - intros j s0 s1 Hj Hpost Hlen1 Hsame projInd module d Hq Hm Hd.
    destruct (Hpost projInd module d Hq Hm Hd) as (content & Hc & Hv).
    exists content. split; [exact Hc|]. rewrite Hsame; [exact Hv|].
    destruct (block_range i j Hi Hj) as [Hb0 _].
    assert (0 <= module * npm) by nia.
    assert ((module + 1) * npm <= M * npm) by nia.
    assert (0 <= projInd * nd) by nia.
    assert ((projInd + 1) * nd <= P * nd) by nia.
    assert (0 <= (j + i * planes) * nd * P) by nia.
    lia.
  - rewrite Z2Nat.id in Hrun, Hout, Hcells by lia.
    exists s'. split; [exact Hrun|]. split.
    + eapply unchanged_outside_wider; [exact Hout|lia|lia].
    + intros planeInd projInd module d Hj Hq Hm Hd. apply Hcells; lia.
Qed.

Lemma frames_sorted s :
  length s = len ->
  exists s',
    AttenuationInit.for_each (seqZ 0 frames) frame_body s = Some s'
    /\ length s' = len
    /\ (forall pos : nat, frames * planes * nd * P <= Z.of_nat pos ->
          s' !! pos = s !! pos)
    /\ forall i planeInd projInd module d,
         0 <= i < frames -> 0 <= planeInd < planes -> 0 <= projInd < P ->
         0 <= module < M -> 0 <= d < npm ->
         cell i planeInd projInd module d s'.
Proof.
  intros Hlen. destruct per_module as [Hnpm HMnpm].
  assert (HndP : 0 <= nd * P) by nia.
  assert (Hblock : 0 <= planes * (nd * P)) by nia.
  destruct (for_each_windows frame_body
              (fun i => sorted i 0 0 0 0)
              (fun i values =>
                 forall planeInd projInd module d,
                   0 <= planeInd < planes -> 0 <= projInd < P ->
                   0 <= module < M -> 0 <= d < npm ->
                   cell i planeInd projInd module d values)
              0 frames len)
    with (n := Z.to_nat frames) (a := 0) (s := s)
    as (s' & Hrun & [Hlen' Hout] & Hcells); try lia.
  - intros j k Hjk Hk. nia.
  - intros j s0 Hj Hs0. now apply frame_step_sorted.
  - intros j s0 s1 Hj Hpost Hlen1 Hsame planeInd projInd module d Hp Hq Hm Hd.
    destruct (Hpost planeInd projInd module d Hp Hq Hm Hd)
      as (content & Hc & Hv).
    exists content. split; [exact Hc|]. rewrite Hsame; [exact Hv|].
    destruct (block_range j planeInd Hj Hp) as [Hb0 _].
    assert (0 <= module * npm) by nia.
    assert ((module + 1) * npm <= M * npm) by nia.
    assert (0 <= projInd * nd) by nia.
    assert ((projInd + 1) * nd <= P * nd) by nia.
    assert (0 <= planeInd * (nd * P)) by nia.
    assert ((planeInd + 1) * (nd * P) <= planes * (nd * P)) by nia.
    assert (0 <= j * (planes * (nd * P))) by nia.
    lia.
  - rewrite Z2Nat.id in Hrun, Hout, Hcells by lia.
    exists s'. split; [exact Hrun|]. split; [congruence|]. split.
    + intros pos Hpos. apply Hout. right. lia.
    + intros i planeInd projInd module d Hi Hp Hq Hm Hd.
      apply Hcells; lia.
Qed.

End ReadInput.

(** X25.  [Attenuation::readInput] interleaves the files of the detector
    modules: for [M >= 1] module files that each hold the
    [numberOfFrames * numberOfPlanes_ * (numberOfDetectors_ / M) *
    numberOfProjections_] samples the loops read, and a first file long
    enough that [values] (sized [fileContents[0].size() * M]) holds
    [numberOfFrames * numberOfPlanes_ * numberOfDetectors_ *
    numberOfProjections_] samples, the sorting completes, and for every
    frame, plane, projection, module and detector [d] of the module the
    sample at [module * (numberOfDetectors_ / M) + d] of the projection's
    row of [numberOfDetectors_] samples is the sample [d] of the
    projection's row of [numberOfDetectors_ / M] samples in the file of the
    module; what lies behind the last block stays 0. *)
Theorem readInput_interleaves_modules
    (M nd planes P frames : Z) (files : list (list Z)) (first : list Z) :
  1 <= M < 2 ^ 31 ->
  0 <= nd -> 0 <= planes -> 0 <= P -> 0 <= frames ->
  Z.of_nat (length files) = M ->
  files !! 0%nat = Some first ->
  (forall (module : nat) content,
     files !! module = Some content ->
     frames * planes * Z.quot nd M * P <= Z.of_nat (length content)) ->
  frames * planes * nd * P <= Z.of_nat (length first) * M < 2 ^ 31 ->
  exists values,
    AttenuationInit.readInput M nd planes P frames files = Some values
    /\ Z.of_nat (length values) = Z.of_nat (length first) * M
    /\ (forall i planeInd projInd module d,
          0 <= i < frames -> 0 <= planeInd < planes -> 0 <= projInd < P ->
          0 <= module < M -> 0 <= d < Z.quot nd M ->
          exists content,
            files !! Z.to_nat module = Some content
            /\ values !! Z.to_nat (module * Z.quot nd M + projInd * nd
                                   + (planeInd + i * planes) * nd * P + d)
               = content !! Z.to_nat (projInd * Z.quot nd M
                                      + (planeInd + i * planes)
                                        * Z.quot nd M * P + d))
    /\ (forall pos : nat,
          frames * planes * nd * P <= Z.of_nat pos ->
          Z.of_nat pos < Z.of_nat (length first) * M ->
          values !! pos = Some 0).
Proof.
  intros HM Hnd Hplanes HP Hframes Hfiles Hfirst Hhold Hvalues.
  unfold AttenuationInit.readInput. rewrite decide_False by lia.
  rewrite Hfirst. cbn [mbind option_bind]. unfold AttenuationInit.resize.
  rewrite take_nil, app_nil_l. cbn [length]. rewrite Nat.sub_0_r.
  set (len := Z.to_nat (Z.of_nat (length first) * M)).
  destruct (frames_sorted M nd planes P frames files len)
    with (s := replicate len 0)
    as (values & Hrun & Hlen & Hrest & Hcells); try assumption.
  - unfold len. lia.
  - apply length_replicate.
  - exists values. split; [exact Hrun|]. split; [unfold len in Hlen; lia|].
    split; [exact Hcells|].
    intros pos Hpos Hin. rewrite Hrest by exact Hpos.
    apply lookup_replicate_2. unfold len. lia.
Qed.

Lemma readInput_interleaves_modules_witness :
  exists values,
    AttenuationInit.readInput 2 4 2 2 1 two_module_files = Some values
    /\ Z.of_nat (length values) = Z.of_nat (length (seqZ 100 8)) * 2
    /\ (forall i planeInd projInd module d,
          0 <= i < 1 -> 0 <= planeInd < 2 -> 0 <= projInd < 2 ->
          0 <= module < 2 -> 0 <= d < Z.quot 4 2 ->
          exists content,
            two_module_files !! Z.to_nat module = Some content
            /\ values !! Z.to_nat (module * Z.quot 4 2 + projInd * 4
                                   + (planeInd + i * 2) * 4 * 2 + d)
               = content !! Z.to_nat (projInd * Z.quot 4 2
                                      + (planeInd + i * 2) * Z.quot 4 2 * 2
                                      + d))
    /\ (forall pos : nat,
          1 * 2 * 4 * 2 <= Z.of_nat pos ->
          Z.of_nat pos < Z.of_nat (length (seqZ 100 8)) * 2 ->
          values !! pos = Some 0).
Proof.
  apply (readInput_interleaves_modules 2 4 2 2 1 two_module_files
           (seqZ 100 8)).
  - lia.
  - lia.
  - lia.
  - lia.
  - lia.
  - reflexivity.
  - reflexivity.
  - intros module content Hc.
    destruct module as [|[|module]]; simpl in Hc;
      [injection Hc as <- | injection Hc as <- | discriminate];
      vm_compute; discriminate.
  - vm_compute. split; [discriminate|reflexivity].
Defined.

(** ** The Receiver: an invariant of its buffers *)

Lemma pool_sized_after (idx elements : Z) (free : list MemoryPool.Buffer)
    (m m1 : Memory) (p : addr) :
  Forall (fun b => exists q,
            MemoryPool.buf_ptr b = Some q
            /\ Z.of_nat (length (deref m q)) = elements) free ->
  (forall q, q <> p -> deref m1 q = deref m q) ->
  length (deref m1 p) = length (deref m p) ->
  Forall (fun b => exists q,
            MemoryPool.buf_ptr b = Some q
            /\ Z.of_nat (length (deref m1 q)) = elements) free.
Proof.
  intros Hall Hother Hsame. eapply Forall_impl; [exact Hall|].
  intros b (q & Hq & Hlen). exists q. split; [exact Hq|].
  destruct (decide (q = p)) as [->|Hne].
  - now rewrite Hsame.
  - now rewrite Hother.
Qed.

(** X26.  The buffers of the Receiver stay fit for [loadImage]: in a state
    in which the ring buffers hold [bufferSize_] slots of 16 detectors and
    every free buffer of the registration holds [numberOfDetectors_ *
    numberOfProjections_] elements, with room for the stripes of all
    modules, [loadImage] with a free buffer returns a valid stitched Image
    of the frame and leaves such a state, with one free buffer less; and
    the destruction of the Image leaves such a state again, with as many
    free buffers as before the call. *)
Theorem receiver_stays_ready (r : Receiver.Receiver) (k now : Z)
    (pool : MemoryPool.MemoryPool) (m : Memory) :
  receiver_ready r pool m ->
  0 <= k < Int.SIZE_MAX ->
  MemoryPool.free_count (Receiver.memoryPoolIndex_ r) pool <> 0%nat ->
  exists img pool1 m1 p,
    Receiver.loadImage r k now pool m = Returns (img, pool1, m1)
    /\ Img.valid img = true
    /\ Img.container img = Some p
    /\ Img.index img = Int.to_uint k
    /\ Img.plane img = k mod 2
    /\ Z.of_nat (length (deref m1 p))
       = Receiver.numberOfDetectors_ r * Receiver.numberOfProjections_ r
    /\ stitched 16 r k (deref m1 p)
    /\ receiver_ready r pool1 m1
    /\ S (MemoryPool.free_count (Receiver.memoryPoolIndex_ r) pool1)
       = MemoryPool.free_count (Receiver.memoryPoolIndex_ r) pool
    /\ receiver_ready r (Image_dtor img pool1) m1
    /\ MemoryPool.free_count (Receiver.memoryPoolIndex_ r)
         (Image_dtor img pool1)
       = MemoryPool.free_count (Receiver.memoryPoolIndex_ r) pool.
Proof.
  intros (HB & HP & Hring & Hroom & Hrings & Hsized) Hk Hfree.
  set (idx := Receiver.memoryPoolIndex_ r) in *.
  set (E := Receiver.numberOfDetectors_ r * Receiver.numberOfProjections_ r)
    in *.
  unfold pool_sized in Hsized. unfold MemoryPool.free_count in Hfree.
  destruct (pool !! Z.to_nat idx) as [[|b free]|] eqn:Hlook;
    try (now destruct Hfree).
  cbn [default from_option id] in Hsized.
  apply Forall_cons in Hsized as [(p & Hptr & Hlen) Hrest].
  assert (Hreq : MemoryPool.requestMemory idx pool
                 = Returns (mkImage (MemoryPool.buf_elements b) 0 0
                              (MemoryPool.buf_ptr b) idx 0 true
                              (MemoryPool.buf_device b),
                            <[Z.to_nat idx := free]> pool)).
  { unfold MemoryPool.requestMemory. now rewrite Hlook. }
  destruct (loadImage_stitches_16 r k now pool _ m _ p Hk HB HP Hring Hreq)
    as (_ & img & m1 & Hload & Hvalid & Hindex & Hplane & _ & Hcont
        & Hstitched).
  { exact Hptr. }
  { rewrite Hlen. exact Hroom. }
  { exact Hrings. }
  destruct (loadImage_frame r k now pool m) as [_ Hframe];
    [unfold Int.SIZE_MAX in *; lia|].
  destruct (Hframe _ _ _ Hload)
    as (p' & Hcont' & _ & Hidx & _ & _ & Hother & Hsame & _ & _).
  rewrite Hcont in Hcont'. injection Hcont' as <-.
  assert (Hin : (Z.to_nat idx < length pool)%nat)
    by (now apply lookup_lt_Some in Hlook).
  assert (Hfree1 : Forall (fun b => exists q,
                      MemoryPool.buf_ptr b = Some q
                      /\ Z.of_nat (length (deref m1 q)) = E) free)
    by (now apply (pool_sized_after idx E free m m1 p)).
  exists img, (<[Z.to_nat idx := free]> pool), m1, p.
  split; [exact Hload|]. split; [exact Hvalid|]. split; [exact Hcont|].
  split; [exact Hindex|]. split; [exact Hplane|].
  split; [now rewrite Hsame|]. split; [exact Hstitched|].
  assert (Hdtor : Image_dtor img (<[Z.to_nat idx := free]> pool)
                    !! Z.to_nat idx
                  = Some (MemoryPool.mkBuffer (data_ img) (size_ img)
                            (device_ img) :: free)).
  { unfold Image_dtor. unfold Img.valid in Hvalid. rewrite Hvalid.
    unfold MemoryPool.returnMemory. unfold Img.memoryPoolIndex in Hidx.
    rewrite Hidx. fold idx.
    rewrite list_lookup_alter_eq, list_lookup_insert_eq by exact Hin.
    reflexivity. }
  split; [|split; [|split]].
  - unfold receiver_ready. split; [exact HB|]. split; [exact HP|].
    split; [exact Hring|]. split; [exact Hroom|]. split; [exact Hrings|].
    unfold pool_sized. fold idx E.
    now rewrite list_lookup_insert_eq by exact Hin.
  - unfold MemoryPool.free_count. fold idx.
    rewrite list_lookup_insert_eq by exact Hin. now rewrite Hlook.
  - unfold receiver_ready. split; [exact HB|]. split; [exact HP|].
    split; [exact Hring|]. split; [exact Hroom|]. split; [exact Hrings|].
    unfold pool_sized. fold idx E.
    rewrite Hdtor. cbn [default from_option id]. constructor; [|exact Hfree1].
    exists p. split; [exact Hcont|]. now rewrite Hsame.
  - unfold MemoryPool.free_count. fold idx. now rewrite Hdtor, Hlook.
Qed.

Lemma receiver_stays_ready_witness :
  exists img pool1 m1 p,
    Receiver.loadImage receiver_32_2 5 9 receiver_32_2_pool.1
      receiver_32_2_pool.2 = Returns (img, pool1, m1)
    /\ Img.valid img = true
    /\ Img.container img = Some p
    /\ Img.index img = Int.to_uint 5
    /\ Img.plane img = 5 mod 2
    /\ Z.of_nat (length (deref m1 p))
       = Receiver.numberOfDetectors_ receiver_32_2
         * Receiver.numberOfProjections_ receiver_32_2
    /\ stitched 16 receiver_32_2 5 (deref m1 p)
    /\ receiver_ready receiver_32_2 pool1 m1
    /\ S (MemoryPool.free_count (Receiver.memoryPoolIndex_ receiver_32_2)
            pool1)
       = MemoryPool.free_count (Receiver.memoryPoolIndex_ receiver_32_2)
           receiver_32_2_pool.1
    /\ receiver_ready receiver_32_2 (Image_dtor img pool1) m1
    /\ MemoryPool.free_count (Receiver.memoryPoolIndex_ receiver_32_2)
         (Image_dtor img pool1)
       = MemoryPool.free_count (Receiver.memoryPoolIndex_ receiver_32_2)
           receiver_32_2_pool.1.
Proof.
  apply (receiver_stays_ready receiver_32_2 5 9 receiver_32_2_pool.1
           receiver_32_2_pool.2).
  - unfold receiver_ready. split; [simpl; lia|]. split; [simpl; lia|].
    split; [simpl; lia|]. split; [simpl; lia|]. split.
    + intros d Hd. cbn in Hd.
      assert (d = 0 \/ d = 1) as [-> | ->] by lia; vm_compute; discriminate.
    + unfold pool_sized. cbn.
      repeat (constructor; [eexists; split; reflexivity|]). constructor.
  - vm_compute. split; [discriminate|reflexivity].
  - vm_compute. discriminate.
Defined.

(** X27.  The constructor of the Receiver leaves buffers fit for
    [loadImage] when the configuration has at least 16 detectors per
    module: for members in the range of a configuration with
    [16 * numberOfDetectorModules_ <= numberOfDetectors_], the Receiver it
    builds, with whatever the receiver modules write to its ring buffers
    afterwards, has ring buffers of [bufferSize_] slots of 16 detectors and
    100 free buffers of [numberOfDetectors_ * numberOfProjections_]
    elements, room for the stripes of all modules. *)
Theorem receiver_constructor_makes_ready (ms : ReceiverConfig.members)
    (pool : MemoryPool.MemoryPool) (m : Memory) :
  1 <= ReceiverConfig.numberOfDetectorModules_ ms < 2 ^ 31 ->
  16 * ReceiverConfig.numberOfDetectorModules_ ms
  <= ReceiverConfig.numberOfDetectors_ ms ->
  1 <= ReceiverConfig.bufferSize_ ms ->
  1 <= ReceiverConfig.numberOfProjections_ ms ->
  ReceiverConfig.numberOfDetectors_ ms
  * ReceiverConfig.numberOfProjections_ ms < 2 ^ 31 ->
  ReceiverConfig.bufferSize_ ms
  * Z.quot (ReceiverConfig.numberOfDetectors_ ms)
           (ReceiverConfig.numberOfDetectorModules_ ms)
  * ReceiverConfig.numberOfProjections_ ms < 2 ^ 31 ->
  exists r pool' m',
    ReceiverStage.constructor_body ms pool m
    = ReceiverStage.Built (r, pool', m')
    /\ MemoryPool.free_count (Receiver.memoryPoolIndex_ r) pool' = 100%nat
    /\ forall r', rings_filled r r' -> receiver_ready r' pool' m'.
Proof.
  intros HM Hwide HB HP Hel Hring.
  destruct (constructor_body_built ms pool m)
    as (r & pool' & m' & sino & pool1 & Hbuilt & Hnd & HMr & HBr & HPr
        & Hbufs & Hfree & _ & _ & _ & Hsized); try assumption; [lia|].
  exists r, pool', m'. split; [exact Hbuilt|]. split; [exact Hfree|].
  intros r' (Hnd' & HM' & HB' & HP' & Hidx' & Hlen').
  set (M := ReceiverConfig.numberOfDetectorModules_ ms) in *.
  set (nd := ReceiverConfig.numberOfDetectors_ ms) in *.
  set (B := ReceiverConfig.bufferSize_ ms) in *.
  set (P := ReceiverConfig.numberOfProjections_ ms) in *.
  assert (Hq : 16 <= Z.quot nd M).
  { rewrite Z.quot_div_nonneg by lia. apply Z.div_le_lower_bound; lia. }
  unfold receiver_ready. rewrite Hnd', HM', HB', HP', Hidx', Hnd, HMr, HBr, HPr.
  split; [lia|]. split; [lia|]. split; [nia|]. split; [nia|]. split.
  - intros d Hd. rewrite Hlen', Hbufs by exact Hd.
    unfold default; cbn [from_option id]. rewrite length_replicate. nia.
  - exact Hsized.
Qed.

Lemma receiver_constructor_makes_ready_witness :
  exists r pool' m',
    ReceiverStage.constructor_body members_64_2 [] empty_memory
    = ReceiverStage.Built (r, pool', m')
    /\ MemoryPool.free_count (Receiver.memoryPoolIndex_ r) pool' = 100%nat
    /\ forall r', rings_filled r r' -> receiver_ready r' pool' m'.
Proof.
  apply (receiver_constructor_makes_ready members_64_2 [] empty_memory).
  - simpl. lia.
  - simpl. lia.
  - simpl. lia.
  - simpl. lia.
  - simpl. lia.
  - vm_compute. reflexivity.
Defined.
